(** * The pgvector retrieval schema of jurisprudencia-platform

    A shallow embedding of [src/database/init_pgvector.sql]: the table
    [embeddings_vector] with its constraints, the stored functions
    [search_similar_embeddings] and [hybrid_search], and the trigger
    [cleanup_orphan_embeddings].

    Conventions of the embedding.
    - A table is the list of its rows in scan order; a query is a function
      from tables to the list of rows it returns.
    - [ORDER BY] is a stable sort of the rows in the order they reach it:
      SQL leaves the order of rows with equal keys open, and the scan order
      is one of the orders the engine can produce.
    - [FLOAT] values are exact rationals ([Q]); rounding and NaN are outside
      the model.  The pgvector operator [<=>] (cosine distance) is not part
      of the repository and is a parameter of the development.
    - Queries are modelled by their exact (sequential) meaning.  The HNSW
      index [embeddings_vector_embedding_idx] answers [ORDER BY ... LIMIT]
      approximately: it can return fewer rows than the exact query and
      leaves rows of equal distance in an order of its own.
    - [INT] is a 32-bit signed integer; arithmetic that leaves the range and
      a negative [LIMIT] raise an error, as in PostgreSQL. *)

From Stdlib Require Import String Ascii.
From Stdlib Require Import List ZArith NArith QArith Bool Lia Lqa.
From Stdlib Require Import Permutation Sorted.
Import ListNotations.

Local Open Scope Z_scope.

(** ** Values and errors *)

Definition uuid := N.
Definition text := list ascii.
Definition vector := list Q.
Definition timestamp := Z.

(** The errors the statements of the script can raise. *)
Inductive sql_error : Type :=
| unique_violation
| foreign_key_violation
| DimensionMismatch (expected actual : nat)
| string_data_right_truncation
| invalid_row_count_in_limit_clause
| numeric_value_out_of_range.

Inductive result (A : Type) : Type :=
| Ok (a : A)
| Err (e : sql_error).

Arguments Ok {A} a.
Arguments Err {A} e.

Definition bind {A B : Type} (r : result A) (k : A -> result B) : result B :=
  match r with
  | Ok a => k a
  | Err e => Err e
  end.

Notation "x <- r ;; k" := (bind r (fun x => k))
  (at level 61, r at next level, right associativity).

Definition INT_MIN : Z := - 2147483648.
Definition INT_MAX : Z := 2147483647.

(** [a * b] on [INT]: PostgreSQL raises "integer out of range". *)
Definition int4mul (a b : Z) : result Z :=
  let r := a * b in
  if (INT_MIN <=? r) && (r <=? INT_MAX) then Ok r
  else Err numeric_value_out_of_range.

(** [LIMIT n]: "LIMIT must not be negative". *)
Definition sql_limit {A : Type} (n : Z) (rows : list A) : result (list A) :=
  if n <? 0 then Err invalid_row_count_in_limit_clause
  else Ok (firstn (Z.to_nat n) rows).

(** [COALESCE(x, d)] *)
Definition coalesce {A : Type} (x : option A) (d : A) : A :=
  match x with
  | Some a => a
  | None => d
  end.

(** [1 - x] on a nullable FLOAT. *)
Definition one_minus (x : option Q) : option Q :=
  option_map (fun d => (1 - d)%Q) x.

(** [x >= t] in a WHERE clause: NULL does not pass. *)
Definition ge_threshold (x : option Q) (t : Q) : bool :=
  match x with
  | Some s => Qle_bool t s
  | None => false
  end.

(** ** ORDER BY *)

Section OrderBy.

Variable A : Type.
Variable leb : A -> A -> bool.

Fixpoint insert_row (x : A) (rows : list A) : list A :=
  match rows with
  | [] => [x]
  | y :: rest => if leb x y then x :: y :: rest else y :: insert_row x rest
  end.

Fixpoint order_by (rows : list A) : list A :=
  match rows with
  | [] => []
  | x :: rest => insert_row x (order_by rest)
  end.

End OrderBy.

Arguments insert_row {A} leb x rows.
Arguments order_by {A} leb rows.

(** Sort keys.  [ASC] puts NULL last, [DESC] puts NULL first. *)
Definition asc_nulls_last (a b : option Q) : bool :=
  match a, b with
  | Some x, Some y => Qle_bool x y
  | Some _, None => true
  | None, Some _ => false
  | None, None => true
  end.

Definition desc_nulls_first (a b : option Q) : bool :=
  asc_nulls_last b a.

Definition desc (a b : Q) : bool := Qle_bool b a.

(** ** SELECT DISTINCT: the first row of every class of equal rows *)

Fixpoint distinct {A : Type} (eqb : A -> A -> bool) (rows : list A) : list A :=
  match rows with
  | [] => []
  | x :: rest => x :: filter (fun y => negb (eqb x y)) (distinct eqb rest)
  end.

(** ** LOWER and LIKE on text *)

(** [LOWER] under the C collation: only A-Z change. *)
Definition lower_char (c : ascii) : ascii :=
  let n := nat_of_ascii c in
  if (Nat.leb 65 n && Nat.leb n 90)%bool then ascii_of_nat (n + 32) else c.

Definition lower (s : text) : text := map lower_char s.

Definition percent : ascii := "%"%char.
Definition underscore : ascii := "_"%char.
Definition backslash : ascii := "\"%char.

Definition ascii_eqb (a b : ascii) : bool := Ascii.eqb a b.

(** [like_match p s] is [s LIKE p]: [%] stands for any run of characters,
    [_] for one character, and a backslash takes the next pattern character
    literally. A pattern that ends in a lone backslash is an error in
    PostgreSQL; it matches nothing here (the patterns built by
    [hybrid_search] always end in [%]). *)
Fixpoint like_match (p : text) (s : text) {struct p} : bool :=
  match p with
  | [] => match s with [] => true | _ :: _ => false end
  | c :: p' =>
      if ascii_eqb c percent then
        (fix any (s : text) : bool :=
           like_match p' s ||
           match s with
           | [] => false
           | _ :: s' => any s'
           end) s
      else if ascii_eqb c underscore then
        match s with
        | [] => false
        | _ :: s' => like_match p' s'
        end
      else if ascii_eqb c backslash then
        match p' with
        | [] => false
        | e :: p'' =>
            match s with
            | [] => false
            | d :: s' => ascii_eqb e d && like_match p'' s'
            end
        end
      else
        match s with
        | [] => false
        | d :: s' => ascii_eqb c d && like_match p' s'
        end
  end.

(** ['%' || LOWER(keyword) || '%'] *)
Definition keyword_pattern (keyword : text) : text :=
  percent :: lower keyword ++ [percent].

(** [LOWER(chunk_text) LIKE '%' || LOWER(keyword) || '%'] *)
Definition keyword_matches (chunk_text keyword : text) : bool :=
  like_match (keyword_pattern keyword) (lower chunk_text).

Definition text_eqb (a b : text) : bool :=
  if list_eq_dec ascii_dec a b then true else false.

(** ** Tables *)

(** [cases], [documents] and [text_chunks] are created elsewhere; the script
    uses the columns below. *)
Record case_row : Type := {
  c_id : uuid;
  c_case_number : text
}.

Record document_row : Type := {
  d_id : uuid;
  d_case_id : uuid
}.

Record chunk_row : Type := {
  tc_id : uuid;
  tc_document_id : uuid;
  tc_chunk_text : text
}.

(** [embeddings_vector]: [embedding], [model_name] and [created_at] are
    nullable. *)
Record embedding_row : Type := {
  ev_id : uuid;
  ev_case_id : uuid;
  ev_chunk_id : uuid;
  ev_embedding : option vector;
  ev_model_name : option text;
  ev_created_at : option timestamp
}.

Record database : Type := {
  cases : list case_row;
  documents : list document_row;
  text_chunks : list chunk_row;
  embeddings_vector : list embedding_row
}.

Definition empty_database : database :=
  {| cases := []; documents := []; text_chunks := []; embeddings_vector := [] |}.

(** ** The stored functions *)

Record similar_row : Type := {
  s_embedding_id : uuid;
  s_case_id : uuid;
  s_chunk_id : uuid;
  s_similarity : option Q;
  s_case_number : text;
  s_chunk_text : text
}.

Record semantic_result : Type := {
  sr_case_id : uuid;
  sr_chunk_id : uuid;
  sr_semantic_score : option Q
}.

Record keyword_result : Type := {
  kr_case_id : uuid;
  kr_chunk_id : uuid;
  kr_keyword_score : option Q
}.

Record hybrid_row : Type := {
  h_case_id : uuid;
  h_case_number : text;
  h_chunk_id : uuid;
  h_chunk_text : text;
  h_semantic_score : Q;
  h_keyword_score : Q;
  h_final_score : Q
}.

Definition hybrid_row_eqb (a b : hybrid_row) : bool :=
  N.eqb (h_case_id a) (h_case_id b) &&
  text_eqb (h_case_number a) (h_case_number b) &&
  N.eqb (h_chunk_id a) (h_chunk_id b) &&
  text_eqb (h_chunk_text a) (h_chunk_text b) &&
  Qeq_bool (h_semantic_score a) (h_semantic_score b) &&
  Qeq_bool (h_keyword_score a) (h_keyword_score b) &&
  Qeq_bool (h_final_score a) (h_final_score b).

(** [ARRAY_LENGTH(a, 1)] is NULL for an empty array. *)
Definition array_length {A : Type} (a : list A) : option Z :=
  match a with
  | [] => None
  | _ :: _ => Some (Z.of_nat (length a))
  end.

(** [COUNT(DISTINCT keyword)] over the rows of a group. *)
Definition count_distinct (keywords : list text) : Z :=
  Z.of_nat (length (distinct text_eqb keywords)).

(** [n / len::FLOAT] *)
Definition div_float (n : Z) (len : option Z) : option Q :=
  option_map (fun l => (inject_Z n / inject_Z l)%Q) len.

(** [a FULL OUTER JOIN b ON on a b] *)
Definition full_outer_join {A B : Type} (on : A -> B -> bool)
  (l : list A) (r : list B) : list (option A * option B) :=
  flat_map (fun a =>
              match filter (on a) r with
              | [] => [(Some a, None)]
              | m :: ms => map (fun b => (Some a, Some b)) (m :: ms)
              end) l
  ++ map (fun b => (None, Some b))
         (filter (fun b => negb (existsb (fun a => on a b) l)) r).

Section Queries.

(** The pgvector operator [<=>]. *)
Variable cosine_distance : vector -> vector -> Q.

(** [ev.embedding <=> query_embedding] *)
Definition distance (query_embedding : vector) (ev : embedding_row) : option Q :=
  option_map (fun e => cosine_distance e query_embedding) (ev_embedding ev).

(** The FROM and JOIN clauses of [search_similar_embeddings]. *)
Definition similar_from (db : database) : list (embedding_row * case_row * chunk_row) :=
  flat_map (fun ev =>
    flat_map (fun c =>
      map (fun tc => (ev, c, tc))
          (filter (fun tc => N.eqb (ev_chunk_id ev) (tc_id tc)) (text_chunks db)))
      (filter (fun c => N.eqb (ev_case_id ev) (c_id c)) (cases db)))
    (embeddings_vector db).

Definition similar_select (query_embedding : vector)
  (r : embedding_row * case_row * chunk_row) : similar_row :=
  let '(ev, c, tc) := r in
  {| s_embedding_id := ev_id ev;
     s_case_id := ev_case_id ev;
     s_chunk_id := ev_chunk_id ev;
     s_similarity := one_minus (distance query_embedding ev);
     s_case_number := c_case_number c;
     s_chunk_text := tc_chunk_text tc |}.

(** [search_similar_embeddings] up to and including its [ORDER BY]: the
    joined rows that pass the WHERE clause, by ascending distance. *)
Definition similar_ranked (db : database) (query_embedding : vector)
  (similarity_threshold : Q) : list (embedding_row * case_row * chunk_row) :=
  order_by (fun a b => asc_nulls_last (distance query_embedding (fst (fst a)))
                                      (distance query_embedding (fst (fst b))))
    (filter (fun r => ge_threshold (one_minus (distance query_embedding (fst (fst r))))
                                   similarity_threshold)
            (similar_from db)).

Definition search_similar_embeddings (db : database) (query_embedding : vector)
  (limit_count : Z) (similarity_threshold : Q) : result (list similar_row) :=
  rows <- sql_limit limit_count
            (similar_ranked db query_embedding similarity_threshold) ;;
  Ok (map (similar_select query_embedding) rows).

(** The CTE [semantic_results] of [hybrid_search] up to and including its
    [ORDER BY]. *)
Definition semantic_ranked (db : database) (query_embedding : vector)
  : list embedding_row :=
  order_by (fun a b => asc_nulls_last (distance query_embedding a)
                                      (distance query_embedding b))
           (embeddings_vector db).

Definition semantic_select (query_embedding : vector) (ev : embedding_row)
  : semantic_result :=
  {| sr_case_id := ev_case_id ev;
     sr_chunk_id := ev_chunk_id ev;
     sr_semantic_score := one_minus (distance query_embedding ev) |}.

(** The CTE [semantic_results] of [hybrid_search]. *)
Definition semantic_results (db : database) (query_embedding : vector)
  (limit_count : Z) : result (list semantic_result) :=
  n <- int4mul limit_count 2 ;;
  rows <- sql_limit n (semantic_ranked db query_embedding) ;;
  Ok (map (semantic_select query_embedding) rows).

End Queries.

(** The FROM, JOIN and WHERE clauses of the CTE [keyword_results]. *)
Definition keyword_from (db : database) (keywords : list text)
  : list (document_row * chunk_row * text) :=
  filter (fun r => keyword_matches (tc_chunk_text (snd (fst r))) (snd r))
    (flat_map (fun d =>
       flat_map (fun tc => map (fun keyword => (d, tc, keyword)) keywords)
         (filter (fun tc => N.eqb (tc_document_id tc) (d_id d)) (text_chunks db)))
       (documents db)).

Definition group_key : Type := (uuid * uuid)%type.

Definition group_key_eqb (a b : group_key) : bool :=
  N.eqb (fst a) (fst b) && N.eqb (snd a) (snd b).

Definition keyword_key (r : document_row * chunk_row * text) : group_key :=
  (d_case_id (fst (fst r)), tc_id (snd (fst r))).

(** [GROUP BY d.case_id, tc.id]: the groups in the order of their first row,
    each with the keywords of its rows. *)
Definition keyword_groups (rows : list (document_row * chunk_row * text))
  : list (group_key * list text) :=
  map (fun k => (k, map snd (filter (fun r => group_key_eqb (keyword_key r) k) rows)))
      (distinct group_key_eqb (map keyword_key rows)).

(** The CTE [keyword_results] of [hybrid_search] up to and including its
    [ORDER BY]. *)
Definition keyword_ranked (db : database) (keywords : list text)
  : list keyword_result :=
  let groups := keyword_groups (keyword_from db keywords) in
  let having := filter (fun g => 0 <? count_distinct (snd g)) groups in
  let selected :=
    map (fun g =>
           {| kr_case_id := fst (fst g);
              kr_chunk_id := snd (fst g);
              kr_keyword_score :=
                div_float (count_distinct (snd g)) (array_length keywords) |})
        having in
  order_by (fun a b => desc_nulls_first (kr_keyword_score a) (kr_keyword_score b))
           selected.

(** The CTE [keyword_results] of [hybrid_search]. *)
Definition keyword_results (db : database) (keywords : list text)
  (limit_count : Z) : result (list keyword_result) :=
  n <- int4mul limit_count 2 ;;
  sql_limit n (keyword_ranked db keywords).

(** [COALESCE(sr.case_id, kr.case_id)] and [COALESCE(sr.chunk_id, kr.chunk_id)]
    on a row of the full outer join (one side is always present). *)
Definition joined_case_id (j : option semantic_result * option keyword_result) : option uuid :=
  match j with
  | (Some sr, _) => Some (sr_case_id sr)
  | (None, Some kr) => Some (kr_case_id kr)
  | (None, None) => None
  end.

Definition joined_chunk_id (j : option semantic_result * option keyword_result) : option uuid :=
  match j with
  | (Some sr, _) => Some (sr_chunk_id sr)
  | (None, Some kr) => Some (kr_chunk_id kr)
  | (None, None) => None
  end.

Definition joined_semantic_score (j : option semantic_result * option keyword_result) : Q :=
  coalesce (match fst j with Some sr => sr_semantic_score sr | None => None end) 0%Q.

Definition joined_keyword_score (j : option semantic_result * option keyword_result) : Q :=
  coalesce (match snd j with Some kr => kr_keyword_score kr | None => None end) 0%Q.

Definition same_candidate (sr : semantic_result) (kr : keyword_result) : bool :=
  N.eqb (sr_case_id sr) (kr_case_id kr) && N.eqb (sr_chunk_id sr) (kr_chunk_id kr).

Definition id_is (x : option uuid) (y : uuid) : bool :=
  match x with
  | Some a => N.eqb a y
  | None => false
  end.

Definition hybrid_select (semantic_weight : Q)
  (r : option semantic_result * option keyword_result * case_row * chunk_row)
  : hybrid_row :=
  let '(j, c, tc) := r in
  {| h_case_id := coalesce (joined_case_id j) 0%N;
     h_case_number := c_case_number c;
     h_chunk_id := coalesce (joined_chunk_id j) 0%N;
     h_chunk_text := tc_chunk_text tc;
     h_semantic_score := joined_semantic_score j;
     h_keyword_score := joined_keyword_score j;
     h_final_score :=
       (joined_semantic_score j * semantic_weight
        + joined_keyword_score j * (1 - semantic_weight))%Q |}.

(** The main query of [hybrid_search] up to and including [SELECT DISTINCT]. *)
Definition hybrid_candidates (db : database) (semantic_weight : Q)
  (sr : list semantic_result) (kr : list keyword_result) : list hybrid_row :=
  let joined := full_outer_join same_candidate sr kr in
  let with_case :=
    flat_map (fun j => map (fun c => (j, c))
                (filter (fun c => id_is (joined_case_id j) (c_id c)) (cases db)))
             joined in
  let with_chunk :=
    flat_map (fun jc => map (fun tc => (jc, tc))
                (filter (fun tc => id_is (joined_chunk_id (fst jc)) (tc_id tc))
                        (text_chunks db)))
             with_case in
  distinct hybrid_row_eqb (map (hybrid_select semantic_weight) with_chunk).

Definition hybrid_search (cosine_distance : vector -> vector -> Q)
  (db : database) (query_embedding : vector) (keywords : list text)
  (limit_count : Z) (semantic_weight : Q) : result (list hybrid_row) :=
  sr <- semantic_results cosine_distance db query_embedding limit_count ;;
  kr <- keyword_results db keywords limit_count ;;
  let ordered :=
    order_by (fun a b => desc (h_final_score a) (h_final_score b))
             (hybrid_candidates db semantic_weight sr kr) in
  sql_limit limit_count ordered.

(** ** Writing [embeddings_vector] *)

(** The column types [vector(384)] and [VARCHAR(100)]. *)
Definition embedding_dimension : nat := 384.

Definition check_vector (embedding : option vector) : result unit :=
  match embedding with
  | Some v =>
      if Nat.eqb (length v) embedding_dimension then Ok tt
      else Err (DimensionMismatch embedding_dimension (length v))
  | None => Ok tt
  end.

Definition check_varchar (n : nat) (s : option text) : result unit :=
  match s with
  | Some m =>
      if Nat.leb (length m) n then Ok tt else Err string_data_right_truncation
  | None => Ok tt
  end.

Definition check_columns (embedding : option vector) (model_name : option text)
  : result unit :=
  _ <- check_vector embedding ;;
  check_varchar 100 model_name.

Definition set_embeddings (db : database) (rows : list embedding_row) : database :=
  {| cases := cases db;
     documents := documents db;
     text_chunks := text_chunks db;
     embeddings_vector := rows |}.

(** [INSERT INTO embeddings_vector]: the column types, the primary key, the
    constraint [embeddings_vector_chunk_unique] and the two foreign keys. *)
Definition insert_embedding (db : database) (row : embedding_row) : result database :=
  _ <- check_columns (ev_embedding row) (ev_model_name row) ;;
  if existsb (fun ev => N.eqb (ev_id ev) (ev_id row)) (embeddings_vector db)
  then Err unique_violation
  else if existsb (fun ev => N.eqb (ev_chunk_id ev) (ev_chunk_id row))
                  (embeddings_vector db)
  then Err unique_violation
  else if negb (existsb (fun c => N.eqb (c_id c) (ev_case_id row)) (cases db))
  then Err foreign_key_violation
  else if negb (existsb (fun tc => N.eqb (tc_id tc) (ev_chunk_id row)) (text_chunks db))
  then Err foreign_key_violation
  else Ok (set_embeddings db (embeddings_vector db ++ [row])).

(** The values a new row takes from outside the call: [gen_random_uuid()],
    [CURRENT_TIMESTAMP] and the case the chunk belongs to. *)
Record insert_defaults : Type := {
  gen_random_uuid : uuid;
  current_timestamp : timestamp;
  owning_case : uuid
}.

(** The row that a replacement leaves: the vector and the model name are
    rewritten, the rest of the row stays. *)
Definition replaced (v : vector) (modelName : text) (ev : embedding_row) : embedding_row :=
  {| ev_id := ev_id ev;
     ev_case_id := ev_case_id ev;
     ev_chunk_id := ev_chunk_id ev;
     ev_embedding := Some v;
     ev_model_name := Some modelName;
     ev_created_at := ev_created_at ev |}.

(** The replacement applied to one row of the table: only the row of the
    chunk changes. *)
Definition replace_for (chunkId : uuid) (v : vector) (modelName : text)
  (ev : embedding_row) : embedding_row :=
  if N.eqb (ev_chunk_id ev) chunkId then replaced v modelName ev else ev.

(** Modelled from the spec: the Vector Store operation
    [Upsert(chunkId, vector, modelName)], whose statement against
    [embeddings_vector] is not part of the script. It "inserts or replaces
    the embedding for a chunk", keyed by the chunk; a vector whose length is
    not the store's dimensionality fails with [DimensionMismatch]. A
    replacement rewrites the vector and the model name of the chunk's row
    in place; an insertion goes through [insert_embedding]. *)
Definition Upsert (env : insert_defaults) (db : database)
  (chunkId : uuid) (v : vector) (modelName : text) : result database :=
  _ <- check_columns (Some v) (Some modelName) ;;
  if existsb (fun ev => N.eqb (ev_chunk_id ev) chunkId) (embeddings_vector db)
  then
    Ok (set_embeddings db
          (map (replace_for chunkId v modelName) (embeddings_vector db)))
  else
    insert_embedding db
      {| ev_id := gen_random_uuid env;
         ev_case_id := owning_case env;
         ev_chunk_id := chunkId;
         ev_embedding := Some v;
         ev_model_name := Some modelName;
         ev_created_at := Some (current_timestamp env) |}.

(** ** Deleting chunks *)

(** The trigger function [cleanup_orphan_embeddings]: deletes the embeddings
    of the row [OLD] and returns [OLD], so that the deletion goes on. *)
Definition cleanup_orphan_embeddings (OLD : chunk_row) (db : database)
  : database * chunk_row :=
  (set_embeddings db
     (filter (fun ev => negb (N.eqb (ev_chunk_id ev) (tc_id OLD)))
             (embeddings_vector db)),
   OLD).

(** The deletion of one row of [text_chunks]: the trigger
    [cleanup_embeddings_on_chunk_delete] runs BEFORE DELETE, the row goes,
    and [ON DELETE CASCADE] on [embeddings_vector.chunk_id] removes what
    still references it. *)
Definition delete_chunk_row (db : database) (row : chunk_row) : database :=
  let '(db1, OLD) := cleanup_orphan_embeddings row db in
  {| cases := cases db1;
     documents := documents db1;
     text_chunks :=
       filter (fun tc => negb (N.eqb (tc_id tc) (tc_id OLD))) (text_chunks db1);
     embeddings_vector :=
       filter (fun ev => negb (N.eqb (ev_chunk_id ev) (tc_id OLD)))
              (embeddings_vector db1) |}.

(** [DELETE FROM text_chunks WHERE cond], row by row. *)
Definition delete_chunks_where (cond : chunk_row -> bool) (db : database) : database :=
  fold_left delete_chunk_row (filter cond (text_chunks db)) db.

(** [DELETE FROM text_chunks WHERE id = chunk] *)
Definition delete_chunk (db : database) (chunk : uuid) : database :=
  delete_chunks_where (fun tc => N.eqb (tc_id tc) chunk) db.

(** Modelled from the spec: the table [documents] and its link to
    [text_chunks] are declared outside the script. "Document owns its
    Chunks; deleting the Document deletes its Chunks": the chunks of the
    document are deleted row by row, then the document. *)
Definition delete_document (db : database) (document : uuid) : database :=
  let db1 := delete_chunks_where (fun tc => N.eqb (tc_document_id tc) document) db in
  {| cases := cases db1;
     documents := filter (fun d => negb (N.eqb (d_id d) document)) (documents db1);
     text_chunks := text_chunks db1;
     embeddings_vector := embeddings_vector db1 |}.

(** ** Vocabulary of the statements *)

(** Positions in a result list: [a] is returned before [b]. *)
Definition before {A : Type} (a b : A) (rows : list A) : Prop :=
  exists l1 l2 l3, rows = l1 ++ a :: l2 ++ b :: l3.

(** [similarity(a) >= similarity(b)], both known. *)
Definition similarity_ge (a b : similar_row) : Prop :=
  match s_similarity a, s_similarity b with
  | Some x, Some y => (y <= x)%Q
  | _, _ => False
  end.

(** [similarity(a) > similarity(b)], both known. *)
Definition similarity_gt (a b : similar_row) : Prop :=
  match s_similarity a, s_similarity b with
  | Some x, Some y => (y < x)%Q
  | _, _ => False
  end.

(** The ordering law read literally: of two different returned candidates,
    [a] comes before [b] exactly when [similarity(a) >= similarity(b)]. *)
Definition ordered_iff_similarity (rows : list similar_row) : Prop :=
  forall a b, In a rows -> In b rows -> a <> b ->
    (before a b rows <-> similarity_ge a b).

(** Candidates of equal similarity come in the order [lt] of their chunks. *)
Definition ties_by_chunk_identity (lt : uuid -> uuid -> Prop)
  (rows : list similar_row) : Prop :=
  forall a b, before a b rows -> similarity_ge b a ->
    lt (s_chunk_id a) (s_chunk_id b).

Fixpoint all_distinct (ids : list uuid) : bool :=
  match ids with
  | [] => true
  | x :: rest => negb (existsb (N.eqb x) rest) && all_distinct rest
  end.

(** The row of [cases] (of [text_chunks]) with a given id, when the id is a
    key with a row. *)
Definition the_case (db : database) (id : uuid) : case_row :=
  hd {| c_id := id; c_case_number := [] |}
     (filter (fun c => N.eqb id (c_id c)) (cases db)).

Definition the_chunk (db : database) (id : uuid) : chunk_row :=
  hd {| tc_id := id; tc_document_id := id; tc_chunk_text := [] |}
     (filter (fun tc => N.eqb id (tc_id tc)) (text_chunks db)).

(** The constraints a state of the four tables satisfies: primary keys,
    [embeddings_vector_chunk_unique], the column types and the foreign keys
    of [embeddings_vector]; and, for the tables declared elsewhere, that a
    document has a case and a chunk has a document. *)
Definition db_constraints (db : database) : bool :=
  all_distinct (map c_id (cases db)) &&
  all_distinct (map d_id (documents db)) &&
  all_distinct (map tc_id (text_chunks db)) &&
  all_distinct (map ev_id (embeddings_vector db)) &&
  all_distinct (map ev_chunk_id (embeddings_vector db)) &&
  forallb (fun d => existsb (fun c => N.eqb (c_id c) (d_case_id d)) (cases db))
          (documents db) &&
  forallb (fun tc => existsb (fun d => N.eqb (d_id d) (tc_document_id tc))
                             (documents db))
          (text_chunks db) &&
  forallb (fun ev =>
             existsb (fun c => N.eqb (c_id c) (ev_case_id ev)) (cases db) &&
             existsb (fun tc => N.eqb (tc_id tc) (ev_chunk_id ev)) (text_chunks db) &&
             match check_columns (ev_embedding ev) (ev_model_name ev) with
             | Ok _ => true
             | Err _ => false
             end)
          (embeddings_vector db).

(** [embeddings_vector_chunk_unique] as a property of a state. *)
Definition chunk_unique (db : database) : Prop :=
  NoDup (map ev_chunk_id (embeddings_vector db)).

(** The embeddings stored for a chunk. *)
Definition embeddings_of (db : database) (chunk : uuid) : list embedding_row :=
  filter (fun ev => N.eqb (ev_chunk_id ev) chunk) (embeddings_vector db).

(** Every stored vector has the dimension of the column. *)
Definition dimensions_ok (db : database) : Prop :=
  forall ev v, In ev (embeddings_vector db) -> ev_embedding ev = Some v ->
    length v = embedding_dimension.

(** Every stored vector has the dimension that [declared] gives for the
    model name of its row. *)
Definition dimension_declared_by_model (declared : text -> nat) (db : database)
  : Prop :=
  forall ev v m, In ev (embeddings_vector db) ->
    ev_embedding ev = Some v -> ev_model_name ev = Some m ->
    length v = declared m.

(** The states of the tables that the statements above can produce from an
    empty [embeddings_vector]; rows of the other tables come and go freely
    as long as [embeddings_vector] is only written by these statements. *)
Inductive reachable : database -> Prop :=
| reach_empty (db : database) :
    embeddings_vector db = [] -> reachable db
| reach_insert (db db' : database) (row : embedding_row) :
    reachable db -> insert_embedding db row = Ok db' -> reachable db'
| reach_upsert (env : insert_defaults) (db db' : database)
    (chunkId : uuid) (v : vector) (modelName : text) :
    reachable db -> Upsert env db chunkId v modelName = Ok db' -> reachable db'
| reach_delete (db : database) (row : chunk_row) :
    reachable db -> reachable (delete_chunk_row db row)
| reach_other (db db' : database) :
    reachable db -> embeddings_vector db' = embeddings_vector db -> reachable db'.

(** The two candidate pools of [hybrid_search] for a limit whose double is
    an INT: the first [limit_count * 2] rows of each ranking. *)
Definition semantic_pool (cosine_distance : vector -> vector -> Q)
  (db : database) (query_embedding : vector) (limit_count : Z)
  : list semantic_result :=
  map (semantic_select cosine_distance query_embedding)
      (firstn (Z.to_nat (limit_count * 2))
              (semantic_ranked cosine_distance db query_embedding)).

Definition keyword_pool (db : database) (keywords : list text) (limit_count : Z)
  : list keyword_result :=
  firstn (Z.to_nat (limit_count * 2)) (keyword_ranked db keywords).

(** The candidates of [hybrid_search] in ORDER BY order, before its LIMIT. *)
Definition hybrid_ranked (cosine_distance : vector -> vector -> Q)
  (db : database) (query_embedding : vector) (keywords : list text)
  (limit_count : Z) (semantic_weight : Q) : list hybrid_row :=
  order_by (fun a b => desc (h_final_score a) (h_final_score b))
    (hybrid_candidates db semantic_weight
       (semantic_pool cosine_distance db query_embedding limit_count)
       (keyword_pool db keywords limit_count)).

(** [final_score(a) >= final_score(b)] *)
Definition final_ge (a b : hybrid_row) : Prop :=
  (h_final_score b <= h_final_score a)%Q.

(** The semantic score of a row of [hybrid_search] is the score its
    candidate has in the semantic pool (0 when that score is NULL), and 0 for
    a candidate that is not in the pool; likewise for the keyword score. *)
Definition semantic_score_from (pool : list semantic_result) (h : hybrid_row) : Prop :=
  (exists s, In s pool /\
     sr_case_id s = h_case_id h /\ sr_chunk_id s = h_chunk_id h /\
     h_semantic_score h = coalesce (sr_semantic_score s) 0%Q) \/
  ((forall s, In s pool ->
      ~ (sr_case_id s = h_case_id h /\ sr_chunk_id s = h_chunk_id h)) /\
   h_semantic_score h = 0%Q).

Definition keyword_score_from (pool : list keyword_result) (h : hybrid_row) : Prop :=
  (exists k, In k pool /\
     kr_case_id k = h_case_id h /\ kr_chunk_id k = h_chunk_id h /\
     h_keyword_score h = coalesce (kr_keyword_score k) 0%Q) \/
  ((forall k, In k pool ->
      ~ (kr_case_id k = h_case_id h /\ kr_chunk_id k = h_chunk_id h)) /\
   h_keyword_score h = 0%Q).

(** The pair (case, chunk) is a candidate: it is in one of the pools. *)
Definition candidate (spool : list semantic_result) (kpool : list keyword_result)
  (case chunk : uuid) : Prop :=
  (exists s, In s spool /\ sr_case_id s = case /\ sr_chunk_id s = chunk) \/
  (exists k, In k kpool /\ kr_case_id k = case /\ kr_chunk_id k = chunk).

(** Substring containment, the reading of the LIKE test as a substring
    test: [contains k t] when [k] occurs in [t]. *)
Fixpoint is_prefix (k t : text) : bool :=
  match k with
  | [] => true
  | c :: k' =>
      match t with
      | [] => false
      | d :: t' => ascii_eqb c d && is_prefix k' t'
      end
  end.

Fixpoint at_some_suffix (f : text -> bool) (t : text) : bool :=
  f t ||
  match t with
  | [] => false
  | _ :: t' => at_some_suffix f t'
  end.

Definition contains (k t : text) : bool := at_some_suffix (is_prefix k) t.

(** [chunk_text] contains [keyword], case-insensitively. *)
Definition contains_keyword (chunk_text keyword : text) : bool :=
  contains (lower keyword) (lower chunk_text).

(** Every chunk of a document is in the keyword pool of [hybrid_search]. *)
Definition every_chunk_in_keyword_pool (db : database) (keywords : list text)
  (limit_count : Z) : Prop :=
  forall d tc, In d (documents db) -> In tc (text_chunks db) ->
    tc_document_id tc = d_id d ->
    exists pool kr,
      keyword_results db keywords limit_count = Ok pool /\
      In kr pool /\ kr_chunk_id kr = tc_id tc.

(** [keyword_score(a) >= keyword_score(b)], both known. *)
Definition keyword_score_ge (a b : keyword_result) : Prop :=
  match kr_keyword_score a, kr_keyword_score b with
  | Some x, Some y => (y <= x)%Q
  | _, _ => False
  end.

(** The tables without a chunk and without the embeddings of that chunk. *)
Definition without_chunk (db : database) (chunk : uuid) : database :=
  {| cases := cases db;
     documents := documents db;
     text_chunks := filter (fun tc => negb (N.eqb (tc_id tc) chunk)) (text_chunks db);
     embeddings_vector :=
       filter (fun ev => negb (N.eqb (ev_chunk_id ev) chunk)) (embeddings_vector db) |}.

(** The case recorded in a row of [embeddings_vector] is the case of the
    document that the row's chunk belongs to. No constraint of the script
    states this. *)
Definition embedding_case_agrees (db : database) : Prop :=
  forall ev d tc,
    In ev (embeddings_vector db) -> In d (documents db) -> In tc (text_chunks db) ->
    tc_id tc = ev_chunk_id ev -> tc_document_id tc = d_id d ->
    ev_case_id ev = d_case_id d.

(** The pair of ids that identifies a candidate of [hybrid_search]. *)
Definition candidate_key (h : hybrid_row) : uuid * uuid :=
  (h_case_id h, h_chunk_id h).

(** The rows of [hybrid_search] and the rows of [search_similar_embeddings]
    rank alike the chunks that both of them score: a chunk to which
    [hybrid_search] gives a semantic_score other than 0 has that score as
    its similarity, and two such chunks of different score come in the
    same order in both results. *)
Definition same_semantic_ranking (rows : list hybrid_row) (similar : list similar_row)
  : Prop :=
  (forall a s, In a rows -> In s similar -> s_chunk_id s = h_chunk_id a ->
     ~ (h_semantic_score a == 0)%Q ->
     exists x, s_similarity s = Some x /\ (x == h_semantic_score a)%Q) /\
  (forall a b sa sb,
     In a rows -> In b rows -> In sa similar -> In sb similar ->
     s_chunk_id sa = h_chunk_id a -> s_chunk_id sb = h_chunk_id b ->
     ~ (h_semantic_score a == 0)%Q -> ~ (h_semantic_score b == 0)%Q ->
     ~ (h_semantic_score a == h_semantic_score b)%Q ->
     (before a b rows <-> before sa sb similar)).

(** Likewise for the rows of [hybrid_search] and the rows of the keyword
    search. *)
Definition same_keyword_ranking (rows : list hybrid_row) (lexical : list keyword_result)
  : Prop :=
  (forall a k, In a rows -> In k lexical -> kr_chunk_id k = h_chunk_id a ->
     ~ (h_keyword_score a == 0)%Q ->
     exists x, kr_keyword_score k = Some x /\ (x == h_keyword_score a)%Q) /\
  (forall a b ka kb,
     In a rows -> In b rows -> In ka lexical -> In kb lexical ->
     kr_chunk_id ka = h_chunk_id a -> kr_chunk_id kb = h_chunk_id b ->
     ~ (h_keyword_score a == 0)%Q -> ~ (h_keyword_score b == 0)%Q ->
     ~ (h_keyword_score a == h_keyword_score b)%Q ->
     (before a b rows <-> before ka kb lexical)).

(** ** Sample data for the examples *)

Definition txt (s : string) : text := list_ascii_of_string s.

(** The distance used in the examples, [1 - u.v]: the cosine distance of
    vectors of length one. *)
Definition dot_distance (u v : vector) : Q :=
  (1 - fold_right Qplus 0 (map (fun p => fst p * snd p) (combine u v)))%Q.

(** A vector of the column's dimension from its leading coordinates. *)
Definition padded (v : vector) : vector :=
  v ++ repeat 0%Q (embedding_dimension - length v).

Definition new_embedding (id case chunk : uuid) (e : vector) : embedding_row :=
  {| ev_id := id; ev_case_id := case; ev_chunk_id := chunk;
     ev_embedding := Some e;
     ev_model_name := Some (txt "all-MiniLM-L6-v2");
     ev_created_at := Some 0 |}.

(** One case, one document, three chunks with the same wording, embedded to
    the same vector; the embeddings were stored in the order 2, 1, 3. *)
Definition tie_db : database :=
  {| cases := [ {| c_id := 1%N; c_case_number := txt "1000001-11.2023.8.26.0100" |} ];
     documents := [ {| d_id := 10%N; d_case_id := 1%N |} ];
     text_chunks :=
       [ {| tc_id := 1%N; tc_document_id := 10%N; tc_chunk_text := txt "acao de despejo" |};
         {| tc_id := 2%N; tc_document_id := 10%N; tc_chunk_text := txt "acao de despejo" |};
         {| tc_id := 3%N; tc_document_id := 10%N; tc_chunk_text := txt "acao de despejo" |} ];
     embeddings_vector :=
       [ new_embedding 102%N 1%N 2%N (padded [1%Q]);
         new_embedding 101%N 1%N 1%N (padded [1%Q]);
         new_embedding 103%N 1%N 3%N (padded [1%Q]) ] |}.

Definition tie_chunk_2 : chunk_row :=
  {| tc_id := 2%N; tc_document_id := 10%N; tc_chunk_text := txt "acao de despejo" |}.

(** A model table for the examples: all-mpnet-base-v2 produces vectors of
    768 coordinates, the MiniLM models of 384. *)
Definition sample_declared (m : text) : nat :=
  if text_eqb m (txt "all-mpnet-base-v2") then 768%nat else 384%nat.

Definition sample_env : insert_defaults :=
  {| gen_random_uuid := 104%N; current_timestamp := 1700000000; owning_case := 1%N |}.

(** [tie_db] before chunk 3 was embedded. *)
Definition two_embeddings_db : database :=
  set_embeddings tie_db
    [ new_embedding 102%N 1%N 2%N (padded [1%Q]);
      new_embedding 101%N 1%N 1%N (padded [1%Q]) ].

(** One case, one document, one chunk. *)
Definition fine_db : database :=
  {| cases := [ {| c_id := 1%N; c_case_number := txt "1000001-11.2023.8.26.0100" |} ];
     documents := [ {| d_id := 10%N; d_case_id := 1%N |} ];
     text_chunks :=
       [ {| tc_id := 1%N; tc_document_id := 10%N;
            tc_chunk_text := txt "Multa de 500 reais" |} ];
     embeddings_vector := [] |}.

(** One case with one document of three chunks; chunks 1 and 2 are
    embedded, chunk 3 is not (yet). *)
Definition sample_db : database :=
  {| cases := [ {| c_id := 1%N; c_case_number := txt "1000001-11.2023.8.26.0100" |} ];
     documents := [ {| d_id := 10%N; d_case_id := 1%N |} ];
     text_chunks :=
       [ {| tc_id := 1%N; tc_document_id := 10%N;
            tc_chunk_text := txt "contrato de locacao comercial inadimplido" |};
         {| tc_id := 2%N; tc_document_id := 10%N;
            tc_chunk_text := txt "acao de despejo por falta de pagamento" |};
         {| tc_id := 3%N; tc_document_id := 10%N;
            tc_chunk_text := txt "contrato de compra e venda de imovel" |} ];
     embeddings_vector :=
       [ new_embedding 101%N 1%N 1%N (padded [3 # 5; 4 # 5]%Q);
         new_embedding 102%N 1%N 2%N (padded [4 # 5; 3 # 5]%Q) ] |}.

Definition sample_query : vector := padded [1%Q].

(** Two cases; the only chunk belongs to a document of case 1, and its
    embedding is recorded under case 2. *)
Definition split_db : database :=
  {| cases := [ {| c_id := 1%N; c_case_number := txt "1000001-11.2023.8.26.0100" |};
                {| c_id := 2%N; c_case_number := txt "1000002-22.2023.8.26.0100" |} ];
     documents := [ {| d_id := 10%N; d_case_id := 1%N |} ];
     text_chunks :=
       [ {| tc_id := 1%N; tc_document_id := 10%N;
            tc_chunk_text := txt "Multa de 500 reais" |} ];
     embeddings_vector := [ new_embedding 101%N 2%N 1%N (padded [1%Q]) ] |}.

(** * Properties *)

(** ** ORDER BY and LIMIT *)

Section OrderByFacts.

Variable A : Type.
Variable leb : A -> A -> bool.

Let R (a b : A) : Prop := leb a b = true.

Lemma insert_row_perm (x : A) (rows : list A) :
  Permutation (insert_row leb x rows) (x :: rows).
Proof.
  induction rows as [|y rest IH]; simpl.
  - apply Permutation_refl.
  - destruct (leb x y).
    + apply Permutation_refl.
    + eapply perm_trans; [apply perm_skip, IH | apply perm_swap].
Qed.

Lemma order_by_perm (rows : list A) : Permutation (order_by leb rows) rows.
Proof.
  induction rows as [|x rest IH]; simpl.
  - apply perm_nil.
  - eapply perm_trans; [apply insert_row_perm | apply perm_skip, IH].
Qed.

Lemma order_by_In (x : A) (rows : list A) :
  In x (order_by leb rows) <-> In x rows.
Proof.
  split; apply Permutation_in.
  - apply order_by_perm.
  - apply Permutation_sym, order_by_perm.
Qed.

Lemma order_by_length (rows : list A) : length (order_by leb rows) = length rows.
Proof. apply Permutation_length, order_by_perm. Qed.

Lemma order_by_sorted_id (rows : list A) :
  StronglySorted R rows -> order_by leb rows = rows.
Proof.
  induction 1 as [|x rest Hs IH Hx]; simpl.
  - reflexivity.
  - rewrite IH. destruct rest as [|y rest']; simpl.
    + reflexivity.
    + inversion Hx as [|? ? Hxy _]; subst.
      unfold R in Hxy. rewrite Hxy. reflexivity.
Qed.

Hypothesis leb_total : forall a b, leb a b = true \/ leb b a = true.
Hypothesis leb_trans : forall a b c, leb a b = true -> leb b c = true -> leb a c = true.

Lemma insert_row_sorted (x : A) (rows : list A) :
  StronglySorted R rows -> StronglySorted R (insert_row leb x rows).
Proof.
  induction 1 as [|y rest Hs IH Hy]; simpl.
  - constructor; constructor.
  - destruct (leb x y) eqn:Hxy.
    + constructor.
      * constructor; assumption.
      * constructor; [exact Hxy|].
        eapply Forall_impl; [|exact Hy].
        intros z Hz. eapply leb_trans; eassumption.
    + constructor; [exact IH|].
      assert (Hyx : R y x).
      { destruct (leb_total x y) as [H|H]; [congruence|exact H]. }
      eapply Permutation_Forall.
      * apply Permutation_sym, insert_row_perm.
      * constructor; assumption.
Qed.

Lemma order_by_sorted (rows : list A) : StronglySorted R (order_by leb rows).
Proof.
  induction rows as [|x rest IH]; simpl.
  - constructor.
  - apply insert_row_sorted, IH.
Qed.

End OrderByFacts.

Arguments order_by_perm {A} leb rows.
Arguments order_by_In {A} leb x rows.
Arguments order_by_length {A} leb rows.
Arguments order_by_sorted_id {A} leb rows.
Arguments order_by_sorted {A} leb _ _ rows.

Section SortedFacts.

Variable A : Type.
Variable R : A -> A -> Prop.

Lemma StronglySorted_app_inv (l1 l2 : list A) :
  StronglySorted R (l1 ++ l2) ->
  StronglySorted R l1 /\ StronglySorted R l2 /\
  (forall a b, In a l1 -> In b l2 -> R a b).
Proof.
  induction l1 as [|x l1 IH]; simpl; intros H.
  - repeat split; [constructor | exact H | intros a b []].
  - inversion H as [|? ? Hs Hx]; subst.
    destruct (IH Hs) as (H1 & H2 & H3).
    rewrite Forall_app in Hx. destruct Hx as [Hx1 Hx2].
    repeat split.
    + constructor; assumption.
    + exact H2.
    + intros a b [<-|Ha] Hb.
      * rewrite Forall_forall in Hx2. apply Hx2, Hb.
      * apply H3; assumption.
Qed.

Lemma StronglySorted_firstn (n : nat) (l : list A) :
  StronglySorted R l -> StronglySorted R (firstn n l).
Proof.
  intros H. rewrite <- (firstn_skipn n l) in H.
  apply StronglySorted_app_inv in H. tauto.
Qed.

Lemma firstn_above_skipn (n : nat) (l : list A) :
  StronglySorted R l ->
  forall a b, In a (firstn n l) -> In b (skipn n l) -> R a b.
Proof.
  intros H. rewrite <- (firstn_skipn n l) in H.
  apply StronglySorted_app_inv in H. tauto.
Qed.

Lemma In_firstn (n : nat) (l : list A) (x : A) : In x (firstn n l) -> In x l.
Proof.
  intros H. rewrite <- (firstn_skipn n l). apply in_or_app. left. exact H.
Qed.

End SortedFacts.

Arguments StronglySorted_app_inv {A} R l1 l2.
Arguments StronglySorted_firstn {A} R n l.
Arguments firstn_above_skipn {A} R n l.
Arguments In_firstn {A} n l x.

Lemma before_sorted {A : Type} (R : A -> A -> Prop) (a b : A) (rows : list A) :
  StronglySorted R rows -> before a b rows -> R a b.
Proof.
  intros Hs (l1 & l2 & l3 & ->).
  apply StronglySorted_app_inv in Hs. destruct Hs as (_ & Hs & _).
  inversion Hs as [|? ? _ Hall]; subst.
  rewrite Forall_forall in Hall. apply Hall.
  apply in_or_app. right. left. reflexivity.
Qed.

Lemma In_split_two {A : Type} (a b : A) (rows : list A) :
  In a rows -> In b rows -> a = b \/ before a b rows \/ before b a rows.
Proof.
  intros Ha Hb.
  apply in_split in Ha. destruct Ha as (l1 & l2 & ->).
  apply in_app_or in Hb. destruct Hb as [Hb|[Hb|Hb]].
  - right. right. apply in_split in Hb. destruct Hb as (m1 & m2 & ->).
    exists m1, m2, l2. rewrite <- app_assoc. reflexivity.
  - left. exact Hb.
  - right. left. apply in_split in Hb. destruct Hb as (m1 & m2 & ->).
    exists l1, m1, m2. reflexivity.
Qed.

(** The comparators of the script are total preorders. *)
Lemma asc_nulls_last_total (a b : option Q) :
  asc_nulls_last a b = true \/ asc_nulls_last b a = true.
Proof.
  destruct a as [x|], b as [y|]; simpl; auto.
  rewrite !Qle_bool_iff.
  destruct (Qlt_le_dec x y) as [H|H]; [left; apply Qlt_le_weak, H | right; exact H].
Qed.

Lemma asc_nulls_last_trans (a b c : option Q) :
  asc_nulls_last a b = true -> asc_nulls_last b c = true ->
  asc_nulls_last a c = true.
Proof.
  destruct a as [x|], b as [y|], c as [z|]; simpl; auto; try discriminate.
  rewrite !Qle_bool_iff. apply Qle_trans.
Qed.

Lemma desc_total (a b : Q) : desc a b = true \/ desc b a = true.
Proof.
  unfold desc. rewrite !Qle_bool_iff.
  destruct (Qlt_le_dec a b) as [H|H]; [right; apply Qlt_le_weak, H | left; exact H].
Qed.

Lemma desc_trans (a b c : Q) :
  desc a b = true -> desc b c = true -> desc a c = true.
Proof.
  unfold desc. rewrite !Qle_bool_iff. intros H1 H2. eapply Qle_trans; eassumption.
Qed.

Lemma sql_limit_ok {A : Type} (n : Z) (rows : list A) :
  0 <= n -> sql_limit n rows = Ok (firstn (Z.to_nat n) rows).
Proof.
  intros H. unfold sql_limit.
  destruct (n <? 0) eqn:E; [apply Z.ltb_lt in E; lia | reflexivity].
Qed.

Lemma int4mul_2_ok (n : Z) :
  0 <= n <= 1073741823 -> int4mul n 2 = Ok (n * 2).
Proof.
  intros H. unfold int4mul, INT_MIN, INT_MAX.
  destruct (Z.leb_spec (-2147483648) (n * 2)); [|lia].
  destruct (Z.leb_spec (n * 2) 2147483647); [|lia].
  reflexivity.
Qed.

Lemma firstn_length_Z {A : Type} (n : Z) (rows : list A) :
  0 <= n -> Z.of_nat (length (firstn (Z.to_nat n) rows)) <= n.
Proof.
  intros H. rewrite length_firstn. lia.
Qed.

Lemma StronglySorted_map {A B : Type} (R : B -> B -> Prop) (f : A -> B) (l : list A) :
  StronglySorted (fun a b => R (f a) (f b)) l -> StronglySorted R (map f l).
Proof.
  induction 1 as [|x rest Hs IH Hx]; simpl; constructor.
  - exact IH.
  - rewrite Forall_map. exact Hx.
Qed.

Lemma StronglySorted_impl_In {A : Type} (R R' : A -> A -> Prop) (l : list A) :
  (forall a b, In a l -> In b l -> R a b -> R' a b) ->
  StronglySorted R l -> StronglySorted R' l.
Proof.
  intros Himp Hs. induction Hs as [|x rest Hs IH Hx]; constructor.
  - apply IH. intros a b Ha Hb. apply Himp; right; assumption.
  - rewrite Forall_forall in *. intros y Hy.
    apply Himp; [left; reflexivity | right; exact Hy | apply Hx, Hy].
Qed.

(** ** search_similar_embeddings *)

Lemma similar_from_In (db : database) (r : embedding_row * case_row * chunk_row) :
  In r (similar_from db) <->
  In (fst (fst r)) (embeddings_vector db) /\
  In (snd (fst r)) (cases db) /\ In (snd r) (text_chunks db) /\
  ev_case_id (fst (fst r)) = c_id (snd (fst r)) /\
  ev_chunk_id (fst (fst r)) = tc_id (snd r).
Proof.
  destruct r as [[ev c] tc]. unfold similar_from. simpl.
  rewrite in_flat_map. split.
  - intros (ev' & Hev & H). rewrite in_flat_map in H.
    destruct H as (c' & Hc & H). rewrite in_map_iff in H.
    destruct H as (tc' & Heq & Htc). inversion Heq; subst.
    rewrite filter_In in Hc, Htc.
    destruct Hc as [Hc Hc']. destruct Htc as [Htc Htc'].
    apply N.eqb_eq in Hc'. apply N.eqb_eq in Htc'. tauto.
  - intros (Hev & Hc & Htc & E1 & E2). exists ev. split; [exact Hev|].
    rewrite in_flat_map. exists c. split.
    + rewrite filter_In. split; [exact Hc | apply N.eqb_eq, E1].
    + rewrite in_map_iff. exists tc. split; [reflexivity|].
      rewrite filter_In. split; [exact Htc | apply N.eqb_eq, E2].
Qed.

Section SearchSimilar.

Variable cosine_distance : vector -> vector -> Q.
Variable db : database.
Variable query_embedding : vector.
Variable similarity_threshold : Q.

Let dist := distance cosine_distance query_embedding.
Local Abbreviation ranked :=
  (similar_ranked cosine_distance db query_embedding similarity_threshold).

Lemma search_similar_unfold (limit_count : Z) :
  0 <= limit_count ->
  search_similar_embeddings cosine_distance db query_embedding limit_count
    similarity_threshold
  = Ok (map (similar_select cosine_distance query_embedding)
            (firstn (Z.to_nat limit_count) ranked)).
Proof.
  intros H. unfold search_similar_embeddings.
  unfold similar_ranked. rewrite (sql_limit_ok _ _ H). reflexivity.
Qed.

Lemma similar_ranked_In (r : embedding_row * case_row * chunk_row) :
  In r ranked ->
  In r (similar_from db) /\
  exists e, ev_embedding (fst (fst r)) = Some e /\
            (similarity_threshold <= 1 - cosine_distance e query_embedding)%Q.
Proof.
  unfold similar_ranked. rewrite order_by_In, filter_In.
  intros [Hin Hge]. split; [exact Hin|].
  unfold dist, distance, one_minus, ge_threshold in Hge.
  destruct (ev_embedding (fst (fst r))) as [e|]; simpl in Hge; [|discriminate].
  exists e. split; [reflexivity|]. apply Qle_bool_iff, Hge.
Qed.

Lemma similar_ranked_sorted :
  StronglySorted
    (fun a b => asc_nulls_last (dist (fst (fst a))) (dist (fst (fst b))) = true)
    ranked.
Proof.
  unfold similar_ranked. apply order_by_sorted.
  - intros a b. apply asc_nulls_last_total.
  - intros a b c. apply asc_nulls_last_trans.
Qed.

Lemma similar_select_ge (a b : embedding_row * case_row * chunk_row) :
  In a ranked -> In b ranked ->
  asc_nulls_last (dist (fst (fst a))) (dist (fst (fst b))) = true ->
  similarity_ge (similar_select cosine_distance query_embedding a)
                (similar_select cosine_distance query_embedding b).
Proof.
  intros Ha Hb.
  apply similar_ranked_In in Ha. destruct Ha as (_ & ea & Hea & _).
  apply similar_ranked_In in Hb. destruct Hb as (_ & eb & Heb & _).
  destruct a as [[eva ca] tca], b as [[evb cb] tcb]. simpl in *.
  unfold similarity_ge, dist, distance, one_minus. simpl.
  rewrite Hea, Heb. simpl. rewrite Qle_bool_iff. intros H.
  unfold Qminus. apply Qplus_le_r, Qopp_le_compat, H.
Qed.

Lemma search_similar_sorted (n : nat) :
  StronglySorted similarity_ge
    (map (similar_select cosine_distance query_embedding) (firstn n ranked)).
Proof.
  apply StronglySorted_map.
  eapply StronglySorted_impl_In;
    [|apply StronglySorted_firstn, similar_ranked_sorted].
  intros a b Ha Hb. apply similar_select_ge; eapply In_firstn; eassumption.
Qed.

End SearchSimilar.

(** C3. For a limit that is a row count (non-negative),
    [search_similar_embeddings] succeeds and returns at most [limit_count]
    rows; every returned row is an embedding of the table whose similarity
    [1 - (embedding <=> query_embedding)] is known and at least
    [similarity_threshold]; and the rows are in descending order of
    similarity. *)
Theorem search_similar_limit_threshold_order
  (cosine_distance : vector -> vector -> Q) (db : database)
  (query_embedding : vector) (limit_count : Z) (similarity_threshold : Q) :
  0 <= limit_count ->
  exists rows,
    search_similar_embeddings cosine_distance db query_embedding limit_count
      similarity_threshold = Ok rows /\
    Z.of_nat (length rows) <= limit_count /\
    (forall r, In r rows ->
       exists ev e,
         In ev (embeddings_vector db) /\
         s_embedding_id r = ev_id ev /\ s_chunk_id r = ev_chunk_id ev /\
         ev_embedding ev = Some e /\
         s_similarity r = Some (1 - cosine_distance e query_embedding)%Q /\
         (similarity_threshold <= 1 - cosine_distance e query_embedding)%Q) /\
    StronglySorted similarity_ge rows.
Proof.
  intros Hlim. eexists. split; [apply search_similar_unfold, Hlim|].
  split; [|split].
  - rewrite length_map. apply firstn_length_Z, Hlim.
  - intros r Hr. rewrite in_map_iff in Hr. destruct Hr as ([[ev c] tc] & <- & Hin).
    apply In_firstn in Hin. apply similar_ranked_In in Hin.
    destruct Hin as (Hfrom & e & He & Hge). simpl in He.
    apply similar_from_In in Hfrom. simpl in Hfrom.
    exists ev, e. simpl. unfold distance, one_minus. rewrite He. simpl. tauto.
  - apply search_similar_sorted.
Qed.

Lemma search_similar_limit_threshold_order_witness :
  0 <= 10 /\
  exists rows,
    search_similar_embeddings dot_distance tie_db (padded [1%Q]) 10 (7 # 10)
      = Ok rows /\
    Z.of_nat (length rows) <= 10 /\
    (forall r, In r rows ->
       exists ev e,
         In ev (embeddings_vector tie_db) /\
         s_embedding_id r = ev_id ev /\ s_chunk_id r = ev_chunk_id ev /\
         ev_embedding ev = Some e /\
         s_similarity r = Some (1 - dot_distance e (padded [1%Q]))%Q /\
         (7 # 10 <= 1 - dot_distance e (padded [1%Q]))%Q) /\
    StronglySorted similarity_ge rows.
Proof.
  split; [lia|].
  apply (search_similar_limit_threshold_order dot_distance tie_db (padded [1%Q])
           10 (7 # 10)).
  lia.
Defined.

(** ** Order of the results of search_similar_embeddings *)

Lemma before_three_inv {A : Type} (a b x y z : A) :
  before a b [x; y; z] ->
  (a = x /\ b = y) \/ (a = x /\ b = z) \/ (a = y /\ b = z).
Proof.
  intros (l1 & l2 & l3 & H).
  destruct l1 as [|u1 [|u2 [|u3 l1]]];
    destruct l2 as [|v1 [|v2 l2]]; simpl in H; inversion H; subst;
    try solve [auto];
    exfalso;
    match goal with
    | E : [] = ?l ++ _ :: _ |- _ => destruct l; discriminate E
    | E : [] = ?l ++ _ :: _ ++ _ :: _ |- _ => destruct l; discriminate E
    end.
Qed.

(** C4, as stated, fails: three embeddings of equal similarity stored in the
    order 2, 1, 3 are returned in that order, which is neither the
    ascending nor the descending order of chunk identity, and the "iff"
    fails for the rows of chunks 1 and 2. *)
Lemma search_similar_ties_counterexample :
  db_constraints tie_db = true /\
  exists rows,
    search_similar_embeddings dot_distance tie_db (padded [1%Q]) 10 (7 # 10)
      = Ok rows /\
    map s_chunk_id rows = [2%N; 1%N; 3%N] /\
    map s_similarity rows = [Some 1%Q; Some 1%Q; Some 1%Q] /\
    ~ ordered_iff_similarity rows /\
    ~ ties_by_chunk_identity N.lt rows /\
    ~ ties_by_chunk_identity N.gt rows.
Proof.
  split; [vm_compute; reflexivity|].
  eexists. split; [vm_compute; reflexivity|].
  split; [reflexivity|]. split; [reflexivity|].
  match goal with
  | |- ~ ordered_iff_similarity [?x; ?y; ?z] /\ _ =>
      set (a := x); set (b := y); set (c := z)
  end.
  assert (Hba : before a b [a; b; c]) by (exists [], [], [c]; reflexivity).
  assert (Hbc : before b c [a; b; c]) by (exists [a], [], []; reflexivity).
  split; [|split].
  - intros H.
    assert (Hge : similarity_ge b a) by (vm_compute; discriminate).
    apply (H b a) in Hge; [| right; left; reflexivity | left; reflexivity
                           | intros E; discriminate E].
    apply before_three_inv in Hge.
    destruct Hge as [[E _]|[[E _]|[_ E]]]; discriminate E.
  - intros H. specialize (H a b Hba).
    assert (Hge : similarity_ge b a) by (vm_compute; discriminate).
    apply H in Hge. vm_compute in Hge. discriminate Hge.
  - intros H. specialize (H b c Hbc).
    assert (Hge : similarity_ge c b) by (vm_compute; discriminate).
    apply H in Hge. vm_compute in Hge. discriminate Hge.
Qed.

(** C4, amended. For a non-negative limit the result is in descending
    order of similarity: a row returned before another has a similarity at
    least as large, and of two returned rows the one with the strictly
    larger similarity comes first. The order of rows of equal similarity
    is not settled by chunk identity. *)
Theorem search_similar_descending
  (cosine_distance : vector -> vector -> Q) (db : database)
  (query_embedding : vector) (limit_count : Z) (similarity_threshold : Q) :
  0 <= limit_count ->
  exists rows,
    search_similar_embeddings cosine_distance db query_embedding limit_count
      similarity_threshold = Ok rows /\
    (forall a b, before a b rows -> similarity_ge a b) /\
    (forall a b, In a rows -> In b rows -> similarity_gt a b -> before a b rows).
Proof.
  intros Hlim.
  pose proof (search_similar_unfold cosine_distance db query_embedding
                similarity_threshold limit_count Hlim) as Hok.
  pose proof (search_similar_sorted cosine_distance db query_embedding
                similarity_threshold (Z.to_nat limit_count)) as Hsorted.
  eexists. split; [exact Hok|]. split.
  - intros a b Hab. eapply before_sorted; eassumption.
  - intros a b Ha Hb Hgt.
    destruct (In_split_two a b _ Ha Hb) as [E|[H|H]].
    + subst b. unfold similarity_gt in Hgt.
      destruct (s_similarity a); [|contradiction].
      exfalso. eapply Qlt_irrefl, Hgt.
    + exact H.
    + apply (before_sorted similarity_ge) in H; [|exact Hsorted].
      unfold similarity_gt in Hgt. unfold similarity_ge in H.
      destruct (s_similarity a), (s_similarity b); try contradiction.
      exfalso. eapply Qlt_not_le; eassumption.
Qed.

Lemma search_similar_descending_witness :
  0 <= 2 /\
  exists rows,
    search_similar_embeddings dot_distance tie_db (padded [1%Q]) 2 (7 # 10)
      = Ok rows /\
    (forall a b, before a b rows -> similarity_ge a b) /\
    (forall a b, In a rows -> In b rows -> similarity_gt a b -> before a b rows).
Proof.
  split; [lia|].
  apply (search_similar_descending dot_distance tie_db (padded [1%Q]) 2 (7 # 10)).
  lia.
Defined.

(** ** DISTINCT and GROUP BY *)

Lemma distinct_In {A : Type} (eqb : A -> A -> bool) (x : A) (rows : list A) :
  In x (distinct eqb rows) -> In x rows.
Proof.
  induction rows as [|y rest IH]; simpl.
  - tauto.
  - intros [H|H]; [left; exact H|].
    apply filter_In in H. right. apply IH, H.
Qed.

Lemma distinct_complete {A : Type} (eqb : A -> A -> bool) (rows : list A) :
  (forall a, eqb a a = true) ->
  (forall a b c, eqb a b = true -> eqb b c = true -> eqb a c = true) ->
  forall x, In x rows -> exists y, In y (distinct eqb rows) /\ eqb y x = true.
Proof.
  intros Hrefl Htrans x. induction rows as [|a rest IH]; simpl.
  - tauto.
  - intros [->|H].
    + exists x. split; [left; reflexivity | apply Hrefl].
    + destruct (IH H) as (y & Hy & Hyx).
      destruct (eqb a y) eqn:E.
      * exists a. split; [left; reflexivity | eapply Htrans; eassumption].
      * exists y. split; [|exact Hyx].
        right. apply filter_In. split; [exact Hy | rewrite E; reflexivity].
Qed.

Lemma group_key_eqb_eq (a b : group_key) : group_key_eqb a b = true <-> a = b.
Proof.
  destruct a as [a1 a2], b as [b1 b2]. unfold group_key_eqb. simpl.
  rewrite andb_true_iff, !N.eqb_eq. split.
  - intros [-> ->]. reflexivity.
  - intros E. inversion E. auto.
Qed.

Lemma text_eqb_eq (a b : text) : text_eqb a b = true <-> a = b.
Proof.
  unfold text_eqb. destruct (list_eq_dec ascii_dec a b); split; congruence.
Qed.

Lemma keyword_from_In (db : database) (keywords : list text)
  (r : document_row * chunk_row * text) :
  In r (keyword_from db keywords) <->
  In (fst (fst r)) (documents db) /\ In (snd (fst r)) (text_chunks db) /\
  In (snd r) keywords /\
  tc_document_id (snd (fst r)) = d_id (fst (fst r)) /\
  keyword_matches (tc_chunk_text (snd (fst r))) (snd r) = true.
Proof.
  destruct r as [[d tc] kw]. unfold keyword_from. simpl.
  rewrite filter_In, in_flat_map. simpl. split.
  - intros [(d' & Hd & H) Hm]. rewrite in_flat_map in H.
    destruct H as (tc' & Htc & H). rewrite in_map_iff in H.
    destruct H as (kw' & E & Hkw). inversion E; subst.
    rewrite filter_In in Htc. destruct Htc as [Htc Heq].
    apply N.eqb_eq in Heq. tauto.
  - intros (Hd & Htc & Hkw & Heq & Hm). split; [|exact Hm].
    exists d. split; [exact Hd|]. rewrite in_flat_map. exists tc. split.
    + rewrite filter_In. split; [exact Htc | apply N.eqb_eq, Heq].
    + rewrite in_map_iff. exists kw. split; [reflexivity | exact Hkw].
Qed.

(** What a row of the keyword pool is. *)
Lemma keyword_ranked_In (db : database) (keywords : list text) (kr : keyword_result) :
  In kr (keyword_ranked db keywords) ->
  exists d tc keyword,
    In d (documents db) /\ In tc (text_chunks db) /\ In keyword keywords /\
    tc_document_id tc = d_id d /\
    keyword_matches (tc_chunk_text tc) keyword = true /\
    kr_case_id kr = d_case_id d /\ kr_chunk_id kr = tc_id tc.
Proof.
  unfold keyword_ranked. rewrite order_by_In, in_map_iff.
  intros (g & <- & Hg). simpl.
  apply filter_In in Hg. destruct Hg as [Hg _].
  unfold keyword_groups in Hg. rewrite in_map_iff in Hg.
  destruct Hg as (k & <- & Hk). simpl.
  apply distinct_In in Hk. rewrite in_map_iff in Hk.
  destruct Hk as ([[d tc] kw] & <- & Hr).
  apply keyword_from_In in Hr. simpl in Hr.
  exists d, tc, kw. unfold keyword_key. simpl. tauto.
Qed.

Lemma sql_limit_In {A : Type} (n : Z) (l rows : list A) (x : A) :
  sql_limit n l = Ok rows -> In x rows -> In x l.
Proof.
  unfold sql_limit. destruct (n <? 0); [discriminate|].
  intros E. injection E as <-. apply In_firstn.
Qed.

Lemma keyword_results_In (db : database) (keywords : list text) (limit_count : Z)
  (rows : list keyword_result) (kr : keyword_result) :
  keyword_results db keywords limit_count = Ok rows ->
  In kr rows -> In kr (keyword_ranked db keywords).
Proof.
  unfold keyword_results, bind.
  destruct (int4mul limit_count 2) as [n|e]; [|discriminate].
  apply sql_limit_In.
Qed.

Lemma semantic_results_In (cosine_distance : vector -> vector -> Q)
  (db : database) (q : vector) (limit_count : Z)
  (rows : list semantic_result) (sr : semantic_result) :
  semantic_results cosine_distance db q limit_count = Ok rows ->
  In sr rows ->
  exists ev, In ev (embeddings_vector db) /\
             sr = semantic_select cosine_distance q ev.
Proof.
  unfold semantic_results, bind.
  destruct (int4mul limit_count 2) as [n|e]; [|discriminate].
  destruct (sql_limit n (semantic_ranked cosine_distance db q)) as [l|e] eqn:E;
    [|discriminate].
  intros H. injection H as <-. rewrite in_map_iff.
  intros (ev & <- & Hev). exists ev. split; [|reflexivity].
  eapply sql_limit_In in Hev; [|exact E].
  unfold semantic_ranked in Hev. rewrite order_by_In in Hev. exact Hev.
Qed.

(** Every row of [hybrid_search] carries the id of a row of [text_chunks]
    and the id of a row of [cases]. *)
Lemma hybrid_candidates_In (db : database) (w : Q)
  (sr : list semantic_result) (kr : list keyword_result) (h : hybrid_row) :
  In h (hybrid_candidates db w sr kr) ->
  exists j c tc,
    In j (full_outer_join same_candidate sr kr) /\
    In c (cases db) /\ In tc (text_chunks db) /\
    joined_case_id j = Some (c_id c) /\ joined_chunk_id j = Some (tc_id tc) /\
    h = hybrid_select w (j, c, tc).
Proof.
  unfold hybrid_candidates. intros H. apply distinct_In in H.
  rewrite in_map_iff in H. destruct H as ([[j c] tc] & <- & H).
  rewrite in_flat_map in H. destruct H as ([j' c'] & Hjc & H).
  rewrite in_map_iff in H. destruct H as (tc' & E & Htc).
  inversion E; subst. clear E. simpl in Htc.
  rewrite in_flat_map in Hjc. destruct Hjc as (j' & Hj & H).
  rewrite in_map_iff in H. destruct H as (c' & E & Hc).
  inversion E; subst. clear E.
  rewrite filter_In in Hc, Htc. destruct Hc as [Hc Hc'], Htc as [Htc Htc'].
  exists j, c, tc. repeat split; try assumption.
  - unfold id_is in Hc'. destruct (joined_case_id j); [|discriminate].
    apply N.eqb_eq in Hc'. congruence.
  - unfold id_is in Htc'. destruct (joined_chunk_id j); [|discriminate].
    apply N.eqb_eq in Htc'. congruence.
Qed.

Lemma hybrid_search_In (cosine_distance : vector -> vector -> Q)
  (db : database) (q : vector) (keywords : list text) (limit_count : Z) (w : Q)
  (rows : list hybrid_row) (h : hybrid_row) :
  hybrid_search cosine_distance db q keywords limit_count w = Ok rows ->
  In h rows ->
  exists sr kr,
    semantic_results cosine_distance db q limit_count = Ok sr /\
    keyword_results db keywords limit_count = Ok kr /\
    In h (hybrid_candidates db w sr kr).
Proof.
  unfold hybrid_search, bind.
  destruct (semantic_results cosine_distance db q limit_count) as [sr|e];
    [|discriminate].
  destruct (keyword_results db keywords limit_count) as [kr|e]; [|discriminate].
  intros E Hin. exists sr, kr. split; [reflexivity|]. split; [reflexivity|].
  eapply sql_limit_In in Hin; [|exact E].
  rewrite order_by_In in Hin. exact Hin.
Qed.

(** ** Deleting chunks *)

Lemma delete_chunk_row_embeddings (db : database) (row : chunk_row) (ev : embedding_row) :
  In ev (embeddings_vector (delete_chunk_row db row)) <->
  In ev (embeddings_vector db) /\ ev_chunk_id ev <> tc_id row.
Proof.
  unfold delete_chunk_row, cleanup_orphan_embeddings. simpl.
  rewrite !filter_In, negb_true_iff, N.eqb_neq. tauto.
Qed.

Lemma delete_chunk_row_chunks (db : database) (row tc : chunk_row) :
  In tc (text_chunks (delete_chunk_row db row)) <->
  In tc (text_chunks db) /\ tc_id tc <> tc_id row.
Proof.
  unfold delete_chunk_row, cleanup_orphan_embeddings. simpl.
  rewrite filter_In, negb_true_iff, N.eqb_neq. tauto.
Qed.

Lemma delete_rows_embeddings (rows : list chunk_row) (db : database) (ev : embedding_row) :
  In ev (embeddings_vector (fold_left delete_chunk_row rows db)) <->
  In ev (embeddings_vector db) /\
  forall row, In row rows -> ev_chunk_id ev <> tc_id row.
Proof.
  revert db. induction rows as [|row rest IH]; intros db; simpl.
  - split; [intros H; split; [exact H | intros ? []] | tauto].
  - rewrite IH, delete_chunk_row_embeddings. split.
    + intros [[H1 H2] H3]. split; [exact H1|].
      intros r [<-|Hr]; [exact H2 | apply H3, Hr].
    + intros [H1 H2]. repeat split; auto.
Qed.

Lemma delete_rows_chunks (rows : list chunk_row) (db : database) (tc : chunk_row) :
  In tc (text_chunks (fold_left delete_chunk_row rows db)) <->
  In tc (text_chunks db) /\
  forall row, In row rows -> tc_id tc <> tc_id row.
Proof.
  revert db. induction rows as [|row rest IH]; intros db; simpl.
  - split; [intros H; split; [exact H | intros ? []] | tauto].
  - rewrite IH, delete_chunk_row_chunks. split.
    + intros [[H1 H2] H3]. split; [exact H1|].
      intros r [<-|Hr]; [exact H2 | apply H3, Hr].
    + intros [H1 H2]. repeat split; auto.
Qed.

(** A chunk that [cond] selects is gone after the DELETE, with every
    embedding that referenced it. *)
Lemma delete_chunks_where_gone (cond : chunk_row -> bool) (db : database) (tc : chunk_row) :
  In tc (text_chunks db) -> cond tc = true ->
  (forall ev, In ev (embeddings_vector (delete_chunks_where cond db)) ->
              ev_chunk_id ev <> tc_id tc) /\
  (forall tc', In tc' (text_chunks (delete_chunks_where cond db)) ->
               tc_id tc' <> tc_id tc).
Proof.
  intros Hin Hc. unfold delete_chunks_where.
  assert (Hsel : In tc (filter cond (text_chunks db)))
    by (apply filter_In; split; assumption).
  split.
  - intros ev Hev. apply delete_rows_embeddings in Hev. apply Hev, Hsel.
  - intros tc' Htc'. apply delete_rows_chunks in Htc'. apply Htc', Hsel.
Qed.

Lemma search_similar_In (cosine_distance : vector -> vector -> Q)
  (db : database) (q : vector) (limit_count : Z) (threshold : Q)
  (rows : list similar_row) (r : similar_row) :
  search_similar_embeddings cosine_distance db q limit_count threshold = Ok rows ->
  In r rows ->
  exists ev, In ev (embeddings_vector db) /\ s_chunk_id r = ev_chunk_id ev.
Proof.
  intros Hok Hr. unfold search_similar_embeddings, bind in Hok.
  match type of Hok with
  | match sql_limit _ ?l with _ => _ end = _ =>
      destruct (sql_limit limit_count l) as [l'|e] eqn:E; [|discriminate]
  end.
  injection Hok as <-. rewrite in_map_iff in Hr.
  destruct Hr as ([[ev c] tc] & <- & Hin). simpl.
  eapply sql_limit_In in Hin; [|exact E].
  unfold similar_ranked in Hin.
  rewrite order_by_In, filter_In in Hin. destruct Hin as [Hin _].
  apply similar_from_In in Hin. simpl in Hin. exists ev. tauto.
Qed.

(** No query returns a chunk that neither [text_chunks] nor
    [embeddings_vector] mentions. *)
Lemma absent_chunk_not_returned (cosine_distance : vector -> vector -> Q)
  (db : database) (chunk : uuid) :
  (forall ev, In ev (embeddings_vector db) -> ev_chunk_id ev <> chunk) ->
  (forall tc, In tc (text_chunks db) -> tc_id tc <> chunk) ->
  (forall q limit_count threshold rows,
     search_similar_embeddings cosine_distance db q limit_count threshold = Ok rows ->
     forall r, In r rows -> s_chunk_id r <> chunk) /\
  (forall keywords limit_count rows,
     keyword_results db keywords limit_count = Ok rows ->
     forall r, In r rows -> kr_chunk_id r <> chunk) /\
  (forall q keywords limit_count w rows,
     hybrid_search cosine_distance db q keywords limit_count w = Ok rows ->
     forall r, In r rows -> h_chunk_id r <> chunk).
Proof.
  intros Hev Htc. split; [|split].
  - intros q limit_count threshold rows Hok r Hr.
    destruct (search_similar_In _ _ _ _ _ _ _ Hok Hr) as (ev & Hin & ->).
    apply Hev, Hin.
  - intros keywords limit_count rows Hok r Hr.
    eapply keyword_results_In in Hr; [|exact Hok].
    apply keyword_ranked_In in Hr.
    destruct Hr as (d & tc & kw & _ & Hin & _ & _ & _ & _ & ->).
    apply Htc, Hin.
  - intros q keywords limit_count w rows Hok r Hr.
    destruct (hybrid_search_In _ _ _ _ _ _ _ _ Hok Hr) as (sr & kr & _ & _ & Hc).
    apply hybrid_candidates_In in Hc.
    destruct Hc as (j & c & tc & _ & _ & Hin & _ & Hid & ->).
    simpl. rewrite Hid. simpl. apply Htc, Hin.
Qed.

(** C6. When a chunk is deleted, by a DELETE on [text_chunks] or with its
    document, the state the deletion leaves holds no embedding of that
    chunk, and [search_similar_embeddings], the keyword search and
    [hybrid_search] on that state do not return its identifier. *)
Theorem chunk_deletion_leaves_no_embedding
  (cosine_distance : vector -> vector -> Q) (db db' : database) (tc : chunk_row) :
  In tc (text_chunks db) ->
  db' = delete_chunk db (tc_id tc) \/ db' = delete_document db (tc_document_id tc) ->
  (forall ev, In ev (embeddings_vector db') -> ev_chunk_id ev <> tc_id tc) /\
  (forall q limit_count threshold rows,
     search_similar_embeddings cosine_distance db' q limit_count threshold = Ok rows ->
     forall r, In r rows -> s_chunk_id r <> tc_id tc) /\
  (forall keywords limit_count rows,
     keyword_results db' keywords limit_count = Ok rows ->
     forall r, In r rows -> kr_chunk_id r <> tc_id tc) /\
  (forall q keywords limit_count w rows,
     hybrid_search cosine_distance db' q keywords limit_count w = Ok rows ->
     forall r, In r rows -> h_chunk_id r <> tc_id tc).
Proof.
  intros Hin Hdb'.
  assert (Hgone :
    (forall ev, In ev (embeddings_vector db') -> ev_chunk_id ev <> tc_id tc) /\
    (forall tc', In tc' (text_chunks db') -> tc_id tc' <> tc_id tc)).
  { destruct Hdb' as [-> | ->].
    - unfold delete_chunk. apply delete_chunks_where_gone; [exact Hin|].
      apply N.eqb_refl.
    - unfold delete_document. simpl. apply delete_chunks_where_gone; [exact Hin|].
      apply N.eqb_refl. }
  destruct Hgone as [Hev Htc]. split; [exact Hev|].
  apply absent_chunk_not_returned; assumption.
Qed.

(** The embeddings and chunks left in [tie_db] when chunk 2, or document
    10, is deleted. *)
Example delete_chunk_tie_db :
  map ev_chunk_id (embeddings_vector (delete_chunk tie_db 2%N)) = [1%N; 3%N] /\
  map tc_id (text_chunks (delete_chunk tie_db 2%N)) = [1%N; 3%N] /\
  embeddings_vector (delete_document tie_db 10%N) = [] /\
  text_chunks (delete_document tie_db 10%N) = [].
Proof. repeat split. Qed.

Lemma chunk_deletion_leaves_no_embedding_witness :
  In tie_chunk_2 (text_chunks tie_db) /\
  (forall ev, In ev (embeddings_vector (delete_chunk tie_db 2%N)) ->
     ev_chunk_id ev <> 2%N) /\
  (forall q limit_count threshold rows,
     search_similar_embeddings dot_distance (delete_chunk tie_db 2%N) q
       limit_count threshold = Ok rows ->
     forall r, In r rows -> s_chunk_id r <> 2%N) /\
  (forall keywords limit_count rows,
     keyword_results (delete_chunk tie_db 2%N) keywords limit_count = Ok rows ->
     forall r, In r rows -> kr_chunk_id r <> 2%N) /\
  (forall q keywords limit_count w rows,
     hybrid_search dot_distance (delete_chunk tie_db 2%N) q keywords
       limit_count w = Ok rows ->
     forall r, In r rows -> h_chunk_id r <> 2%N).
Proof.
  assert (Hin : In tie_chunk_2 (text_chunks tie_db)) by (simpl; auto).
  split; [exact Hin|].
  apply (chunk_deletion_leaves_no_embedding dot_distance tie_db
           (delete_chunk tie_db 2%N) tie_chunk_2 Hin).
  left. reflexivity.
Defined.

(** ** Writing embeddings_vector *)

Lemma check_columns_ok (e : option vector) (m : option text) :
  check_columns e m = Ok tt ->
  (forall v, e = Some v -> length v = embedding_dimension) /\
  (forall s, m = Some s -> (length s <= 100)%nat).
Proof.
  unfold check_columns, check_vector, check_varchar, bind.
  destruct e as [v|].
  - destruct (Nat.eqb_spec (length v) embedding_dimension) as [E|E]; [|discriminate].
    destruct m as [s|].
    + destruct (Nat.leb_spec (length s) 100); [|discriminate].
      intros _. split; intros ? [= <-]; assumption.
    + intros _. split; [intros ? [= <-]; assumption | discriminate].
  - destruct m as [s|].
    + destruct (Nat.leb_spec (length s) 100); [|discriminate].
      intros _. split; [discriminate | intros ? [= <-]; assumption].
    + intros _. split; discriminate.
Qed.

Lemma check_columns_mismatch (v : vector) (m : option text) :
  length v <> embedding_dimension ->
  check_columns (Some v) m = Err (DimensionMismatch embedding_dimension (length v)).
Proof.
  intros H. unfold check_columns, check_vector, bind.
  destruct (Nat.eqb_spec (length v) embedding_dimension); [contradiction|reflexivity].
Qed.

Lemma existsb_chunk_false (l : list embedding_row) (chunk : uuid) :
  existsb (fun ev => N.eqb (ev_chunk_id ev) chunk) l = false ->
  ~ In chunk (map ev_chunk_id l).
Proof.
  intros H Hin. rewrite in_map_iff in Hin. destruct Hin as (ev & E & Hev).
  assert (T : existsb (fun ev => N.eqb (ev_chunk_id ev) chunk) l = true).
  { apply existsb_exists. exists ev. split; [exact Hev | apply N.eqb_eq, E]. }
  congruence.
Qed.

(** What a successful INSERT does. *)
Lemma insert_embedding_ok (db db' : database) (row : embedding_row) :
  insert_embedding db row = Ok db' ->
  db' = set_embeddings db (embeddings_vector db ++ [row]) /\
  check_columns (ev_embedding row) (ev_model_name row) = Ok tt /\
  ~ In (ev_chunk_id row) (map ev_chunk_id (embeddings_vector db)).
Proof.
  unfold insert_embedding, bind.
  destruct (check_columns (ev_embedding row) (ev_model_name row)) as [[]|e] eqn:Hc;
    [|discriminate].
  destruct (existsb (fun ev => N.eqb (ev_id ev) (ev_id row)) (embeddings_vector db));
    [discriminate|].
  destruct (existsb (fun ev => N.eqb (ev_chunk_id ev) (ev_chunk_id row))
              (embeddings_vector db)) eqn:Hu; [discriminate|].
  destruct (negb (existsb (fun c => N.eqb (c_id c) (ev_case_id row)) (cases db)));
    [discriminate|].
  destruct (negb (existsb (fun tc => N.eqb (tc_id tc) (ev_chunk_id row)) (text_chunks db)));
    [discriminate|].
  intros [= <-]. split; [reflexivity|]. split; [reflexivity|].
  apply existsb_chunk_false, Hu.
Qed.

(** The constraint [embeddings_vector_chunk_unique] holds after an INSERT. *)
Lemma insert_embedding_chunk_unique (db db' : database) (row : embedding_row) :
  chunk_unique db -> insert_embedding db row = Ok db' -> chunk_unique db'.
Proof.
  intros Hu Hok. apply insert_embedding_ok in Hok. destruct Hok as (-> & _ & Hn).
  unfold chunk_unique. simpl. rewrite map_app. simpl.
  apply Permutation_NoDup
    with (l := ev_chunk_id row :: map ev_chunk_id (embeddings_vector db)).
  - apply Permutation_cons_append.
  - constructor; assumption.
Qed.

Lemma insert_embedding_dimensions (db db' : database) (row : embedding_row) :
  dimensions_ok db -> insert_embedding db row = Ok db' -> dimensions_ok db'.
Proof.
  intros Hd Hok. apply insert_embedding_ok in Hok. destruct Hok as (-> & Hc & _).
  apply check_columns_ok in Hc. destruct Hc as [Hc _].
  intros ev v Hin He. simpl in Hin. apply in_app_or in Hin.
  destruct Hin as [Hin|[<-|[]]].
  - eapply Hd; eassumption.
  - apply Hc, He.
Qed.


Section UpsertFacts.

Variable v : vector.
Variable modelName : text.
Variable chunkId : uuid.

Local Abbreviation upd := (replace_for chunkId v modelName).

Lemma upd_chunk_id (ev : embedding_row) : ev_chunk_id (upd ev) = ev_chunk_id ev.
Proof. unfold replace_for. destruct (N.eqb (ev_chunk_id ev) chunkId); reflexivity. Qed.

Lemma upd_idem (ev : embedding_row) : upd (upd ev) = upd ev.
Proof.
  unfold replace_for. destruct (N.eqb (ev_chunk_id ev) chunkId) eqn:E.
  - simpl. rewrite E. reflexivity.
  - rewrite E. reflexivity.
Qed.

Lemma map_upd_chunk_ids (l : list embedding_row) :
  map ev_chunk_id (map upd l) = map ev_chunk_id l.
Proof.
  rewrite map_map. apply map_ext. apply upd_chunk_id.
Qed.

Lemma map_upd_absent (l : list embedding_row) :
  ~ In chunkId (map ev_chunk_id l) -> map upd l = l.
Proof.
  induction l as [|ev l IH]; simpl; intros H.
  - reflexivity.
  - rewrite IH by tauto. unfold replace_for.
    destruct (N.eqb_spec (ev_chunk_id ev) chunkId) as [E|E]; [tauto | reflexivity].
Qed.

Lemma existsb_map_upd (l : list embedding_row) :
  existsb (fun ev => N.eqb (ev_chunk_id ev) chunkId) (map upd l) =
  existsb (fun ev => N.eqb (ev_chunk_id ev) chunkId) l.
Proof.
  induction l as [|ev l IH]; simpl.
  - reflexivity.
  - rewrite IH, upd_chunk_id. reflexivity.
Qed.

(** What a successful [Upsert] does. *)
Lemma Upsert_ok (env : insert_defaults) (db db' : database) :
  Upsert env db chunkId v modelName = Ok db' ->
  length v = embedding_dimension /\
  check_columns (Some v) (Some modelName) = Ok tt /\
  ((In chunkId (map ev_chunk_id (embeddings_vector db)) /\
    db' = set_embeddings db (map upd (embeddings_vector db))) \/
   (~ In chunkId (map ev_chunk_id (embeddings_vector db)) /\
    db' = set_embeddings db
            (embeddings_vector db ++
             [ {| ev_id := gen_random_uuid env;
                  ev_case_id := owning_case env;
                  ev_chunk_id := chunkId;
                  ev_embedding := Some v;
                  ev_model_name := Some modelName;
                  ev_created_at := Some (current_timestamp env) |} ]))).
Proof.
  unfold Upsert, bind.
  destruct (check_columns (Some v) (Some modelName)) as [[]|e] eqn:Hc; [|discriminate].
  destruct (check_columns_ok _ _ Hc) as [Hv _].
  specialize (Hv v eq_refl).
  destruct (existsb (fun ev => N.eqb (ev_chunk_id ev) chunkId) (embeddings_vector db))
    eqn:Hex.
  - intros [= <-]. split; [exact Hv|]. split; [reflexivity|]. left.
    split; [|reflexivity].
    apply existsb_exists in Hex. destruct Hex as (ev & Hev & E).
    apply N.eqb_eq in E. rewrite in_map_iff. exists ev. tauto.
  - intros Hins. apply insert_embedding_ok in Hins. simpl in Hins.
    destruct Hins as (-> & _ & Hn). split; [exact Hv|]. split; [reflexivity|].
    right. split; [exact Hn | reflexivity].
Qed.

End UpsertFacts.

Lemma filter_none {A : Type} (f : A -> bool) (l : list A) :
  (forall x, In x l -> f x = false) -> filter f l = [].
Proof.
  induction l as [|a l IH]; simpl; intros H.
  - reflexivity.
  - rewrite (H a) by (left; reflexivity). apply IH.
    intros x Hx. apply H. right. exact Hx.
Qed.

Lemma unique_chunk_filter (l : list embedding_row) (ev : embedding_row) :
  NoDup (map ev_chunk_id l) -> In ev l ->
  filter (fun x => N.eqb (ev_chunk_id x) (ev_chunk_id ev)) l = [ev].
Proof.
  induction l as [|a l IH]; simpl; intros Hnd Hin.
  - contradiction.
  - inversion Hnd as [|? ? Hna Hnd']; subst.
    destruct Hin as [->|Hin].
    + rewrite N.eqb_refl. f_equal.
      apply filter_none. intros x Hx. apply N.eqb_neq.
      intros E. apply Hna. rewrite <- E. apply in_map, Hx.
    + destruct (N.eqb_spec (ev_chunk_id a) (ev_chunk_id ev)) as [E|E].
      * exfalso. apply Hna. rewrite E. apply in_map, Hin.
      * apply IH; assumption.
Qed.

Lemma unique_chunk_at_most_one (l : list embedding_row) (chunk : uuid) :
  NoDup (map ev_chunk_id l) ->
  (length (filter (fun x => N.eqb (ev_chunk_id x) chunk) l) <= 1)%nat.
Proof.
  intros Hnd.
  destruct (filter (fun x => N.eqb (ev_chunk_id x) chunk) l) as [|ev rest] eqn:E.
  - simpl. lia.
  - assert (Hin : In ev (filter (fun x => N.eqb (ev_chunk_id x) chunk) l))
      by (rewrite E; left; reflexivity).
    apply filter_In in Hin. destruct Hin as [Hin Hc]. apply N.eqb_eq in Hc.
    subst chunk. rewrite (unique_chunk_filter l ev Hnd Hin) in E.
    injection E as <-. simpl. lia.
Qed.

(** [Upsert] keeps [embeddings_vector_chunk_unique]. *)
Lemma Upsert_chunk_unique (env : insert_defaults) (db db' : database)
  (chunkId : uuid) (v : vector) (modelName : text) :
  chunk_unique db -> Upsert env db chunkId v modelName = Ok db' -> chunk_unique db'.
Proof.
  intros Hu Hok. apply Upsert_ok in Hok.
  destruct Hok as (_ & _ & [[_ ->] | [Hn ->]]); unfold chunk_unique; simpl.
  - rewrite map_upd_chunk_ids. exact Hu.
  - rewrite map_app. simpl.
    apply Permutation_NoDup
      with (l := chunkId :: map ev_chunk_id (embeddings_vector db)).
    + apply Permutation_cons_append.
    + constructor; assumption.
Qed.

(** After [Upsert] every row of the chunk holds the vector and the model
    name of the call, and the chunk has a row. *)
Lemma Upsert_stored (env : insert_defaults) (db db' : database)
  (chunkId : uuid) (v : vector) (modelName : text) :
  Upsert env db chunkId v modelName = Ok db' ->
  (exists ev, In ev (embeddings_vector db') /\ ev_chunk_id ev = chunkId) /\
  (forall ev, In ev (embeddings_vector db') -> ev_chunk_id ev = chunkId ->
     ev_embedding ev = Some v /\ ev_model_name ev = Some modelName).
Proof.
  intros Hok. apply Upsert_ok in Hok.
  destruct Hok as (_ & _ & [[Hin ->] | [Hn ->]]); simpl.
  - split.
    + rewrite in_map_iff in Hin. destruct Hin as (ev & E & Hev).
      exists (replace_for chunkId v modelName ev). split.
      * apply in_map, Hev.
      * rewrite upd_chunk_id. exact E.
    + intros ev Hev E. rewrite in_map_iff in Hev.
      destruct Hev as (ev0 & <- & _). rewrite upd_chunk_id in E.
      unfold replace_for. apply N.eqb_eq in E. rewrite E. simpl. tauto.
  - split.
    + eexists. split; [apply in_or_app; right; left; reflexivity | reflexivity].
    + intros ev Hev E. apply in_app_or in Hev. destruct Hev as [Hev|[<-|[]]].
      * exfalso. apply Hn. rewrite <- E. apply in_map, Hev.
      * simpl. tauto.
Qed.

(** C7. On a table that satisfies [embeddings_vector_chunk_unique], a
    successful [Upsert(chunkId, v, m)] followed by the same call (whatever
    fresh identifier and time the second call is offered) returns the state
    of the first call unchanged; that state holds exactly one embedding for
    [chunkId], carrying [v] and [m]; and no chunk has more than one
    embedding in it. *)
Theorem Upsert_twice_is_once (env env' : insert_defaults) (db db1 : database)
  (chunkId : uuid) (v : vector) (modelName : text) :
  chunk_unique db ->
  Upsert env db chunkId v modelName = Ok db1 ->
  Upsert env' db1 chunkId v modelName = Ok db1 /\
  (exists ev, embeddings_of db1 chunkId = [ev] /\
              ev_embedding ev = Some v /\ ev_model_name ev = Some modelName) /\
  (forall chunk, (length (embeddings_of db1 chunk) <= 1)%nat).
Proof.
  intros Hu Hok.
  pose proof (Upsert_chunk_unique _ _ _ _ _ _ Hu Hok) as Hu1.
  pose proof (Upsert_stored _ _ _ _ _ _ Hok) as [(ev & Hev & Hc) Hall].
  split; [|split].
  - assert (Hex : existsb (fun x => N.eqb (ev_chunk_id x) chunkId)
                    (embeddings_vector db1) = true).
    { apply existsb_exists. exists ev. split; [exact Hev | apply N.eqb_eq, Hc]. }
    apply Upsert_ok in Hok. destruct Hok as (_ & Hcheck & Hcases).
    unfold Upsert, bind. rewrite Hcheck, Hex. f_equal.
    destruct Hcases as [[_ ->] | [Hn ->]]; unfold set_embeddings; simpl; f_equal.
    + rewrite map_map. apply map_ext. apply upd_idem.
    + rewrite map_app. simpl. rewrite (map_upd_absent _ _ _ _ Hn).
      unfold replace_for. simpl. rewrite N.eqb_refl. reflexivity.
  - exists ev. split; [|apply Hall; assumption].
    unfold embeddings_of. rewrite <- Hc. apply unique_chunk_filter; assumption.
  - intros chunk. apply unique_chunk_at_most_one, Hu1.
Qed.

Lemma Upsert_twice_is_once_witness :
  exists db1,
    Upsert sample_env two_embeddings_db 3%N (padded [1%Q]) (txt "all-MiniLM-L6-v2")
      = Ok db1 /\
    map ev_chunk_id (embeddings_vector db1) = [2%N; 1%N; 3%N] /\
    Upsert sample_env db1 3%N (padded [1%Q]) (txt "all-MiniLM-L6-v2") = Ok db1 /\
    (exists ev, embeddings_of db1 3%N = [ev] /\
                ev_embedding ev = Some (padded [1%Q]) /\
                ev_model_name ev = Some (txt "all-MiniLM-L6-v2")) /\
    (forall chunk, (length (embeddings_of db1 chunk) <= 1)%nat).
Proof.
  eexists. split; [vm_compute; reflexivity|]. split; [reflexivity|].
  apply (Upsert_twice_is_once sample_env sample_env two_embeddings_db).
  - unfold chunk_unique. simpl. repeat constructor; simpl; intuition discriminate.
  - vm_compute. reflexivity.
Defined.

(** ** Dimension of the stored vectors *)

Lemma Upsert_dimensions (env : insert_defaults) (db db' : database)
  (chunkId : uuid) (v : vector) (modelName : text) :
  dimensions_ok db -> Upsert env db chunkId v modelName = Ok db' -> dimensions_ok db'.
Proof.
  intros Hd Hok. apply Upsert_ok in Hok.
  destruct Hok as (Hv & _ & [[_ ->] | [_ ->]]); intros ev e Hin He; simpl in Hin.
  - rewrite in_map_iff in Hin. destruct Hin as (ev0 & <- & Hin).
    unfold replace_for in He.
    destruct (N.eqb (ev_chunk_id ev0) chunkId).
    + simpl in He. injection He as <-. exact Hv.
    + eapply Hd; eassumption.
  - apply in_app_or in Hin. destruct Hin as [Hin|[<-|[]]].
    + eapply Hd; eassumption.
    + simpl in He. injection He as <-. exact Hv.
Qed.

Lemma filter_keeps_chunk_unique (keep : embedding_row -> bool)
  (rows : list embedding_row) :
  NoDup (map ev_chunk_id rows) -> NoDup (map ev_chunk_id (filter keep rows)).
Proof.
  induction rows as [|ev rows IH]; simpl; intros Hnd; [constructor|].
  inversion Hnd as [|? ? Hfresh Hrest]; subst.
  destruct (keep ev); simpl; [|apply IH, Hrest].
  constructor; [|apply IH, Hrest].
  intros Hin. apply Hfresh. rewrite in_map_iff in *.
  destruct Hin as (x & E & Hx). apply filter_In in Hx. exists x. tauto.
Qed.

Lemma reachable_invariants (db : database) :
  reachable db -> dimensions_ok db /\ chunk_unique db.
Proof.
  induction 1 as [db E | db db' row _ [IHd IHu] Hok
                 | env db db' c v m _ [IHd IHu] Hok
                 | db row _ [IHd IHu] | db db' _ [IHd IHu] E].
  - unfold dimensions_ok, chunk_unique. rewrite E. split.
    + intros ev v [].
    + constructor.
  - split.
    + eapply insert_embedding_dimensions; eassumption.
    + eapply insert_embedding_chunk_unique; eassumption.
  - split.
    + eapply Upsert_dimensions; eassumption.
    + eapply Upsert_chunk_unique; eassumption.
  - split.
    + intros ev v Hin. apply delete_chunk_row_embeddings in Hin. apply IHd, Hin.
    + unfold chunk_unique, delete_chunk_row, cleanup_orphan_embeddings. simpl.
      apply filter_keeps_chunk_unique, filter_keeps_chunk_unique, IHu.
  - unfold dimensions_ok, chunk_unique. rewrite E. tauto.
Qed.

(** C8, as stated, fails: the column has one dimension whatever the row's
    model name is. A vector of 384 coordinates labelled with a model that
    declares 768 is stored. *)
Lemma model_dimension_counterexample :
  reachable two_embeddings_db /\
  sample_declared (txt "all-mpnet-base-v2") = 768%nat /\
  exists db',
    Upsert sample_env two_embeddings_db 3%N (padded [1%Q]) (txt "all-mpnet-base-v2")
      = Ok db' /\
    reachable db' /\
    ~ dimension_declared_by_model sample_declared db'.
Proof.
  assert (R0 : reachable (set_embeddings tie_db [])) by (apply reach_empty; reflexivity).
  assert (R1 : reachable (set_embeddings tie_db [new_embedding 102%N 1%N 2%N (padded [1%Q])])).
  { apply reach_insert with (db := set_embeddings tie_db [])
      (row := new_embedding 102%N 1%N 2%N (padded [1%Q]));
      [exact R0 | vm_compute; reflexivity]. }
  assert (R2 : reachable two_embeddings_db).
  { apply reach_insert
      with (db := set_embeddings tie_db [new_embedding 102%N 1%N 2%N (padded [1%Q])])
           (row := new_embedding 101%N 1%N 1%N (padded [1%Q]));
      [exact R1 | vm_compute; reflexivity]. }
  split; [exact R2|]. split; [reflexivity|].
  eexists. split; [vm_compute; reflexivity|]. split.
  - eapply reach_upsert with (env := sample_env) (chunkId := 3%N)
      (v := padded [1%Q]) (modelName := txt "all-mpnet-base-v2");
      [exact R2 | vm_compute; reflexivity].
  - intros H.
    match goal with
    | H : dimension_declared_by_model _ ?d |- _ =>
        specialize (H (nth 2 (embeddings_vector d) (new_embedding 0%N 0%N 0%N []))
                      (padded [1%Q]) (txt "all-mpnet-base-v2"))
    end.
    simpl in H.
    assert (E : length (padded [1%Q]) = sample_declared (txt "all-mpnet-base-v2")).
    { apply H; auto. }
    vm_compute in E. discriminate E.
Qed.

(** C8, amended. In every state the statements can produce, a stored vector
    has the dimension of the column, 384, whatever the model name of its
    row. An [Upsert] (and an INSERT) whose vector has another length fails
    with [DimensionMismatch] and yields no new state; one that succeeds
    stores the vector as it was given. *)
Theorem stored_dimension_is_column_dimension (env : insert_defaults)
  (db : database) (chunkId : uuid) (v : vector) (modelName : text) :
  reachable db ->
  dimensions_ok db /\
  (length v <> embedding_dimension ->
     Upsert env db chunkId v modelName
       = Err (DimensionMismatch embedding_dimension (length v)) /\
     forall row, ev_embedding row = Some v ->
       insert_embedding db row
         = Err (DimensionMismatch embedding_dimension (length v))) /\
  (forall db', Upsert env db chunkId v modelName = Ok db' ->
     length v = embedding_dimension /\ dimensions_ok db' /\
     (exists ev, In ev (embeddings_vector db') /\ ev_chunk_id ev = chunkId) /\
     (forall ev, In ev (embeddings_vector db') -> ev_chunk_id ev = chunkId ->
        ev_embedding ev = Some v)).
Proof.
  intros Hr. destruct (reachable_invariants db Hr) as [Hd _].
  split; [exact Hd|]. split.
  - intros Hlen. split.
    + unfold Upsert. rewrite (check_columns_mismatch v _ Hlen). reflexivity.
    + intros row He. unfold insert_embedding. rewrite He.
      rewrite (check_columns_mismatch v _ Hlen). reflexivity.
  - intros db' Hok.
    pose proof (Upsert_stored _ _ _ _ _ _ Hok) as [Hex Hall].
    pose proof (Upsert_dimensions _ _ _ _ _ _ Hd Hok) as Hd'.
    apply Upsert_ok in Hok. destruct Hok as (Hv & _).
    repeat split; try assumption.
    intros ev Hev E. apply Hall; assumption.
Qed.

Lemma stored_dimension_is_column_dimension_witness :
  reachable (set_embeddings tie_db []) /\
  dimensions_ok (set_embeddings tie_db []) /\
  (length [1%Q; 0%Q] <> embedding_dimension ->
     Upsert sample_env (set_embeddings tie_db []) 3%N [1%Q; 0%Q]
            (txt "all-MiniLM-L6-v2")
       = Err (DimensionMismatch embedding_dimension (length [1%Q; 0%Q])) /\
     forall row, ev_embedding row = Some [1%Q; 0%Q] ->
       insert_embedding (set_embeddings tie_db []) row
         = Err (DimensionMismatch embedding_dimension (length [1%Q; 0%Q]))) /\
  (forall db', Upsert sample_env (set_embeddings tie_db []) 3%N [1%Q; 0%Q]
                 (txt "all-MiniLM-L6-v2") = Ok db' ->
     length [1%Q; 0%Q] = embedding_dimension /\ dimensions_ok db' /\
     (exists ev, In ev (embeddings_vector db') /\ ev_chunk_id ev = 3%N) /\
     (forall ev, In ev (embeddings_vector db') -> ev_chunk_id ev = 3%N ->
        ev_embedding ev = Some [1%Q; 0%Q])).
Proof.
  assert (R0 : reachable (set_embeddings tie_db []))
    by (apply reach_empty; reflexivity).
  split; [exact R0|].
  apply (stored_dimension_is_column_dimension sample_env (set_embeddings tie_db [])
           3%N [1%Q; 0%Q] (txt "all-MiniLM-L6-v2") R0).
Defined.

(** ** hybrid_search: the pools and the result *)

Lemma semantic_results_ok (cosine_distance : vector -> vector -> Q)
  (db : database) (q : vector) (limit_count : Z) :
  0 <= limit_count <= 1073741823 ->
  semantic_results cosine_distance db q limit_count
  = Ok (semantic_pool cosine_distance db q limit_count).
Proof.
  intros H. unfold semantic_results, bind.
  rewrite (int4mul_2_ok _ H), sql_limit_ok by lia. reflexivity.
Qed.

Lemma keyword_results_ok (db : database) (keywords : list text) (limit_count : Z) :
  0 <= limit_count <= 1073741823 ->
  keyword_results db keywords limit_count = Ok (keyword_pool db keywords limit_count).
Proof.
  intros H. unfold keyword_results, bind.
  rewrite (int4mul_2_ok _ H), sql_limit_ok by lia. reflexivity.
Qed.

Lemma hybrid_search_ok (cosine_distance : vector -> vector -> Q)
  (db : database) (q : vector) (keywords : list text) (limit_count : Z) (w : Q) :
  0 <= limit_count <= 1073741823 ->
  hybrid_search cosine_distance db q keywords limit_count w
  = Ok (firstn (Z.to_nat limit_count)
               (hybrid_ranked cosine_distance db q keywords limit_count w)).
Proof.
  intros H. unfold hybrid_search, bind.
  rewrite (semantic_results_ok _ _ _ _ H), (keyword_results_ok _ _ _ H).
  rewrite sql_limit_ok by lia. reflexivity.
Qed.

Lemma no_In_nil {A : Type} (l : list A) : (forall x, ~ In x l) -> l = [].
Proof.
  destruct l as [|a l]; [reflexivity|].
  intros H. exfalso. apply (H a). left. reflexivity.
Qed.

Lemma keyword_ranked_no_keywords (db : database) : keyword_ranked db [] = [].
Proof.
  apply no_In_nil. intros kr H. apply keyword_ranked_In in H.
  destruct H as (_ & _ & kw & _ & _ & [] & _).
Qed.

Lemma keyword_ranked_no_chunks (db : database) (keywords : list text) :
  text_chunks db = [] -> keyword_ranked db keywords = [].
Proof.
  intros E. apply no_In_nil. intros kr H. apply keyword_ranked_In in H.
  destruct H as (_ & tc & _ & _ & Htc & _). rewrite E in Htc. exact Htc.
Qed.

Lemma full_outer_join_In {A B : Type} (on : A -> B -> bool)
  (l : list A) (r : list B) (j : option A * option B) :
  In j (full_outer_join on l r) ->
  (exists a, In a l /\ fst j = Some a /\
     ((snd j = None /\ forall b, In b r -> on a b = false) \/
      (exists b, In b r /\ snd j = Some b /\ on a b = true))) \/
  (exists b, In b r /\ fst j = None /\ snd j = Some b /\
     forall a, In a l -> on a b = false).
Proof.
  unfold full_outer_join. intros H. apply in_app_or in H. destruct H as [H|H].
  - left. rewrite in_flat_map in H. destruct H as (a & Ha & H).
    exists a. split; [exact Ha|].
    destruct (filter (on a) r) as [|m ms] eqn:E.
    + destruct H as [<-|[]]. simpl. split; [reflexivity|]. left.
      split; [reflexivity|]. intros b Hb.
      destruct (on a b) eqn:Eab; [|reflexivity].
      assert (Hin : In b (filter (on a) r)) by (apply filter_In; split; assumption).
      rewrite E in Hin. contradiction.
    + rewrite in_map_iff in H. destruct H as (b & <- & Hb). simpl.
      split; [reflexivity|]. right. exists b.
      rewrite <- E in Hb. apply filter_In in Hb. tauto.
  - right. rewrite in_map_iff in H. destruct H as (b & <- & Hb).
    apply filter_In in Hb. destruct Hb as [Hb Hn]. exists b. simpl.
    repeat split; try assumption.
    intros a Ha. apply negb_true_iff in Hn.
    destruct (on a b) eqn:E; [|reflexivity].
    assert (T : existsb (fun a0 => on a0 b) l = true)
      by (apply existsb_exists; exists a; split; assumption).
    congruence.
Qed.

(** The score law of every row of the main query. *)
Lemma hybrid_select_scores (w : Q)
  (r : option semantic_result * option keyword_result * case_row * chunk_row) :
  (h_final_score (hybrid_select w r) ==
   h_semantic_score (hybrid_select w r) * w
   + h_keyword_score (hybrid_select w r) * (1 - w))%Q.
Proof. destruct r as [[j c] tc]. simpl. reflexivity. Qed.

(** ** Queries without matches *)

(** C9. For a limit whose double is an INT: a keyword search with no
    keyword returns the empty result; [search_similar_embeddings] returns
    the empty result when no embedding reaches the threshold and when the
    table of embeddings is empty; the keyword search and [hybrid_search]
    return the empty result when there is no chunk; and [hybrid_search]
    with no keyword and weight 1/2 succeeds with rows whose keyword_score
    is 0 and whose final_score is half their semantic_score. *)
Theorem no_match_is_not_an_error (cosine_distance : vector -> vector -> Q)
  (db : database) (q : vector) (limit_count : Z) (threshold : Q) :
  0 <= limit_count <= 1073741823 ->
  keyword_results db [] limit_count = Ok [] /\
  ((forall ev e, In ev (embeddings_vector db) -> ev_embedding ev = Some e ->
      (1 - cosine_distance e q < threshold)%Q) ->
   search_similar_embeddings cosine_distance db q limit_count threshold = Ok []) /\
  (embeddings_vector db = [] ->
   search_similar_embeddings cosine_distance db q limit_count threshold = Ok []) /\
  (text_chunks db = [] ->
   forall keywords w,
     keyword_results db keywords limit_count = Ok [] /\
     hybrid_search cosine_distance db q keywords limit_count w = Ok []) /\
  exists rows,
    hybrid_search cosine_distance db q [] limit_count (1 # 2) = Ok rows /\
    forall r, In r rows ->
      h_keyword_score r = 0%Q /\
      (h_final_score r == (1 # 2) * h_semantic_score r)%Q.
Proof.
  intros Hlim.
  assert (Hnone : (forall ev e, In ev (embeddings_vector db) ->
                     ev_embedding ev = Some e ->
                     (1 - cosine_distance e q < threshold)%Q) ->
    search_similar_embeddings cosine_distance db q limit_count threshold = Ok []).
  { intros Hlow. rewrite search_similar_unfold by lia.
    replace (similar_ranked cosine_distance db q threshold) with
      (@nil (embedding_row * case_row * chunk_row)).
    - rewrite firstn_nil. reflexivity.
    - symmetry. apply no_In_nil. intros r Hr. apply similar_ranked_In in Hr.
      destruct Hr as (Hfrom & e & He & Hge). apply similar_from_In in Hfrom.
      destruct Hfrom as (Hev & _).
      eapply Qlt_not_le; [eapply Hlow; eassumption | exact Hge]. }
  split; [|split; [exact Hnone|split; [|split]]].
  - rewrite keyword_results_ok by exact Hlim.
    unfold keyword_pool. rewrite keyword_ranked_no_keywords, firstn_nil. reflexivity.
  - intros E. apply Hnone. rewrite E. intros ev e [].
  - intros E keywords w.
    assert (Hk : keyword_results db keywords limit_count = Ok []).
    { rewrite keyword_results_ok by exact Hlim. unfold keyword_pool.
      rewrite (keyword_ranked_no_chunks _ _ E), firstn_nil. reflexivity. }
    split; [exact Hk|].
    rewrite hybrid_search_ok by exact Hlim.
    replace (hybrid_ranked cosine_distance db q keywords limit_count w)
      with (@nil hybrid_row); [rewrite firstn_nil; reflexivity|].
    symmetry. apply no_In_nil. intros h Hh. unfold hybrid_ranked in Hh.
    rewrite order_by_In in Hh. apply hybrid_candidates_In in Hh.
    destruct Hh as (_ & _ & tc & _ & _ & Htc & _). rewrite E in Htc. exact Htc.
  - eexists. split; [apply hybrid_search_ok, Hlim|].
    intros r Hr. apply In_firstn in Hr. unfold hybrid_ranked in Hr.
    rewrite order_by_In in Hr. apply hybrid_candidates_In in Hr.
    destruct Hr as (j & c & tc & Hj & _ & _ & _ & _ & ->).
    assert (Hsnd : snd j = None).
    { unfold keyword_pool in Hj. rewrite keyword_ranked_no_keywords, firstn_nil in Hj.
      apply full_outer_join_In in Hj.
      destruct Hj as [(a & _ & _ & [[E _]|(b & [] & _)]) | (b & [] & _)].
      exact E. }
    simpl. unfold joined_keyword_score. rewrite Hsnd. simpl.
    split; [reflexivity | ring].
Qed.

Lemma no_match_is_not_an_error_witness :
  0 <= 10 <= 1073741823 /\
  keyword_results sample_db [] 10 = Ok [] /\
  ((forall ev e, In ev (embeddings_vector sample_db) -> ev_embedding ev = Some e ->
      (1 - dot_distance e sample_query < 9 # 10)%Q) ->
   search_similar_embeddings dot_distance sample_db sample_query 10 (9 # 10) = Ok []) /\
  (embeddings_vector sample_db = [] ->
   search_similar_embeddings dot_distance sample_db sample_query 10 (9 # 10) = Ok []) /\
  (text_chunks sample_db = [] ->
   forall keywords w,
     keyword_results sample_db keywords 10 = Ok [] /\
     hybrid_search dot_distance sample_db sample_query keywords 10 w = Ok []) /\
  exists rows,
    hybrid_search dot_distance sample_db sample_query [] 10 (1 # 2) = Ok rows /\
    forall r, In r rows ->
      h_keyword_score r = 0%Q /\
      (h_final_score r == (1 # 2) * h_semantic_score r)%Q.
Proof.
  split; [lia|].
  apply (no_match_is_not_an_error dot_distance sample_db sample_query 10 (9 # 10)).
  lia.
Defined.

(** On [sample_db] no similarity reaches 0.9, and the search is empty. *)
Example search_similar_below_threshold :
  search_similar_embeddings dot_distance sample_db sample_query 10 (9 # 10) = Ok [] /\
  search_similar_embeddings dot_distance empty_database sample_query 10 (7 # 10) = Ok [] /\
  hybrid_search dot_distance empty_database sample_query [txt "contrato"] 10 (7 # 10)
    = Ok [].
Proof. repeat split; vm_compute; reflexivity. Qed.

(** ** hybrid_search: score fusion and ranking *)

Lemma same_candidate_true (s : semantic_result) (k : keyword_result) :
  same_candidate s k = true <->
  sr_case_id s = kr_case_id k /\ sr_chunk_id s = kr_chunk_id k.
Proof.
  unfold same_candidate. rewrite andb_true_iff, !N.eqb_eq. tauto.
Qed.

Lemma same_candidate_false (s : semantic_result) (k : keyword_result) :
  same_candidate s k = false ->
  ~ (sr_case_id s = kr_case_id k /\ sr_chunk_id s = kr_chunk_id k).
Proof.
  intros H E. apply same_candidate_true in E. congruence.
Qed.

(** A row of the main query, read against the two pools. *)
Lemma hybrid_candidates_scores (db : database) (w : Q)
  (spool : list semantic_result) (kpool : list keyword_result) (h : hybrid_row) :
  In h (hybrid_candidates db w spool kpool) ->
  (h_final_score h == h_semantic_score h * w + h_keyword_score h * (1 - w))%Q /\
  semantic_score_from spool h /\
  keyword_score_from kpool h /\
  candidate spool kpool (h_case_id h) (h_chunk_id h).
Proof.
  intros H. apply hybrid_candidates_In in H.
  destruct H as (j & c & tc & Hj & _ & _ & _ & _ & ->).
  split; [apply hybrid_select_scores|].
  apply full_outer_join_In in Hj.
  destruct j as [js jk]. simpl in Hj.
  destruct Hj as [(s & Hs & -> & [[-> Hno] | (k & Hk & -> & Hon)])
                 | (k & Hk & -> & -> & Hno)];
    unfold semantic_score_from, keyword_score_from, candidate; simpl.
  - split; [|split].
    + left. exists s. unfold joined_semantic_score. simpl. tauto.
    + right. split; [|reflexivity].
      intros k Hk E. apply (same_candidate_false s k (Hno k Hk)).
      destruct E as [-> ->]. tauto.
    + left. exists s. tauto.
  - apply same_candidate_true in Hon. destruct Hon as [E1 E2].
    split; [|split].
    + left. exists s. unfold joined_semantic_score. simpl. tauto.
    + left. exists k. unfold joined_keyword_score. simpl.
      rewrite E1, E2. tauto.
    + left. exists s. tauto.
  - split; [|split].
    + right. split; [|reflexivity].
      intros s Hs E. apply (same_candidate_false s k (Hno s Hs)). tauto.
    + left. exists k. unfold joined_keyword_score. simpl. tauto.
    + right. exists k. tauto.
Qed.

Lemma full_outer_join_left {A B : Type} (on : A -> B -> bool)
  (l : list A) (r : list B) (a : A) :
  In a l -> exists j, In j (full_outer_join on l r) /\ fst j = Some a.
Proof.
  intros Ha. unfold full_outer_join.
  destruct (filter (on a) r) as [|m ms] eqn:E.
  - exists (Some a, None). split; [|reflexivity].
    apply in_or_app. left. rewrite in_flat_map. exists a.
    split; [exact Ha|]. rewrite E. left. reflexivity.
  - exists (Some a, Some m). split; [|reflexivity].
    apply in_or_app. left. rewrite in_flat_map. exists a.
    split; [exact Ha|]. rewrite E. left. reflexivity.
Qed.

Lemma full_outer_join_right {A B : Type} (on : A -> B -> bool)
  (l : list A) (r : list B) (b : B) :
  In b r -> exists j, In j (full_outer_join on l r) /\ snd j = Some b.
Proof.
  intros Hb. unfold full_outer_join.
  destruct (existsb (fun a => on a b) l) eqn:E.
  - apply existsb_exists in E. destruct E as (a & Ha & Hab).
    exists (Some a, Some b). split; [|reflexivity].
    apply in_or_app. left. rewrite in_flat_map. exists a. split; [exact Ha|].
    assert (Hin : In b (filter (on a) r)) by (apply filter_In; split; assumption).
    destruct (filter (on a) r) as [|m ms]; [contradiction|].
    rewrite in_map_iff. exists b. split; [reflexivity | exact Hin].
  - exists (None, Some b). split; [|reflexivity].
    apply in_or_app. right. rewrite in_map_iff. exists b.
    split; [reflexivity|]. apply filter_In. split; [exact Hb|].
    rewrite E. reflexivity.
Qed.

Lemma hybrid_row_eqb_refl (a : hybrid_row) : hybrid_row_eqb a a = true.
Proof.
  unfold hybrid_row_eqb.
  rewrite !N.eqb_refl, !Qeq_bool_refl.
  rewrite !(proj2 (text_eqb_eq _ _) eq_refl). reflexivity.
Qed.

Lemma hybrid_row_eqb_true (a b : hybrid_row) :
  hybrid_row_eqb a b = true <->
  h_case_id a = h_case_id b /\ h_case_number a = h_case_number b /\
  h_chunk_id a = h_chunk_id b /\ h_chunk_text a = h_chunk_text b /\
  (h_semantic_score a == h_semantic_score b)%Q /\
  (h_keyword_score a == h_keyword_score b)%Q /\
  (h_final_score a == h_final_score b)%Q.
Proof.
  unfold hybrid_row_eqb.
  rewrite !andb_true_iff, !N.eqb_eq, !text_eqb_eq, !Qeq_bool_iff. tauto.
Qed.

Lemma hybrid_row_eqb_trans (a b c : hybrid_row) :
  hybrid_row_eqb a b = true -> hybrid_row_eqb b c = true ->
  hybrid_row_eqb a c = true.
Proof.
  rewrite !hybrid_row_eqb_true.
  intros (A1 & A2 & A3 & A4 & A5 & A6 & A7) (B1 & B2 & B3 & B4 & B5 & B6 & B7).
  repeat split; try congruence; eapply Qeq_trans; eassumption.
Qed.

(** Every candidate that has its case and its chunk reaches the ranking. *)
Lemma candidate_is_ranked (db : database) (w : Q)
  (spool : list semantic_result) (kpool : list keyword_result)
  (case chunk : uuid) :
  candidate spool kpool case chunk ->
  (exists c, In c (cases db) /\ c_id c = case) ->
  (exists tc, In tc (text_chunks db) /\ tc_id tc = chunk) ->
  exists h, In h (hybrid_candidates db w spool kpool) /\
            h_case_id h = case /\ h_chunk_id h = chunk.
Proof.
  intros Hcand (c & Hc & Ec) (tc & Htc & Etc).
  assert (Hj : exists j, In j (full_outer_join same_candidate spool kpool) /\
                         joined_case_id j = Some case /\
                         joined_chunk_id j = Some chunk).
  { destruct Hcand as [(s & Hs & E1 & E2) | (k & Hk & E1 & E2)].
    - destruct (full_outer_join_left same_candidate spool kpool s Hs)
        as ([js jk] & Hj & Hfst).
      simpl in Hfst. subst js. exists (Some s, jk). simpl.
      rewrite E1, E2. tauto.
    - destruct (full_outer_join_right same_candidate spool kpool k Hk)
        as ([js jk] & Hj & Hsnd).
      simpl in Hsnd. subst jk. exists (js, Some k). split; [exact Hj|].
      apply full_outer_join_In in Hj. simpl in Hj.
      destruct Hj as [(s & _ & -> & [[D _] | (k' & _ & D & Hon)]) | (k' & _ & -> & _)].
      + discriminate D.
      + injection D as <-. apply same_candidate_true in Hon. simpl.
        destruct Hon as [-> ->]. rewrite E1, E2. tauto.
      + simpl. rewrite E1, E2. tauto. }
  destruct Hj as (j & Hj & Hjc & Hjt).
  assert (Hsel : In (hybrid_select w (j, c, tc))
    (map (hybrid_select w)
       (flat_map (fun jc => map (fun tc => (jc, tc))
                    (filter (fun tc => id_is (joined_chunk_id (fst jc)) (tc_id tc))
                            (text_chunks db)))
          (flat_map (fun j => map (fun c => (j, c))
                       (filter (fun c => id_is (joined_case_id j) (c_id c)) (cases db)))
             (full_outer_join same_candidate spool kpool))))).
  { apply in_map. rewrite in_flat_map. exists (j, c). split.
    - rewrite in_flat_map. exists j. split; [exact Hj|].
      rewrite in_map_iff. exists c. split; [reflexivity|].
      apply filter_In. split; [exact Hc|]. rewrite Hjc. simpl.
      apply N.eqb_eq. congruence.
    - rewrite in_map_iff. exists tc. split; [reflexivity|].
      apply filter_In. split; [exact Htc|]. simpl. rewrite Hjt. simpl.
      apply N.eqb_eq. congruence. }
  destruct (distinct_complete hybrid_row_eqb _ hybrid_row_eqb_refl
              hybrid_row_eqb_trans _ Hsel) as (h & Hh & Heq).
  exists h. split; [exact Hh|].
  apply hybrid_row_eqb_true in Heq. destruct Heq as (E1 & _ & E3 & _).
  rewrite E1, E3. simpl. rewrite Hjc, Hjt. simpl. tauto.
Qed.

Lemma hybrid_ranked_sorted (cosine_distance : vector -> vector -> Q)
  (db : database) (q : vector) (keywords : list text) (limit_count : Z) (w : Q) :
  StronglySorted final_ge
    (hybrid_ranked cosine_distance db q keywords limit_count w).
Proof.
  unfold hybrid_ranked.
  eapply StronglySorted_impl_In;
    [| apply (order_by_sorted (fun a b => desc (h_final_score a) (h_final_score b)))].
  - intros a b _ _ H. unfold final_ge. apply Qle_bool_iff, H.
  - intros a b. apply desc_total.
  - intros a b c. apply desc_trans.
Qed.

(** C1. For a limit whose double is an INT, [hybrid_search] succeeds.
    Its two pools are the first [limit_count * 2] rows of the semantic and
    of the keyword ranking. Every row it ranks is a candidate of one of the
    pools, carries the semantic and the keyword score the candidate has in
    the pools (0 where it has none), and has
    [final_score = semantic_score * w + keyword_score * (1 - w)]; every
    candidate of the union, given its case and chunk rows, is ranked. The
    result is the first [limit_count] rows of the ranking by descending
    final_score: no row left out has a higher final_score than a row
    returned. *)
Theorem hybrid_search_fuses_and_ranks (cosine_distance : vector -> vector -> Q)
  (db : database) (q : vector) (keywords : list text) (limit_count : Z) (w : Q) :
  0 <= limit_count <= 1073741823 ->
  let spool := semantic_pool cosine_distance db q limit_count in
  let kpool := keyword_pool db keywords limit_count in
  let ranked := hybrid_ranked cosine_distance db q keywords limit_count w in
  semantic_results cosine_distance db q limit_count = Ok spool /\
  keyword_results db keywords limit_count = Ok kpool /\
  Z.of_nat (length spool) <= limit_count * 2 /\
  Z.of_nat (length kpool) <= limit_count * 2 /\
  (forall h, In h ranked ->
     (h_final_score h == h_semantic_score h * w + h_keyword_score h * (1 - w))%Q /\
     semantic_score_from spool h /\ keyword_score_from kpool h /\
     candidate spool kpool (h_case_id h) (h_chunk_id h)) /\
  (forall case chunk,
     candidate spool kpool case chunk ->
     (exists c, In c (cases db) /\ c_id c = case) ->
     (exists tc, In tc (text_chunks db) /\ tc_id tc = chunk) ->
     exists h, In h ranked /\ h_case_id h = case /\ h_chunk_id h = chunk) /\
  exists rows,
    hybrid_search cosine_distance db q keywords limit_count w = Ok rows /\
    rows = firstn (Z.to_nat limit_count) ranked /\
    Z.of_nat (length rows) <= limit_count /\
    StronglySorted final_ge rows /\
    (forall a b, In a rows -> In b (skipn (Z.to_nat limit_count) ranked) ->
                 final_ge a b).
Proof.
  intros Hlim spool kpool ranked.
  split; [apply semantic_results_ok, Hlim|].
  split; [apply keyword_results_ok, Hlim|].
  split; [unfold spool, semantic_pool; rewrite length_map;
          apply firstn_length_Z; lia|].
  split; [apply firstn_length_Z; lia|].
  split; [|split].
  - intros h Hh. unfold ranked, hybrid_ranked in Hh. rewrite order_by_In in Hh.
    apply hybrid_candidates_scores in Hh. exact Hh.
  - intros case chunk Hcand Hc Htc.
    destruct (candidate_is_ranked db w spool kpool case chunk Hcand Hc Htc)
      as (h & Hh & E).
    exists h. split; [|exact E].
    unfold ranked, hybrid_ranked. rewrite order_by_In. exact Hh.
  - eexists. split; [apply hybrid_search_ok, Hlim|].
    split; [reflexivity|].
    split; [apply firstn_length_Z; lia|].
    split.
    + apply StronglySorted_firstn, hybrid_ranked_sorted.
    + apply firstn_above_skipn, hybrid_ranked_sorted.
Qed.

Lemma hybrid_search_fuses_and_ranks_witness :
  0 <= 2 <= 1073741823 /\
  let spool := semantic_pool dot_distance sample_db sample_query 2 in
  let kpool := keyword_pool sample_db [txt "contrato"] 2 in
  let ranked := hybrid_ranked dot_distance sample_db sample_query
                  [txt "contrato"] 2 (7 # 10) in
  semantic_results dot_distance sample_db sample_query 2 = Ok spool /\
  keyword_results sample_db [txt "contrato"] 2 = Ok kpool /\
  Z.of_nat (length spool) <= 2 * 2 /\
  Z.of_nat (length kpool) <= 2 * 2 /\
  (forall h, In h ranked ->
     (h_final_score h ==
      h_semantic_score h * (7 # 10) + h_keyword_score h * (1 - (7 # 10)))%Q /\
     semantic_score_from spool h /\ keyword_score_from kpool h /\
     candidate spool kpool (h_case_id h) (h_chunk_id h)) /\
  (forall case chunk,
     candidate spool kpool case chunk ->
     (exists c, In c (cases sample_db) /\ c_id c = case) ->
     (exists tc, In tc (text_chunks sample_db) /\ tc_id tc = chunk) ->
     exists h, In h ranked /\ h_case_id h = case /\ h_chunk_id h = chunk) /\
  exists rows,
    hybrid_search dot_distance sample_db sample_query [txt "contrato"] 2 (7 # 10)
      = Ok rows /\
    rows = firstn (Z.to_nat 2) ranked /\
    Z.of_nat (length rows) <= 2 /\
    StronglySorted final_ge rows /\
    (forall a b, In a rows -> In b (skipn (Z.to_nat 2) ranked) -> final_ge a b).
Proof.
  split; [lia|].
  apply (hybrid_search_fuses_and_ranks dot_distance sample_db sample_query
           [txt "contrato"] 2 (7 # 10)).
  lia.
Defined.

(** The ranking of [sample_db] for the keyword "contrato" at weight 7/10:
    chunk 1 (0.6 and 1), chunk 2 (0.8 and 0), chunk 3 (0 and 1). *)
Example hybrid_search_sample :
  db_constraints sample_db = true /\
  exists rows,
    hybrid_search dot_distance sample_db sample_query [txt "contrato"] 10 (7 # 10)
      = Ok rows /\
    map h_chunk_id rows = [1%N; 2%N; 3%N] /\
    map (fun h => Qred (h_semantic_score h)) rows = [3 # 5; 4 # 5; 0]%Q /\
    map (fun h => Qred (h_keyword_score h)) rows = [1; 0; 1]%Q /\
    map (fun h => Qred (h_final_score h)) rows = [18 # 25; 14 # 25; 3 # 10]%Q.
Proof.
  split; [vm_compute; reflexivity|].
  eexists. split; [vm_compute; reflexivity|].
  repeat split; vm_compute; reflexivity.
Qed.

(** ** LIKE as a substring test *)

Lemma like_match_percent (p s : text) :
  like_match (percent :: p) s = at_some_suffix (like_match p) s.
Proof.
  induction s as [|d s IH].
  - reflexivity.
  - simpl. simpl in IH. rewrite IH. reflexivity.
Qed.

Lemma at_some_suffix_true (f : text -> bool) (t : text) :
  (forall s, f s = true) -> at_some_suffix f t = true.
Proof.
  intros H. destruct t; simpl; rewrite H; reflexivity.
Qed.

Lemma at_some_suffix_end (f : text -> bool) (t : text) :
  f [] = true -> at_some_suffix f t = true.
Proof.
  intros H. induction t as [|d t IH]; simpl.
  - rewrite H. reflexivity.
  - rewrite IH. apply orb_true_r.
Qed.

Lemma is_prefix_spec (k t : text) :
  is_prefix k t = true <-> exists post, t = k ++ post.
Proof.
  revert t. induction k as [|c k IH]; intros t; simpl.
  - split; [intros _; exists t; reflexivity | reflexivity].
  - destruct t as [|d t].
    + split; [discriminate | intros (post & E); discriminate E].
    + unfold ascii_eqb. rewrite andb_true_iff, Ascii.eqb_eq, IH. split.
      * intros (-> & post & ->). exists post. reflexivity.
      * intros (post & E). injection E as -> ->. split; [reflexivity|].
        exists post. reflexivity.
Qed.

Lemma contains_spec (k t : text) :
  contains k t = true <-> exists pre post, t = pre ++ k ++ post.
Proof.
  unfold contains. induction t as [|d t IH]; simpl.
  - rewrite orb_false_r, is_prefix_spec. split.
    + intros (post & E). exists [], post. exact E.
    + intros (pre & post & E). destruct pre as [|x pre]; [|discriminate E].
      exists post. exact E.
  - rewrite orb_true_iff, IH, is_prefix_spec. split.
    + intros [(post & E) | (pre & post & E)].
      * exists [], post. exact E.
      * exists (d :: pre), post. simpl. rewrite E. reflexivity.
    + intros (pre & post & E). destruct pre as [|x pre]; simpl in E.
      * left. exists post. exact E.
      * right. injection E as _ E. exists pre, post. exact E.
Qed.

(** The empty keyword matches every text. *)
Lemma keyword_matches_empty (chunk_text : text) : keyword_matches chunk_text [] = true.
Proof.
  unfold keyword_matches, keyword_pattern.
  change (lower [] ++ [percent]) with [percent].
  rewrite like_match_percent. apply at_some_suffix_true.
  intros s. rewrite like_match_percent. apply at_some_suffix_end. reflexivity.
Qed.

(** ** The empty keyword *)

Lemma keyword_group_of_row (rows : list (document_row * chunk_row * text))
  (r : document_row * chunk_row * text) :
  In r rows ->
  exists g, In g (keyword_groups rows) /\ fst g = keyword_key r /\ In (snd r) (snd g).
Proof.
  intros Hr. unfold keyword_groups.
  assert (Hk : In (keyword_key r) (map keyword_key rows)) by (apply in_map, Hr).
  destruct (distinct_complete group_key_eqb (map keyword_key rows)) with (x := keyword_key r)
    as (k & Hin & Heq); try assumption.
  - intros a. apply group_key_eqb_eq. reflexivity.
  - intros a b c H1 H2. apply group_key_eqb_eq in H1, H2. apply group_key_eqb_eq.
    congruence.
  - apply group_key_eqb_eq in Heq. subst k.
    eexists. split; [apply in_map_iff; eexists; split; [reflexivity | exact Hin]|].
    simpl. split; [reflexivity|].
    apply in_map. apply filter_In. split; [exact Hr|].
    apply group_key_eqb_eq. reflexivity.
Qed.

Lemma count_distinct_positive (keywords : list text) (k : text) :
  In k keywords -> 1 <= count_distinct keywords.
Proof.
  unfold count_distinct. destruct keywords as [|x l]; [intros []|].
  intros _. simpl. lia.
Qed.

Lemma div_float_at_least (n : Z) (keywords : list text) (k : text) :
  In k keywords -> 1 <= n ->
  exists s, div_float n (array_length keywords) = Some s /\
            (0 < s)%Q /\
            (1 / inject_Z (Z.of_nat (length keywords)) <= s)%Q.
Proof.
  intros Hk Hn. destruct keywords as [|x l]; [destruct Hk|].
  unfold array_length, div_float. simpl option_map.
  set (len := Z.of_nat (length (x :: l))).
  assert (Hlen : 0 < len) by (unfold len; simpl; lia).
  assert (Hinv : (0 < / inject_Z len)%Q).
  { apply Qinv_lt_0_compat. change 0%Q with (inject_Z 0).
    rewrite <- Zlt_Qlt. exact Hlen. }
  eexists. split; [reflexivity|]. unfold Qdiv. split.
  - apply Qmult_lt_0_compat; [|exact Hinv].
    change 0%Q with (inject_Z 0). rewrite <- Zlt_Qlt. lia.
  - apply Qmult_le_compat_r; [|apply Qlt_le_weak, Hinv].
    change 1%Q with (inject_Z 1). rewrite <- Zle_Qle. exact Hn.
Qed.

(** A chunk of a document that matches a keyword is ranked by the keyword
    search, with a positive score of at least one over the number of
    keywords. *)
Lemma matching_chunk_is_ranked (db : database) (keywords : list text)
  (d : document_row) (tc : chunk_row) (keyword : text) :
  In d (documents db) -> In tc (text_chunks db) -> tc_document_id tc = d_id d ->
  In keyword keywords -> keyword_matches (tc_chunk_text tc) keyword = true ->
  exists kr s,
    In kr (keyword_ranked db keywords) /\
    kr_case_id kr = d_case_id d /\ kr_chunk_id kr = tc_id tc /\
    kr_keyword_score kr = Some s /\ (0 < s)%Q /\
    (1 / inject_Z (Z.of_nat (length keywords)) <= s)%Q.
Proof.
  intros Hd Htc Hlink Hkw Hm.
  assert (Hr : In (d, tc, keyword) (keyword_from db keywords))
    by (apply keyword_from_In; simpl; tauto).
  destruct (keyword_group_of_row _ _ Hr) as ([k l] & Hg & Hkey & Hin).
  simpl in Hkey, Hin. subst k. pose proof (count_distinct_positive _ _ Hin) as Hcount.
  destruct (div_float_at_least _ _ _ Hkw Hcount) as (s & Hs & Hpos & Hle).
  eexists. exists s. split.
  - unfold keyword_ranked. rewrite order_by_In. apply in_map.
    apply filter_In. split; [exact Hg|]. apply Z.ltb_lt. simpl. lia.
  - simpl. tauto.
Qed.

(** C10, as stated, fails: with three chunks and limit 1 the pool keeps
    two rows, and chunk 3, which matches the empty keyword like the others,
    is not in it. *)
Lemma empty_keyword_pool_counterexample :
  db_constraints tie_db = true /\
  (exists pool, keyword_results tie_db [txt ""] 1 = Ok pool /\
                map kr_chunk_id pool = [1%N; 2%N]) /\
  ~ every_chunk_in_keyword_pool tie_db [txt ""] 1.
Proof.
  split; [vm_compute; reflexivity|].
  split; [eexists; split; vm_compute; reflexivity|].
  intros H.
  destruct (H {| d_id := 10%N; d_case_id := 1%N |}
              {| tc_id := 3%N; tc_document_id := 10%N;
                 tc_chunk_text := txt "acao de despejo" |})
    as (pool & kr & Hok & Hin & Hid).
  - simpl. auto.
  - simpl. auto.
  - reflexivity.
  - vm_compute in Hok. injection Hok as <-. simpl in Hid.
    destruct Hin as [<-|[<-|[]]]; discriminate Hid.
Qed.

(** C10, amended. When the keyword list holds the empty string, every
    chunk of a document matches it and is ranked by the keyword search with
    a positive score of at least 1 / (number of keywords); the pool holds
    the first [limit_count * 2] ranked rows, so the chunk is in the pool
    whenever the ranking has no more rows than that. *)
Theorem empty_keyword_matches_every_chunk (db : database) (keywords : list text)
  (d : document_row) (tc : chunk_row) :
  In [] keywords ->
  In d (documents db) -> In tc (text_chunks db) -> tc_document_id tc = d_id d ->
  keyword_matches (tc_chunk_text tc) [] = true /\
  exists kr s,
    In kr (keyword_ranked db keywords) /\
    kr_case_id kr = d_case_id d /\ kr_chunk_id kr = tc_id tc /\
    kr_keyword_score kr = Some s /\ (0 < s)%Q /\
    (1 / inject_Z (Z.of_nat (length keywords)) <= s)%Q /\
    forall limit_count,
      0 <= limit_count <= 1073741823 ->
      Z.of_nat (length (keyword_ranked db keywords)) <= limit_count * 2 ->
      exists pool, keyword_results db keywords limit_count = Ok pool /\ In kr pool.
Proof.
  intros Hkw Hd Htc Hlink.
  split; [apply keyword_matches_empty|].
  destruct (matching_chunk_is_ranked db keywords d tc [] Hd Htc Hlink Hkw
              (keyword_matches_empty _))
    as (kr & s & Hin & E1 & E2 & Hs & Hpos & Hle).
  exists kr, s. repeat split; try assumption.
  intros limit_count Hlim Hlen. eexists.
  split; [apply keyword_results_ok, Hlim|].
  unfold keyword_pool. rewrite firstn_all2 by lia. exact Hin.
Qed.

Lemma empty_keyword_matches_every_chunk_witness :
  In [] [txt ""; txt "contrato"] /\
  In {| d_id := 10%N; d_case_id := 1%N |} (documents sample_db) /\
  In {| tc_id := 2%N; tc_document_id := 10%N;
        tc_chunk_text := txt "acao de despejo por falta de pagamento" |}
     (text_chunks sample_db) /\
  keyword_matches (txt "acao de despejo por falta de pagamento") [] = true /\
  exists kr s,
    In kr (keyword_ranked sample_db [txt ""; txt "contrato"]) /\
    kr_case_id kr = 1%N /\ kr_chunk_id kr = 2%N /\
    kr_keyword_score kr = Some s /\ (0 < s)%Q /\
    (1 / inject_Z (Z.of_nat (length [txt ""; txt "contrato"])) <= s)%Q /\
    forall limit_count,
      0 <= limit_count <= 1073741823 ->
      Z.of_nat (length (keyword_ranked sample_db [txt ""; txt "contrato"]))
        <= limit_count * 2 ->
      exists pool,
        keyword_results sample_db [txt ""; txt "contrato"] limit_count = Ok pool /\
        In kr pool.
Proof.
  assert (H1 : In [] [txt ""; txt "contrato"]) by (left; reflexivity).
  assert (H2 : In {| d_id := 10%N; d_case_id := 1%N |} (documents sample_db))
    by (left; reflexivity).
  assert (H3 : In {| tc_id := 2%N; tc_document_id := 10%N;
                     tc_chunk_text := txt "acao de despejo por falta de pagamento" |}
                  (text_chunks sample_db))
    by (right; left; reflexivity).
  split; [exact H1|]. split; [exact H2|]. split; [exact H3|].
  apply (empty_keyword_matches_every_chunk sample_db [txt ""; txt "contrato"]
           {| d_id := 10%N; d_case_id := 1%N |}
           {| tc_id := 2%N; tc_document_id := 10%N;
              tc_chunk_text := txt "acao de despejo por falta de pagamento" |}
           H1 H2 H3).
  reflexivity.
Defined.

(** ** The weights 1 and 0 *)

(** C2, as stated, fails. On [sample_db] with the keywords "contrato" and
    "locacao", whose three chunks get three different scores either way:
    at weight 1 the result ends with chunk 3, a keyword candidate that has
    no embedding, which [search_similar_embeddings] returns for no
    threshold; at weight 0 it ends with chunk 2, a semantic candidate that
    matches no keyword, which the keyword search does not return. *)
Lemma weight_laws_counterexample :
  db_constraints sample_db = true /\
  (exists rows,
     hybrid_search dot_distance sample_db sample_query
       [txt "contrato"; txt "locacao"] 10 1 = Ok rows /\
     map h_chunk_id rows = [2%N; 1%N; 3%N] /\
     forall threshold similar,
       search_similar_embeddings dot_distance sample_db sample_query 10 threshold
         = Ok similar ->
       map s_chunk_id similar <> map h_chunk_id rows) /\
  (exists rows,
     hybrid_search dot_distance sample_db sample_query
       [txt "contrato"; txt "locacao"] 10 0 = Ok rows /\
     map h_chunk_id rows = [1%N; 3%N; 2%N] /\
     forall limit_count lexical,
       keyword_results sample_db [txt "contrato"; txt "locacao"] limit_count
         = Ok lexical ->
       map kr_chunk_id lexical <> map h_chunk_id rows).
Proof.
  split; [vm_compute; reflexivity|]. split.
  - eexists. split; [vm_compute; reflexivity|]. split; [reflexivity|].
    intros threshold similar Hok E.
    assert (Hin : In 3%N (map s_chunk_id similar))
      by (rewrite E; simpl; auto).
    rewrite in_map_iff in Hin. destruct Hin as (r & Hid & Hr).
    destruct (search_similar_In _ _ _ _ _ _ _ Hok Hr) as (ev & Hev & Hc).
    rewrite Hid in Hc. simpl in Hev.
    destruct Hev as [<-|[<-|[]]]; discriminate Hc.
  - eexists. split; [vm_compute; reflexivity|]. split; [reflexivity|].
    intros limit_count lexical Hok E.
    assert (Hin : In 2%N (map kr_chunk_id lexical))
      by (rewrite E; simpl; auto).
    rewrite in_map_iff in Hin. destruct Hin as (kr & Hid & Hkr).
    eapply keyword_results_In in Hkr; [|exact Hok].
    apply keyword_ranked_In in Hkr.
    destruct Hkr as (d & tc & kw & _ & Htc & Hkw & _ & Hm & _ & Hc).
    rewrite Hid in Hc.
    simpl in Htc. destruct Htc as [<-|[<-|[<-|[]]]]; try discriminate Hc.
    destruct Hkw as [<-|[<-|[]]]; vm_compute in Hm; discriminate Hm.
Qed.

(** ** Keys and joins on keys *)

Lemma all_distinct_NoDup (ids : list uuid) : all_distinct ids = true -> NoDup ids.
Proof.
  induction ids as [|x rest IH]; simpl; intros H; constructor.
  - apply andb_true_iff in H. destruct H as [H _].
    apply negb_true_iff in H. intros Hin.
    assert (T : existsb (N.eqb x) rest = true)
      by (apply existsb_exists; exists x; split; [exact Hin | apply N.eqb_refl]).
    congruence.
  - apply IH. apply andb_true_iff in H. tauto.
Qed.

Lemma key_join_single {A : Type} (key : A -> uuid) (l : list A) (x : A) :
  NoDup (map key l) -> In x l ->
  filter (fun y => N.eqb (key x) (key y)) l = [x].
Proof.
  induction l as [|a l IH]; simpl; intros Hnd Hin; [contradiction|].
  inversion Hnd as [|? ? Hfresh Hrest]; subst.
  destruct Hin as [->|Hin].
  - rewrite N.eqb_refl. f_equal. apply filter_none.
    intros y Hy. apply N.eqb_neq. intros E. apply Hfresh. rewrite E.
    apply in_map, Hy.
  - destruct (N.eqb_spec (key x) (key a)) as [E|E].
    + exfalso. apply Hfresh. rewrite <- E. apply in_map, Hin.
    + apply IH; assumption.
Qed.

Lemma flat_map_single {A B : Type} (f : A -> list B) (g : A -> B) (l : list A) :
  (forall x, In x l -> f x = [g x]) -> flat_map f l = map g l.
Proof.
  induction l as [|a l IH]; simpl; intros H; [reflexivity|].
  rewrite (H a) by (left; reflexivity). simpl. f_equal. apply IH.
  intros x Hx. apply H. right. exact Hx.
Qed.

Lemma insert_row_map {A B : Type} (leb : B -> B -> bool) (f : A -> B)
  (x : A) (l : list A) :
  insert_row leb (f x) (map f l)
  = map f (insert_row (fun a b => leb (f a) (f b)) x l).
Proof.
  induction l as [|a l IH]; simpl; [reflexivity|].
  destruct (leb (f x) (f a)); simpl; [reflexivity|]. rewrite IH. reflexivity.
Qed.

Lemma order_by_map {A B : Type} (leb : B -> B -> bool) (f : A -> B) (l : list A) :
  order_by leb (map f l) = map f (order_by (fun a b => leb (f a) (f b)) l).
Proof.
  induction l as [|a l IH]; simpl; [reflexivity|].
  rewrite IH. apply insert_row_map.
Qed.

(** What [db_constraints] gives. *)
Lemma db_constraints_keys (db : database) :
  db_constraints db = true ->
  NoDup (map c_id (cases db)) /\
  NoDup (map tc_id (text_chunks db)) /\
  NoDup (map ev_chunk_id (embeddings_vector db)) /\
  (forall d, In d (documents db) ->
     exists c, In c (cases db) /\ c_id c = d_case_id d) /\
  (forall ev, In ev (embeddings_vector db) ->
     (exists c, In c (cases db) /\ c_id c = ev_case_id ev) /\
     (exists tc, In tc (text_chunks db) /\ tc_id tc = ev_chunk_id ev)).
Proof.
  unfold db_constraints. rewrite !andb_true_iff.
  intros [[[[[[[H1 _] H3] _] H5] H6] _] H8].
  repeat split; try (apply all_distinct_NoDup; assumption).
  - intros d Hd. rewrite forallb_forall in H6. specialize (H6 d Hd).
    apply existsb_exists in H6. destruct H6 as (c & Hc & E).
    apply N.eqb_eq in E. exists c. tauto.
  - rewrite forallb_forall in H8. specialize (H8 ev H).
    rewrite !andb_true_iff in H8. destruct H8 as [[H8 _] _].
    apply existsb_exists in H8. destruct H8 as (c & Hc & E).
    apply N.eqb_eq in E. exists c. tauto.
  - rewrite forallb_forall in H8. specialize (H8 ev H).
    rewrite !andb_true_iff in H8. destruct H8 as [[_ H8] _].
    apply existsb_exists in H8. destruct H8 as (tc & Htc & E).
    apply N.eqb_eq in E. exists tc. tauto.
Qed.

Lemma the_case_join (db : database) (id : uuid) :
  NoDup (map c_id (cases db)) ->
  (exists c, In c (cases db) /\ c_id c = id) ->
  filter (fun c => N.eqb id (c_id c)) (cases db) = [the_case db id].
Proof.
  intros Hnd (c & Hc & <-). unfold the_case.
  rewrite (key_join_single c_id (cases db) c Hnd Hc). reflexivity.
Qed.

Lemma the_chunk_join (db : database) (id : uuid) :
  NoDup (map tc_id (text_chunks db)) ->
  (exists tc, In tc (text_chunks db) /\ tc_id tc = id) ->
  filter (fun tc => N.eqb id (tc_id tc)) (text_chunks db) = [the_chunk db id].
Proof.
  intros Hnd (tc & Htc & <-). unfold the_chunk.
  rewrite (key_join_single tc_id (text_chunks db) tc Hnd Htc). reflexivity.
Qed.

(** With the keys in place the joins of [search_similar_embeddings] pair
    every embedding with its case and its chunk. *)
Lemma similar_from_keyed (db : database) :
  db_constraints db = true ->
  similar_from db
  = map (fun ev => (ev, the_case db (ev_case_id ev), the_chunk db (ev_chunk_id ev)))
        (embeddings_vector db).
Proof.
  intros Hc. destruct (db_constraints_keys db Hc) as (K1 & K2 & _ & _ & K5).
  unfold similar_from. apply flat_map_single. intros ev Hev.
  destruct (K5 ev Hev) as [Hcase Hchunk].
  rewrite (the_case_join db _ K1 Hcase). simpl.
  rewrite (the_chunk_join db _ K2 Hchunk). reflexivity.
Qed.

(** ** Keys of the keyword ranking *)

Lemma prefix_keys_unique {A K : Type} (key : A -> K) (n : nat) (rows : list A) :
  NoDup (map key rows) -> NoDup (map key (firstn n rows)).
Proof.
  intros H. rewrite <- (firstn_skipn n rows), map_app in H.
  apply NoDup_app_remove_r in H. exact H.
Qed.

Lemma distinct_unique {A : Type} (eqb : A -> A -> bool) (rows : list A) :
  (forall a, eqb a a = true) -> NoDup (distinct eqb rows).
Proof.
  intros Hrefl. induction rows as [|x rest IH]; simpl; constructor.
  - intros Hin. apply filter_In in Hin. destruct Hin as [_ Hneg].
    rewrite Hrefl in Hneg. discriminate Hneg.
  - apply NoDup_filter, IH.
Qed.

Lemma keyword_ranked_keys_unique (db : database) (keywords : list text) :
  NoDup (map (fun k => (kr_case_id k, kr_chunk_id k)) (keyword_ranked db keywords)).
Proof.
  unfold keyword_ranked.
  eapply Permutation_NoDup;
    [apply Permutation_map, Permutation_sym, order_by_perm|].
  rewrite map_map. simpl.
  match goal with
  | |- NoDup (map ?f (filter ?p ?G)) =>
      assert (Hext : forall g, f g = fst g) by (intros [[c t] l]; reflexivity);
      rewrite (map_ext _ _ Hext)
  end.
  unfold keyword_groups.
  match goal with
  | |- NoDup (map fst (filter ?p (map ?mk ?D))) =>
      assert (HD : NoDup (map fst (map mk D)))
  end.
  { rewrite map_map. simpl. rewrite map_id. apply distinct_unique.
    intros a. apply group_key_eqb_eq. reflexivity. }
  revert HD.
  match goal with
  | |- NoDup (map fst ?G) -> NoDup (map fst (filter ?p ?G)) =>
      generalize G as groups
  end.
  induction groups as [|g groups IH]; simpl; intros Hnd; [constructor|].
  inversion Hnd as [|? ? Hfresh Hrest]; subst.
  match goal with
  | |- context [if ?b then _ else _] => destruct b
  end; simpl; [|apply IH, Hrest].
  constructor; [|apply IH, Hrest].
  intros Hin. apply Hfresh. rewrite in_map_iff in *.
  destruct Hin as (x & E & Hx). apply filter_In in Hx. exists x. tauto.
Qed.

Lemma key_determines_row {A : Type} (key : A -> uuid) (l : list A) (a b : A) :
  NoDup (map key l) -> In a l -> In b l -> key a = key b -> a = b.
Proof.
  induction l as [|x l IH]; simpl; intros Hnd Ha Hb E; [contradiction|].
  inversion Hnd as [|? ? Hfresh Hrest]; subst.
  destruct Ha as [->|Ha], Hb as [->|Hb].
  - reflexivity.
  - exfalso. apply Hfresh. rewrite E. apply in_map, Hb.
  - exfalso. apply Hfresh. rewrite <- E. apply in_map, Ha.
  - apply IH; assumption.
Qed.

Lemma distinct_text_In (l : list text) (x : text) :
  In x (distinct text_eqb l) <-> In x l.
Proof.
  split; [apply distinct_In|]. intros H.
  destruct (distinct_complete text_eqb l) with (x := x) as (y & Hy & E).
  - intros a. apply text_eqb_eq. reflexivity.
  - intros a b c H1 H2. apply text_eqb_eq in H1, H2. apply text_eqb_eq. congruence.
  - exact H.
  - apply text_eqb_eq in E. subst y. exact Hy.
Qed.

Lemma db_constraints_documents (db : database) :
  db_constraints db = true -> NoDup (map d_id (documents db)).
Proof.
  unfold db_constraints. rewrite !andb_true_iff.
  intros [[[[[[[_ H2] _] _] _] _] _] _]. apply all_distinct_NoDup, H2.
Qed.

Lemma finer_keys_unique {A K K' : Type} (fine : A -> K) (coarse : A -> K')
  (rows : list A) :
  (forall x y, In x rows -> In y rows -> coarse x = coarse y -> fine x = fine y) ->
  NoDup (map fine rows) -> NoDup (map coarse rows).
Proof.
  induction rows as [|a rows IH]; simpl; intros Hdet Hnd; [constructor|].
  inversion Hnd as [|? ? Hfresh Hrest]; subst. constructor.
  - intros Hin. apply Hfresh. rewrite in_map_iff in *.
    destruct Hin as (x & E & Hx). exists x. split; [|exact Hx].
    apply Hdet; auto.
  - apply IH; [|exact Hrest]. intros x y Hx Hy. apply Hdet; auto.
Qed.

(** With the keys in place a chunk has one row in the keyword ranking. *)
Lemma keyword_ranked_chunks_unique (db : database) (keywords : list text) :
  db_constraints db = true ->
  NoDup (map kr_chunk_id (keyword_ranked db keywords)).
Proof.
  intros Hc. destruct (db_constraints_keys db Hc) as (_ & K2 & _).
  pose proof (db_constraints_documents db Hc) as Kd.
  apply (finer_keys_unique (fun k => (kr_case_id k, kr_chunk_id k)));
    [|apply keyword_ranked_keys_unique].
  intros x y Hx Hy E.
  apply keyword_ranked_In in Hx, Hy.
  destruct Hx as (d1 & tc1 & _ & Hd1 & Htc1 & _ & L1 & _ & C1 & T1).
  destruct Hy as (d2 & tc2 & _ & Hd2 & Htc2 & _ & L2 & _ & C2 & T2).
  assert (tc1 = tc2) by (eapply key_determines_row; eauto; congruence).
  subst tc2.
  assert (d1 = d2) by (eapply key_determines_row; eauto; congruence).
  subst d2. rewrite C1, C2, E. reflexivity.
Qed.

(** The keyword ranking of [sample_db] for "contrato" and "despejo": every
    chunk holds one of the two keywords. *)
Example keyword_results_sample :
  exists pool,
    keyword_results sample_db [txt "contrato"; txt "despejo"] 10 = Ok pool /\
    map kr_chunk_id pool = [1%N; 2%N; 3%N] /\
    map kr_keyword_score pool = [Some (1 # 2); Some (1 # 2); Some (1 # 2)]%Q.
Proof.
  eexists. split; [vm_compute; reflexivity|]. split; reflexivity.
Qed.

(** ** The keyword search and the metacharacters of LIKE *)

(** C5. The keyword query builds its LIKE pattern from the keyword as it
    is, so [%] and [_] in a keyword are wildcards. The chunk
    "Multa de 500 reais" contains neither "50%" nor "5_0", in whatever
    case, and the keyword search returns it for each of them with the
    score 1, where the claim has only chunks that contain a keyword.
    The keyword "501", which the chunk does not contain either, returns
    nothing. *)
Theorem keyword_wildcard_returned :
  db_constraints fine_db = true /\
  map tc_chunk_text (text_chunks fine_db) = [txt "Multa de 500 reais"] /\
  contains_keyword (txt "Multa de 500 reais") (txt "50%") = false /\
  contains_keyword (txt "Multa de 500 reais") (txt "5_0") = false /\
  contains_keyword (txt "Multa de 500 reais") (txt "501") = false /\
  keyword_results fine_db [txt "50%"] 10
  = Ok [ {| kr_case_id := 1%N; kr_chunk_id := 1%N; kr_keyword_score := Some 1%Q |} ] /\
  keyword_results fine_db [txt "5_0"] 10
  = Ok [ {| kr_case_id := 1%N; kr_chunk_id := 1%N; kr_keyword_score := Some 1%Q |} ] /\
  keyword_results fine_db [txt "501"] 10 = Ok [].
Proof. repeat split; vm_compute; reflexivity. Qed.

(** ** The weights 1 and 0: what the rankings share *)

Lemma higher_score_first {A : Type} (score : A -> Q) (rows : list A) (a b : A) :
  StronglySorted (fun x y => (score y <= score x)%Q) rows ->
  In a rows -> In b rows -> (score b < score a)%Q -> before a b rows.
Proof.
  intros Hs Ha Hb Hlt.
  destruct (In_split_two a b rows Ha Hb) as [E|[H|H]].
  - subst b. exfalso. eapply Qlt_irrefl, Hlt.
  - exact H.
  - apply (before_sorted _ _ _ _ Hs) in H. simpl in H.
    exfalso. eapply Qlt_not_le; eassumption.
Qed.

Lemma higher_similarity_first (rows : list similar_row) (a b : similar_row) :
  StronglySorted similarity_ge rows ->
  In a rows -> In b rows -> similarity_gt a b -> before a b rows.
Proof.
  intros Hs Ha Hb Hgt.
  destruct (In_split_two a b rows Ha Hb) as [E|[H|H]].
  - subst b. unfold similarity_gt in Hgt.
    destruct (s_similarity a); [|contradiction].
    exfalso. eapply Qlt_irrefl, Hgt.
  - exact H.
  - apply (before_sorted similarity_ge) in H; [|exact Hs].
    unfold similarity_gt in Hgt. unfold similarity_ge in H.
    destruct (s_similarity a), (s_similarity b); try contradiction.
    exfalso. eapply Qlt_not_le; eassumption.
Qed.

Lemma higher_keyword_score_first (rows : list keyword_result) (a b : keyword_result)
  (x y : Q) :
  StronglySorted keyword_score_ge rows ->
  In a rows -> In b rows ->
  kr_keyword_score a = Some x -> kr_keyword_score b = Some y -> (y < x)%Q ->
  before a b rows.
Proof.
  intros Hs Ha Hb Ea Eb Hlt.
  destruct (In_split_two a b rows Ha Hb) as [E|[H|H]].
  - subst b. rewrite Ea in Eb. injection Eb as <-.
    exfalso. eapply Qlt_irrefl, Hlt.
  - exact H.
  - apply (before_sorted keyword_score_ge) in H; [|exact Hs].
    unfold keyword_score_ge in H. rewrite Ea, Eb in H.
    exfalso. eapply Qlt_not_le; eassumption.
Qed.

Lemma keyword_ranked_score (db : database) (keywords : list text) (kr : keyword_result) :
  In kr (keyword_ranked db keywords) -> exists s, kr_keyword_score kr = Some s.
Proof.
  intros H. pose proof (keyword_ranked_In _ _ _ H) as (_ & _ & kw & _ & _ & Hkw & _).
  unfold keyword_ranked in H. rewrite order_by_In, in_map_iff in H.
  destruct H as (g & <- & _). simpl.
  destruct keywords as [|k ks]; [destruct Hkw|].
  unfold array_length, div_float. simpl. eexists. reflexivity.
Qed.

Lemma keyword_ranked_sorted (db : database) (keywords : list text) :
  StronglySorted
    (fun a b => desc_nulls_first (kr_keyword_score a) (kr_keyword_score b) = true)
    (keyword_ranked db keywords).
Proof.
  unfold keyword_ranked. apply order_by_sorted.
  - intros a b. unfold desc_nulls_first.
    destruct (asc_nulls_last_total (kr_keyword_score a) (kr_keyword_score b)); tauto.
  - intros a b c. unfold desc_nulls_first. intros H1 H2.
    eapply asc_nulls_last_trans; eassumption.
Qed.

Lemma keyword_ranked_score_sorted (db : database) (keywords : list text) :
  StronglySorted keyword_score_ge (keyword_ranked db keywords).
Proof.
  eapply StronglySorted_impl_In; [|apply keyword_ranked_sorted].
  intros a b Ha Hb Hle. unfold keyword_score_ge.
  destruct (keyword_ranked_score _ _ _ Ha) as (sa & Ea).
  destruct (keyword_ranked_score _ _ _ Hb) as (sb & Eb).
  unfold desc_nulls_first in Hle. rewrite Ea, Eb in Hle. rewrite Ea, Eb.
  simpl in Hle. apply Qle_bool_iff, Hle.
Qed.

(** What a successful call of [search_similar_embeddings] returns: rows in
    descending order of similarity, each the row of an embedding of the
    table, with the similarity of that embedding. *)
Lemma search_similar_rows (cosine_distance : vector -> vector -> Q)
  (db : database) (q : vector) (limit_count : Z) (threshold : Q)
  (rows : list similar_row) :
  search_similar_embeddings cosine_distance db q limit_count threshold = Ok rows ->
  StronglySorted similarity_ge rows /\
  forall r, In r rows ->
    exists ev x, In ev (embeddings_vector db) /\ s_chunk_id r = ev_chunk_id ev /\
                 one_minus (distance cosine_distance q ev) = Some x /\
                 s_similarity r = Some x.
Proof.
  intros Hok.
  assert (Hlim : 0 <= limit_count).
  { destruct (Z.lt_ge_cases limit_count 0) as [H|H]; [|exact H].
    unfold search_similar_embeddings, sql_limit, bind in Hok.
    destruct (Z.ltb_spec limit_count 0); [discriminate Hok | lia]. }
  rewrite (search_similar_unfold cosine_distance db q threshold limit_count Hlim) in Hok.
  injection Hok as <-. split; [apply search_similar_sorted|].
  intros r Hr. rewrite in_map_iff in Hr. destruct Hr as ([[ev c] tc] & <- & Hin).
  apply In_firstn in Hin. apply similar_ranked_In in Hin.
  destruct Hin as (Hfrom & e & He & _).
  apply similar_from_In in Hfrom. simpl in Hfrom, He.
  exists ev. eexists. split; [tauto|]. split; [reflexivity|].
  simpl. unfold one_minus, distance. rewrite He. simpl. split; reflexivity.
Qed.

(** A row of [hybrid_search] with a semantic_score other than 0 has the
    similarity of an embedding of its chunk as semantic_score. *)
Lemma hybrid_semantic_row (cosine_distance : vector -> vector -> Q)
  (db : database) (q : vector) (keywords : list text) (limit_count : Z) (w : Q)
  (rows : list hybrid_row) (a : hybrid_row) :
  hybrid_search cosine_distance db q keywords limit_count w = Ok rows ->
  In a rows -> ~ (h_semantic_score a == 0)%Q ->
  exists ev, In ev (embeddings_vector db) /\ ev_chunk_id ev = h_chunk_id a /\
             one_minus (distance cosine_distance q ev) = Some (h_semantic_score a).
Proof.
  intros Hok Ha Hnz.
  destruct (hybrid_search_In _ _ _ _ _ _ _ _ Hok Ha) as (sr & kr & Hs & _ & Hc).
  apply hybrid_candidates_scores in Hc. destruct Hc as (_ & Hsem & _).
  destruct Hsem as [(s & Hin & _ & Echunk & Escore) | [_ E]].
  - destruct (semantic_results_In _ _ _ _ _ _ Hs Hin) as (ev & Hev & ->).
    simpl in Echunk, Escore. exists ev. split; [exact Hev|]. split; [exact Echunk|].
    destruct (one_minus (distance cosine_distance q ev)) as [x|].
    + simpl in Escore. rewrite Escore. reflexivity.
    + simpl in Escore. exfalso. apply Hnz. rewrite Escore. reflexivity.
  - exfalso. apply Hnz. rewrite E. reflexivity.
Qed.

(** A row of [hybrid_search] with a keyword_score other than 0 has the
    score of a row of the keyword ranking for its chunk. *)
Lemma hybrid_keyword_row (cosine_distance : vector -> vector -> Q)
  (db : database) (q : vector) (keywords : list text) (limit_count : Z) (w : Q)
  (rows : list hybrid_row) (a : hybrid_row) :
  hybrid_search cosine_distance db q keywords limit_count w = Ok rows ->
  In a rows -> ~ (h_keyword_score a == 0)%Q ->
  exists k, In k (keyword_ranked db keywords) /\ kr_chunk_id k = h_chunk_id a /\
            kr_keyword_score k = Some (h_keyword_score a).
Proof.
  intros Hok Ha Hnz.
  destruct (hybrid_search_In _ _ _ _ _ _ _ _ Hok Ha) as (sr & kr & _ & Hk & Hc).
  apply hybrid_candidates_scores in Hc. destruct Hc as (_ & _ & Hkey & _).
  destruct Hkey as [(k & Hin & _ & Echunk & Escore) | [_ E]].
  - apply (keyword_results_In _ _ _ _ _ Hk) in Hin.
    exists k. split; [exact Hin|]. split; [exact Echunk|].
    destruct (keyword_ranked_score _ _ _ Hin) as (x & Ex).
    rewrite Ex in Escore |- *. simpl in Escore. rewrite Escore. reflexivity.
  - exfalso. apply Hnz. rewrite E. reflexivity.
Qed.

Section SharedRanking.

Variable cosine_distance : vector -> vector -> Q.
Variables (db : database) (q : vector) (keywords : list text) (limit_count : Z).
Variable rows : list hybrid_row.

Hypothesis keys : db_constraints db = true.

Lemma semantic_ranking_shared (w : Q) (n : Z) (threshold : Q)
  (similar : list similar_row) :
  hybrid_search cosine_distance db q keywords limit_count w = Ok rows ->
  StronglySorted (fun a b => (h_semantic_score b <= h_semantic_score a)%Q) rows ->
  search_similar_embeddings cosine_distance db q n threshold = Ok similar ->
  same_semantic_ranking rows similar.
Proof.
  intros Hok Hsorted Hsim.
  destruct (search_similar_rows _ _ _ _ _ _ Hsim) as [Hs Hrows].
  destruct (db_constraints_keys db keys) as (_ & _ & K3 & _).
  assert (Hscore : forall a s, In a rows -> In s similar ->
            s_chunk_id s = h_chunk_id a -> ~ (h_semantic_score a == 0)%Q ->
            s_similarity s = Some (h_semantic_score a)).
  { intros a s Ha Hin Echunk Hnz.
    destruct (hybrid_semantic_row _ _ _ _ _ _ _ _ Hok Ha Hnz) as (ev & Hev & Ec & Ex).
    destruct (Hrows s Hin) as (ev' & x & Hev' & Ec' & Ex' & Es).
    assert (ev' = ev)
      by (apply (key_determines_row ev_chunk_id (embeddings_vector db));
          try assumption; congruence).
    subst ev'. congruence. }
  split.
  - intros a s Ha Hin Echunk Hnz. exists (h_semantic_score a).
    split; [apply Hscore; assumption | reflexivity].
  - intros a b sa sb Ha Hb Hsa Hsb Ea Eb Hnza Hnzb Hne.
    pose proof (Hscore a sa Ha Hsa Ea Hnza) as Xa.
    pose proof (Hscore b sb Hb Hsb Eb Hnzb) as Xb.
    split; intros Hbefore.
    + apply higher_similarity_first; try assumption.
      unfold similarity_gt. rewrite Xa, Xb.
      apply (before_sorted _ _ _ _ Hsorted) in Hbefore. simpl in Hbefore.
      apply Qle_lteq in Hbefore. destruct Hbefore as [H|H]; [exact H|].
      exfalso. apply Hne. symmetry. exact H.
    + apply (higher_score_first h_semantic_score); try assumption.
      apply (before_sorted similarity_ge) in Hbefore; [|exact Hs].
      unfold similarity_ge in Hbefore. rewrite Xa, Xb in Hbefore.
      apply Qle_lteq in Hbefore. destruct Hbefore as [H|H]; [exact H|].
      exfalso. apply Hne. symmetry. exact H.
Qed.

Lemma keyword_ranking_shared (w : Q) (n : Z) (lexical : list keyword_result) :
  hybrid_search cosine_distance db q keywords limit_count w = Ok rows ->
  StronglySorted (fun a b => (h_keyword_score b <= h_keyword_score a)%Q) rows ->
  keyword_results db keywords n = Ok lexical ->
  same_keyword_ranking rows lexical.
Proof.
  intros Hok Hsorted Hlex.
  assert (Hs : StronglySorted keyword_score_ge lexical).
  { unfold keyword_results, bind in Hlex.
    destruct (int4mul n 2) as [m|e]; [|discriminate].
    unfold sql_limit in Hlex. destruct (m <? 0); [discriminate|].
    injection Hlex as <-. apply StronglySorted_firstn, keyword_ranked_score_sorted. }
  assert (Hscore : forall a k, In a rows -> In k lexical ->
            kr_chunk_id k = h_chunk_id a -> ~ (h_keyword_score a == 0)%Q ->
            kr_keyword_score k = Some (h_keyword_score a)).
  { intros a k Ha Hin Echunk Hnz.
    destruct (hybrid_keyword_row _ _ _ _ _ _ _ _ Hok Ha Hnz) as (k' & Hk' & Ec & Ex).
    apply (keyword_results_In _ _ _ _ _ Hlex) in Hin.
    assert (k' = k)
      by (apply (key_determines_row kr_chunk_id (keyword_ranked db keywords));
          try assumption;
          [apply keyword_ranked_chunks_unique, keys | congruence]).
    subst k'. exact Ex. }
  split.
  - intros a k Ha Hin Echunk Hnz. exists (h_keyword_score a).
    split; [apply Hscore; assumption | reflexivity].
  - intros a b ka kb Ha Hb Hka Hkb Ea Eb Hnza Hnzb Hne.
    pose proof (Hscore a ka Ha Hka Ea Hnza) as Xa.
    pose proof (Hscore b kb Hb Hkb Eb Hnzb) as Xb.
    split; intros Hbefore.
    + apply (higher_keyword_score_first lexical ka kb _ _ Hs Hka Hkb Xa Xb).
      apply (before_sorted _ _ _ _ Hsorted) in Hbefore. simpl in Hbefore.
      apply Qle_lteq in Hbefore. destruct Hbefore as [H|H]; [exact H|].
      exfalso. apply Hne. symmetry. exact H.
    + apply (higher_score_first h_keyword_score); try assumption.
      apply (before_sorted keyword_score_ge) in Hbefore; [|exact Hs].
      unfold keyword_score_ge in Hbefore. rewrite Xa, Xb in Hbefore.
      apply Qle_lteq in Hbefore. destruct Hbefore as [H|H]; [exact H|].
      exfalso. apply Hne. symmetry. exact H.
Qed.

End SharedRanking.

(** C2, amended. For a limit whose double is an INT: at weight 1 every
    returned row has its semantic_score as final_score, the rows are in
    descending order of semantic_score, of two returned rows the one with
    the greater semantic_score comes first, and no candidate left out has
    a greater semantic_score than a row returned; at weight 0 the same
    holds with the keyword_score. On tables that satisfy their key
    constraints the ranking is the one [search_similar_embeddings] (at
    weight 1) or the keyword search (at weight 0) gives on the chunks that
    both score: a chunk to which [hybrid_search] gives a score other than 0
    has that score in the other result, and two such chunks of different
    score come in the same order in both results. *)
Theorem hybrid_weight_laws (cosine_distance : vector -> vector -> Q)
  (db : database) (q : vector) (keywords : list text) (limit_count : Z) :
  0 <= limit_count <= 1073741823 ->
  (exists rows,
     hybrid_search cosine_distance db q keywords limit_count 1 = Ok rows /\
     (forall r, In r rows -> (h_final_score r == h_semantic_score r)%Q) /\
     StronglySorted
       (fun a b => (h_semantic_score b <= h_semantic_score a)%Q) rows /\
     (forall a b, In a rows -> In b rows ->
        (h_semantic_score b < h_semantic_score a)%Q -> before a b rows) /\
     (forall a b, In a rows ->
        In b (skipn (Z.to_nat limit_count)
                (hybrid_ranked cosine_distance db q keywords limit_count 1)) ->
        (h_semantic_score b <= h_semantic_score a)%Q) /\
     (db_constraints db = true ->
      forall n threshold similar,
        search_similar_embeddings cosine_distance db q n threshold = Ok similar ->
        same_semantic_ranking rows similar)) /\
  (exists rows,
     hybrid_search cosine_distance db q keywords limit_count 0 = Ok rows /\
     (forall r, In r rows -> (h_final_score r == h_keyword_score r)%Q) /\
     StronglySorted
       (fun a b => (h_keyword_score b <= h_keyword_score a)%Q) rows /\
     (forall a b, In a rows -> In b rows ->
        (h_keyword_score b < h_keyword_score a)%Q -> before a b rows) /\
     (forall a b, In a rows ->
        In b (skipn (Z.to_nat limit_count)
                (hybrid_ranked cosine_distance db q keywords limit_count 0)) ->
        (h_keyword_score b <= h_keyword_score a)%Q) /\
     (db_constraints db = true ->
      forall n lexical,
        keyword_results db keywords n = Ok lexical ->
        same_keyword_ranking rows lexical)).
Proof.
  intros Hlim.
  assert (Hlaw : forall w r,
    In r (hybrid_ranked cosine_distance db q keywords limit_count w) ->
    (h_final_score r == h_semantic_score r * w + h_keyword_score r * (1 - w))%Q).
  { intros w r Hr. unfold hybrid_ranked in Hr.
    rewrite order_by_In in Hr. apply hybrid_candidates_scores in Hr. tauto. }
  split.
  - assert (Hone : forall r,
      In r (hybrid_ranked cosine_distance db q keywords limit_count 1) ->
      (h_final_score r == h_semantic_score r)%Q).
    { intros r Hr. rewrite (Hlaw 1%Q r Hr). ring. }
    assert (Hsorted : StronglySorted
      (fun a b => (h_semantic_score b <= h_semantic_score a)%Q)
      (firstn (Z.to_nat limit_count)
         (hybrid_ranked cosine_distance db q keywords limit_count 1))).
    { eapply StronglySorted_impl_In;
        [|apply StronglySorted_firstn, hybrid_ranked_sorted].
      intros a b Ha Hb Hge. unfold final_ge in Hge.
      rewrite (Hone a (In_firstn _ _ _ Ha)), (Hone b (In_firstn _ _ _ Hb)) in Hge.
      exact Hge. }
    eexists. split; [apply hybrid_search_ok, Hlim|].
    split; [intros r Hr; apply Hone; eapply In_firstn; exact Hr|].
    split; [exact Hsorted|]. split; [|split].
    + intros a b. apply higher_score_first, Hsorted.
    + intros a b Ha Hb.
      pose proof (firstn_above_skipn _ _ _
                    (hybrid_ranked_sorted cosine_distance db q keywords limit_count 1)
                    a b Ha Hb) as Hge.
      unfold final_ge in Hge.
      rewrite (Hone a (In_firstn _ _ _ Ha)) in Hge.
      rewrite (Hone b) in Hge; [exact Hge|].
      rewrite <- (firstn_skipn (Z.to_nat limit_count)). apply in_or_app. right. exact Hb.
    + intros keys n threshold similar Hsim.
      apply (semantic_ranking_shared cosine_distance db q keywords limit_count _ keys
               1%Q n threshold similar);
        [apply hybrid_search_ok, Hlim | exact Hsorted | exact Hsim].
  - assert (Hzero : forall r,
      In r (hybrid_ranked cosine_distance db q keywords limit_count 0) ->
      (h_final_score r == h_keyword_score r)%Q).
    { intros r Hr. rewrite (Hlaw 0%Q r Hr). ring. }
    assert (Hsorted : StronglySorted
      (fun a b => (h_keyword_score b <= h_keyword_score a)%Q)
      (firstn (Z.to_nat limit_count)
         (hybrid_ranked cosine_distance db q keywords limit_count 0))).
    { eapply StronglySorted_impl_In;
        [|apply StronglySorted_firstn, hybrid_ranked_sorted].
      intros a b Ha Hb Hge. unfold final_ge in Hge.
      rewrite (Hzero a (In_firstn _ _ _ Ha)), (Hzero b (In_firstn _ _ _ Hb)) in Hge.
      exact Hge. }
    eexists. split; [apply hybrid_search_ok, Hlim|].
    split; [intros r Hr; apply Hzero; eapply In_firstn; exact Hr|].
    split; [exact Hsorted|]. split; [|split].
    + intros a b. apply higher_score_first, Hsorted.
    + intros a b Ha Hb.
      pose proof (firstn_above_skipn _ _ _
                    (hybrid_ranked_sorted cosine_distance db q keywords limit_count 0)
                    a b Ha Hb) as Hge.
      unfold final_ge in Hge.
      rewrite (Hzero a (In_firstn _ _ _ Ha)) in Hge.
      rewrite (Hzero b) in Hge; [exact Hge|].
      rewrite <- (firstn_skipn (Z.to_nat limit_count)). apply in_or_app. right. exact Hb.
    + intros keys n lexical Hlex.
      apply (keyword_ranking_shared cosine_distance db q keywords limit_count _ keys
               0%Q n lexical);
        [apply hybrid_search_ok, Hlim | exact Hsorted | exact Hlex].
Qed.

Lemma hybrid_weight_laws_witness :
  0 <= 10 <= 1073741823 /\
  db_constraints sample_db = true /\
  (exists rows,
     hybrid_search dot_distance sample_db sample_query
       [txt "contrato"; txt "locacao"] 10 1 = Ok rows /\
     (forall r, In r rows -> (h_final_score r == h_semantic_score r)%Q) /\
     StronglySorted
       (fun a b => (h_semantic_score b <= h_semantic_score a)%Q) rows /\
     (forall a b, In a rows -> In b rows ->
        (h_semantic_score b < h_semantic_score a)%Q -> before a b rows) /\
     (forall a b, In a rows ->
        In b (skipn (Z.to_nat 10)
                (hybrid_ranked dot_distance sample_db sample_query
                   [txt "contrato"; txt "locacao"] 10 1)) ->
        (h_semantic_score b <= h_semantic_score a)%Q) /\
     (db_constraints sample_db = true ->
      forall n threshold similar,
        search_similar_embeddings dot_distance sample_db sample_query n threshold
          = Ok similar ->
        same_semantic_ranking rows similar)) /\
  (exists rows,
     hybrid_search dot_distance sample_db sample_query
       [txt "contrato"; txt "locacao"] 10 0 = Ok rows /\
     (forall r, In r rows -> (h_final_score r == h_keyword_score r)%Q) /\
     StronglySorted
       (fun a b => (h_keyword_score b <= h_keyword_score a)%Q) rows /\
     (forall a b, In a rows -> In b rows ->
        (h_keyword_score b < h_keyword_score a)%Q -> before a b rows) /\
     (forall a b, In a rows ->
        In b (skipn (Z.to_nat 10)
                (hybrid_ranked dot_distance sample_db sample_query
                   [txt "contrato"; txt "locacao"] 10 0)) ->
        (h_keyword_score b <= h_keyword_score a)%Q) /\
     (db_constraints sample_db = true ->
      forall n lexical,
        keyword_results sample_db [txt "contrato"; txt "locacao"] n = Ok lexical ->
        same_keyword_ranking rows lexical)).
Proof.
  assert (H1 : 0 <= 10 <= 1073741823) by lia.
  split; [exact H1|]. split; [vm_compute; reflexivity|].
  apply (hybrid_weight_laws dot_distance sample_db sample_query
           [txt "contrato"; txt "locacao"] 10 H1).
Defined.

(** On [sample_db] with the keywords "contrato" and "locacao": at weight 1
    [hybrid_search] returns the chunks 2, 1, 3 with the semantic scores
    4/5, 3/5 and 0, and [search_similar_embeddings] with the threshold 1/2
    returns the chunks 2 and 1 with the similarities 4/5 and 3/5; at
    weight 0 [hybrid_search] returns the chunks 1, 3, 2 with the keyword
    scores 1, 1/2 and 0, and the keyword search returns the chunks 1 and 3
    with the scores 1 and 1/2. *)
Example weight_laws_sample :
  (exists rows similar,
     hybrid_search dot_distance sample_db sample_query
       [txt "contrato"; txt "locacao"] 10 1 = Ok rows /\
     search_similar_embeddings dot_distance sample_db sample_query 10 (1 # 2)
       = Ok similar /\
     map (fun r => (h_chunk_id r, Qred (h_semantic_score r))) rows
     = [(2%N, 4 # 5); (1%N, 3 # 5); (3%N, 0)]%Q /\
     map (fun s => (s_chunk_id s, option_map Qred (s_similarity s))) similar
     = [(2%N, Some (4 # 5)); (1%N, Some (3 # 5))]%Q) /\
  (exists rows lexical,
     hybrid_search dot_distance sample_db sample_query
       [txt "contrato"; txt "locacao"] 10 0 = Ok rows /\
     keyword_results sample_db [txt "contrato"; txt "locacao"] 10 = Ok lexical /\
     map (fun r => (h_chunk_id r, Qred (h_keyword_score r))) rows
     = [(1%N, 1); (3%N, 1 # 2); (2%N, 0)]%Q /\
     map (fun k => (kr_chunk_id k, option_map Qred (kr_keyword_score k))) lexical
     = [(1%N, Some 1); (3%N, Some (1 # 2))]%Q).
Proof.
  split.
  - eexists. eexists. split; [vm_compute; reflexivity|].
    split; [vm_compute; reflexivity|]. split; vm_compute; reflexivity.
  - eexists. eexists. split; [vm_compute; reflexivity|].
    split; [vm_compute; reflexivity|]. split; vm_compute; reflexivity.
Qed.

(** * Further properties of the script *)

Lemma where_through_select {A B : Type} (keep : B -> bool) (select : A -> B)
  (rows : list A) :
  filter keep (map select rows) = map select (filter (fun r => keep (select r)) rows).
Proof.
  induction rows as [|r rest IH]; simpl; [reflexivity|].
  destruct (keep (select r)); simpl; rewrite IH; reflexivity.
Qed.

Lemma where_length {A : Type} (p : A -> bool) (rows : list A) :
  (length (filter p rows) <= length rows)%nat.
Proof.
  induction rows as [|r rest IH]; simpl; [lia|].
  destruct (p r); simpl; lia.
Qed.

(** ** search_similar_embeddings: limits, thresholds, keys *)

(** X1. [search_similar_embeddings] succeeds exactly for a non-negative
    [limit_count]; a negative one raises the error of the LIMIT clause, and
    [limit_count = 0] gives the empty result. *)
Theorem search_similar_limit_domain (cosine_distance : vector -> vector -> Q)
  (db : database) (q : vector) (limit_count : Z) (threshold : Q) :
  ((exists rows,
      search_similar_embeddings cosine_distance db q limit_count threshold = Ok rows)
   <-> 0 <= limit_count) /\
  (limit_count < 0 ->
   search_similar_embeddings cosine_distance db q limit_count threshold
   = Err invalid_row_count_in_limit_clause) /\
  search_similar_embeddings cosine_distance db q 0 threshold = Ok [].
Proof.
  assert (Hneg : limit_count < 0 ->
    search_similar_embeddings cosine_distance db q limit_count threshold
    = Err invalid_row_count_in_limit_clause).
  { intros H. unfold search_similar_embeddings, sql_limit, bind.
    destruct (Z.ltb_spec limit_count 0); [reflexivity | lia]. }
  split; [|split; [exact Hneg | reflexivity]].
  split.
  - intros (rows & Hok). destruct (Z.lt_ge_cases limit_count 0) as [H|H]; [|exact H].
    rewrite (Hneg H) in Hok. discriminate Hok.
  - intros H. eexists. apply search_similar_unfold, H.
Qed.

(** X2. [hybrid_search] succeeds exactly when
    [0 <= limit_count <= 1073741823]: above that, [limit_count * 2] is not
    an INT and the call fails with "integer out of range"; a negative limit
    whose double is an INT fails in the LIMIT clause; and [limit_count = 0]
    gives the empty result. *)
Theorem hybrid_search_limit_domain (cosine_distance : vector -> vector -> Q)
  (db : database) (q : vector) (keywords : list text) (limit_count : Z) (w : Q) :
  ((exists rows,
      hybrid_search cosine_distance db q keywords limit_count w = Ok rows)
   <-> 0 <= limit_count <= 1073741823) /\
  (1073741823 < limit_count ->
   hybrid_search cosine_distance db q keywords limit_count w
   = Err numeric_value_out_of_range) /\
  (- 1073741824 <= limit_count < 0 ->
   hybrid_search cosine_distance db q keywords limit_count w
   = Err invalid_row_count_in_limit_clause) /\
  hybrid_search cosine_distance db q keywords 0 w = Ok [].
Proof.
  assert (Hhigh : 1073741823 < limit_count ->
    hybrid_search cosine_distance db q keywords limit_count w
    = Err numeric_value_out_of_range).
  { intros H. unfold hybrid_search, semantic_results, int4mul, INT_MIN, INT_MAX, bind.
    destruct (Z.leb_spec (-2147483648) (limit_count * 2)); [|lia].
    destruct (Z.leb_spec (limit_count * 2) 2147483647); [lia|]. reflexivity. }
  assert (Hneg : limit_count < 0 -> forall rows,
    hybrid_search cosine_distance db q keywords limit_count w <> Ok rows).
  { intros H rows. unfold hybrid_search, semantic_results, bind.
    destruct (int4mul limit_count 2) as [n|e] eqn:E; [|discriminate].
    unfold int4mul in E.
    destruct ((INT_MIN <=? limit_count * 2) && (limit_count * 2 <=? INT_MAX));
      [|discriminate].
    injection E as <-. unfold sql_limit.
    destruct (Z.ltb_spec (limit_count * 2) 0); [discriminate | lia]. }
  split; [|split; [exact Hhigh|split]].
  - split.
    + intros (rows & Hok).
      destruct (Z.lt_ge_cases limit_count 0) as [H|H];
        [exfalso; apply (Hneg H rows Hok)|].
      destruct (Z.lt_ge_cases 1073741823 limit_count) as [H'|H']; [|lia].
      rewrite (Hhigh H') in Hok. discriminate Hok.
    + intros H. eexists. apply hybrid_search_ok, H.
  - intros H. unfold hybrid_search, semantic_results, int4mul, INT_MIN, INT_MAX, bind.
    destruct (Z.leb_spec (-2147483648) (limit_count * 2)); [|lia].
    destruct (Z.leb_spec (limit_count * 2) 2147483647); [|lia]. simpl.
    unfold sql_limit. destruct (Z.ltb_spec (limit_count * 2) 0); [reflexivity | lia].
  - rewrite hybrid_search_ok by lia. reflexivity.
Qed.

Lemma db_constraints_embedding_ids (db : database) :
  db_constraints db = true -> NoDup (map ev_id (embeddings_vector db)).
Proof.
  unfold db_constraints. rewrite !andb_true_iff.
  intros [[[[[[[_ _] _] H4] _] _] _] _]. apply all_distinct_NoDup, H4.
Qed.

(** With the keys in place, the rows of [search_similar_embeddings] are the
    embeddings that pass the threshold, by ascending distance, each with
    its case and its chunk. *)
Lemma search_similar_keyed_rows (cosine_distance : vector -> vector -> Q)
  (db : database) (q : vector) (limit_count : Z) (threshold : Q) :
  db_constraints db = true -> 0 <= limit_count ->
  search_similar_embeddings cosine_distance db q limit_count threshold
  = Ok (map (fun ev =>
               similar_select cosine_distance q
                 (ev, the_case db (ev_case_id ev), the_chunk db (ev_chunk_id ev)))
            (firstn (Z.to_nat limit_count)
               (order_by (fun a b => asc_nulls_last (distance cosine_distance q a)
                                                    (distance cosine_distance q b))
                  (filter (fun ev =>
                             ge_threshold (one_minus (distance cosine_distance q ev))
                                          threshold)
                          (embeddings_vector db))))).
Proof.
  intros Hc Hlim. rewrite search_similar_unfold by exact Hlim. f_equal.
  unfold similar_ranked. rewrite (similar_from_keyed db Hc).
  rewrite where_through_select, order_by_map, firstn_map, map_map. reflexivity.
Qed.

(** X5. On tables that satisfy their key constraints,
    [search_similar_embeddings] returns no embedding and no chunk twice. *)
Theorem search_similar_no_duplicates (cosine_distance : vector -> vector -> Q)
  (db : database) (q : vector) (limit_count : Z) (threshold : Q) :
  db_constraints db = true -> 0 <= limit_count ->
  exists rows,
    search_similar_embeddings cosine_distance db q limit_count threshold = Ok rows /\
    NoDup (map s_embedding_id rows) /\ NoDup (map s_chunk_id rows).
Proof.
  intros Hc Hlim. eexists. split; [apply search_similar_keyed_rows; assumption|].
  destruct (db_constraints_keys db Hc) as (_ & _ & K3 & _).
  pose proof (db_constraints_embedding_ids db Hc) as K4.
  rewrite !map_map. simpl. split.
  - apply prefix_keys_unique.
    eapply Permutation_NoDup;
      [apply Permutation_map, Permutation_sym, order_by_perm|].
    clear K3. revert K4. generalize (embeddings_vector db) as rows.
    induction rows as [|ev rows IH]; simpl; intros Hnd; [constructor|].
    inversion Hnd as [|? ? Hfresh Hrest]; subst.
    match goal with |- context [if ?b then _ else _] => destruct b end;
      simpl; [|apply IH, Hrest].
    constructor; [|apply IH, Hrest].
    intros Hin. apply Hfresh. rewrite in_map_iff in *.
    destruct Hin as (x & E & Hx). apply filter_In in Hx. exists x. tauto.
  - apply prefix_keys_unique.
    eapply Permutation_NoDup;
      [apply Permutation_map, Permutation_sym, order_by_perm|].
    apply filter_keeps_chunk_unique, K3.
Qed.

Lemma search_similar_no_duplicates_witness :
  db_constraints tie_db = true /\ 0 <= 10 /\
  exists rows,
    search_similar_embeddings dot_distance tie_db (padded [1%Q]) 10 (7 # 10)
      = Ok rows /\
    NoDup (map s_embedding_id rows) /\ NoDup (map s_chunk_id rows).
Proof.
  assert (H1 : db_constraints tie_db = true) by (vm_compute; reflexivity).
  assert (H2 : 0 <= 10) by lia.
  split; [exact H1|]. split; [exact H2|].
  apply (search_similar_no_duplicates dot_distance tie_db (padded [1%Q]) 10
           (7 # 10) H1 H2).
Defined.

(** ** INSERT INTO embeddings_vector *)

Lemma NoDup_all_distinct (ids : list uuid) : NoDup ids -> all_distinct ids = true.
Proof.
  induction 1 as [|x rest Hfresh _ IH]; simpl; [reflexivity|].
  rewrite IH, andb_true_r. apply negb_true_iff.
  destruct (existsb (N.eqb x) rest) eqn:E; [|reflexivity].
  apply existsb_exists in E. destruct E as (y & Hy & Exy).
  apply N.eqb_eq in Exy. subst y. contradiction.
Qed.

Lemma all_distinct_with_new (ids : list uuid) (id : uuid) :
  all_distinct ids = true -> ~ In id ids -> all_distinct (ids ++ [id]) = true.
Proof.
  intros H Hfresh. apply NoDup_all_distinct.
  apply Permutation_NoDup with (l := id :: ids).
  - apply Permutation_cons_append.
  - constructor; [exact Hfresh | apply all_distinct_NoDup, H].
Qed.

(** Everything a successful INSERT has checked. *)
Lemma insert_embedding_checks (db db' : database) (row : embedding_row) :
  insert_embedding db row = Ok db' ->
  db' = set_embeddings db (embeddings_vector db ++ [row]) /\
  check_columns (ev_embedding row) (ev_model_name row) = Ok tt /\
  ~ In (ev_id row) (map ev_id (embeddings_vector db)) /\
  ~ In (ev_chunk_id row) (map ev_chunk_id (embeddings_vector db)) /\
  existsb (fun c => N.eqb (c_id c) (ev_case_id row)) (cases db) = true /\
  existsb (fun tc => N.eqb (tc_id tc) (ev_chunk_id row)) (text_chunks db) = true.
Proof.
  unfold insert_embedding, bind.
  destruct (check_columns (ev_embedding row) (ev_model_name row)) as [[]|e] eqn:Hc;
    [|discriminate].
  destruct (existsb (fun ev => N.eqb (ev_id ev) (ev_id row)) (embeddings_vector db))
    eqn:Hid; [discriminate|].
  destruct (existsb (fun ev => N.eqb (ev_chunk_id ev) (ev_chunk_id row))
              (embeddings_vector db)) eqn:Hu; [discriminate|].
  destruct (existsb (fun c => N.eqb (c_id c) (ev_case_id row)) (cases db));
    [|discriminate].
  destruct (existsb (fun tc => N.eqb (tc_id tc) (ev_chunk_id row)) (text_chunks db));
    [|discriminate].
  intros [= <-]. repeat split.
  - intros Hin. rewrite in_map_iff in Hin. destruct Hin as (ev & E & Hev).
    assert (T : existsb (fun ev => N.eqb (ev_id ev) (ev_id row))
                  (embeddings_vector db) = true).
    { apply existsb_exists. exists ev. split; [exact Hev | apply N.eqb_eq, E]. }
    congruence.
  - apply existsb_chunk_false, Hu.
Qed.

Lemma insert_embedding_keeps_constraints (db db' : database) (row : embedding_row) :
  db_constraints db = true -> insert_embedding db row = Ok db' ->
  db_constraints db' = true.
Proof.
  intros Hc Hok. apply insert_embedding_checks in Hok.
  destruct Hok as (-> & Hcols & Hid & Hchunk & Hcase & Htc).
  unfold db_constraints in *. simpl.
  rewrite !andb_true_iff in Hc. destruct Hc as [[[[[[[H1 H2] H3] H4] H5] H6] H7] H8].
  rewrite !map_app, forallb_app. simpl.
  rewrite H1, H2, H3, H6, H7, H8, Hcase, Htc, Hcols.
  rewrite (all_distinct_with_new _ _ H4 Hid), (all_distinct_with_new _ _ H5 Hchunk).
  reflexivity.
Qed.

Lemma existsb_key_false {A : Type} (key : A -> uuid) (id : uuid) (rows : list A) :
  ~ In id (map key rows) -> existsb (fun r => N.eqb (key r) id) rows = false.
Proof.
  intros H. destruct (existsb (fun r => N.eqb (key r) id) rows) eqn:E; [|reflexivity].
  apply existsb_exists in E. destruct E as (r & Hr & Heq). apply N.eqb_eq in Heq.
  exfalso. apply H. rewrite <- Heq. apply in_map, Hr.
Qed.

Lemma existsb_key_true {A : Type} (key : A -> uuid) (id : uuid) (rows : list A) :
  existsb (fun r => N.eqb (key r) id) rows = true <->
  exists r, In r rows /\ key r = id.
Proof.
  rewrite existsb_exists. split; intros (r & Hr & E); exists r; split;
    try assumption; apply N.eqb_eq, E.
Qed.

(** X7. The INSERT of a row whose model name fits the column (at most 100
    characters) into tables that satisfy their key constraints. It
    succeeds exactly when the vector is NULL or has 384 coordinates, the
    id and the chunk id are new to [embeddings_vector], and the case and
    the chunk exist. When it succeeds it appends the row, leaves the other
    tables as they are, and the new state satisfies the key constraints. *)
Theorem insert_embedding_keeps_keys (db : database) (row : embedding_row) :
  db_constraints db = true ->
  (forall m, ev_model_name row = Some m -> (length m <= 100)%nat) ->
  ((exists db', insert_embedding db row = Ok db') <->
   (forall v, ev_embedding row = Some v -> length v = 384%nat) /\
   ~ In (ev_id row) (map ev_id (embeddings_vector db)) /\
   ~ In (ev_chunk_id row) (map ev_chunk_id (embeddings_vector db)) /\
   (exists c, In c (cases db) /\ c_id c = ev_case_id row) /\
   (exists tc, In tc (text_chunks db) /\ tc_id tc = ev_chunk_id row)) /\
  (forall db', insert_embedding db row = Ok db' ->
     db_constraints db' = true /\
     embeddings_vector db' = embeddings_vector db ++ [row] /\
     cases db' = cases db /\ documents db' = documents db /\
     text_chunks db' = text_chunks db).
Proof.
  intros Hc Hname. split; [split|].
  - intros (db' & Hok). apply insert_embedding_checks in Hok.
    destruct Hok as (_ & Hcols & Hid & Hchunk & Hcase & Htc).
    apply check_columns_ok in Hcols. destruct Hcols as [Hvec _].
    split; [exact Hvec|]. split; [exact Hid|]. split; [exact Hchunk|].
    split; apply existsb_key_true; assumption.
  - intros (Hvec & Hid & Hchunk & Hcase & Htc).
    eexists. unfold insert_embedding, bind.
    assert (Hcols : check_columns (ev_embedding row) (ev_model_name row) = Ok tt).
    { unfold check_columns, check_vector, check_varchar, bind.
      destruct (ev_embedding row) as [v|].
      - rewrite (Hvec v eq_refl). simpl.
        destruct (ev_model_name row) as [m|]; [|reflexivity].
        destruct (Nat.leb_spec (length m) 100) as [_|Hgt]; [reflexivity|].
        specialize (Hname m eq_refl). lia.
      - destruct (ev_model_name row) as [m|]; [|reflexivity].
        destruct (Nat.leb_spec (length m) 100) as [_|Hgt]; [reflexivity|].
        specialize (Hname m eq_refl). lia. }
    rewrite Hcols.
    rewrite (existsb_key_false ev_id _ _ Hid).
    rewrite (existsb_key_false ev_chunk_id _ _ Hchunk).
    rewrite (proj2 (existsb_key_true c_id _ _) Hcase).
    rewrite (proj2 (existsb_key_true tc_id _ _) Htc).
    reflexivity.
  - intros db' Hok.
    pose proof (insert_embedding_keeps_constraints db db' row Hc Hok) as Hc'.
    apply insert_embedding_checks in Hok. destruct Hok as (-> & _).
    split; [exact Hc'|]. simpl. repeat split.
Qed.

Lemma insert_embedding_keeps_keys_witness :
  db_constraints two_embeddings_db = true /\
  (forall m, ev_model_name (new_embedding 103%N 1%N 3%N (padded [1%Q])) = Some m ->
     (length m <= 100)%nat) /\
  insert_embedding two_embeddings_db (new_embedding 103%N 1%N 3%N (padded [1%Q]))
    = Ok tie_db /\
  ((exists db', insert_embedding two_embeddings_db
                  (new_embedding 103%N 1%N 3%N (padded [1%Q])) = Ok db') <->
   (forall v, ev_embedding (new_embedding 103%N 1%N 3%N (padded [1%Q])) = Some v ->
      length v = 384%nat) /\
   ~ In (ev_id (new_embedding 103%N 1%N 3%N (padded [1%Q])))
        (map ev_id (embeddings_vector two_embeddings_db)) /\
   ~ In (ev_chunk_id (new_embedding 103%N 1%N 3%N (padded [1%Q])))
        (map ev_chunk_id (embeddings_vector two_embeddings_db)) /\
   (exists c, In c (cases two_embeddings_db) /\
              c_id c = ev_case_id (new_embedding 103%N 1%N 3%N (padded [1%Q]))) /\
   (exists tc, In tc (text_chunks two_embeddings_db) /\
               tc_id tc = ev_chunk_id (new_embedding 103%N 1%N 3%N (padded [1%Q])))) /\
  (forall db', insert_embedding two_embeddings_db
                 (new_embedding 103%N 1%N 3%N (padded [1%Q])) = Ok db' ->
     db_constraints db' = true /\
     embeddings_vector db'
     = embeddings_vector two_embeddings_db
       ++ [new_embedding 103%N 1%N 3%N (padded [1%Q])] /\
     cases db' = cases two_embeddings_db /\
     documents db' = documents two_embeddings_db /\
     text_chunks db' = text_chunks two_embeddings_db).
Proof.
  assert (H1 : db_constraints two_embeddings_db = true) by (vm_compute; reflexivity).
  assert (H2 : forall m,
            ev_model_name (new_embedding 103%N 1%N 3%N (padded [1%Q])) = Some m ->
            (length m <= 100)%nat).
  { intros m E. simpl in E. injection E as <-. simpl. lia. }
  split; [exact H1|]. split; [exact H2|].
  split; [vm_compute; reflexivity|].
  apply (insert_embedding_keeps_keys two_embeddings_db
           (new_embedding 103%N 1%N 3%N (padded [1%Q])) H1 H2).
Defined.

(** X8. After a successful INSERT for a chunk, no second row for that
    chunk can be inserted: the INSERT fails, with [unique_violation] when
    the columns of the new row are well-typed. *)
Theorem second_embedding_rejected (db db' : database) (row row' : embedding_row) :
  insert_embedding db row = Ok db' ->
  ev_chunk_id row' = ev_chunk_id row ->
  (forall db'', insert_embedding db' row' <> Ok db'') /\
  (check_columns (ev_embedding row') (ev_model_name row') = Ok tt ->
   insert_embedding db' row' = Err unique_violation).
Proof.
  intros Hok Hsame. apply insert_embedding_checks in Hok.
  destruct Hok as (-> & _).
  assert (Hex : existsb (fun ev => N.eqb (ev_chunk_id ev) (ev_chunk_id row'))
                  (embeddings_vector db ++ [row]) = true).
  { apply existsb_exists. exists row. split.
    - apply in_or_app. right. left. reflexivity.
    - apply N.eqb_eq. symmetry. exact Hsame. }
  assert (Hcols : check_columns (ev_embedding row') (ev_model_name row') = Ok tt ->
    insert_embedding (set_embeddings db (embeddings_vector db ++ [row])) row'
    = Err unique_violation).
  { intros Hc. unfold insert_embedding, bind. rewrite Hc. simpl.
    rewrite Hex.
    destruct (existsb (fun ev => N.eqb (ev_id ev) (ev_id row'))
                (embeddings_vector db ++ [row])); reflexivity. }
  split; [|exact Hcols].
  intros db'' H.
  destruct (check_columns (ev_embedding row') (ev_model_name row')) as [[]|e] eqn:Hc.
  - rewrite (Hcols eq_refl) in H. discriminate H.
  - unfold insert_embedding, bind in H. rewrite Hc in H. discriminate H.
Qed.

Lemma second_embedding_rejected_witness :
  insert_embedding two_embeddings_db (new_embedding 103%N 1%N 3%N (padded [1%Q]))
    = Ok tie_db /\
  ev_chunk_id (new_embedding 104%N 1%N 3%N (padded [0%Q; 1%Q]))
    = ev_chunk_id (new_embedding 103%N 1%N 3%N (padded [1%Q])) /\
  (forall db'',
     insert_embedding tie_db (new_embedding 104%N 1%N 3%N (padded [0%Q; 1%Q]))
     <> Ok db'') /\
  (check_columns (ev_embedding (new_embedding 104%N 1%N 3%N (padded [0%Q; 1%Q])))
                 (ev_model_name (new_embedding 104%N 1%N 3%N (padded [0%Q; 1%Q])))
   = Ok tt ->
   insert_embedding tie_db (new_embedding 104%N 1%N 3%N (padded [0%Q; 1%Q]))
   = Err unique_violation).
Proof.
  assert (H1 : insert_embedding two_embeddings_db
                 (new_embedding 103%N 1%N 3%N (padded [1%Q])) = Ok tie_db)
    by (vm_compute; reflexivity).
  split; [exact H1|]. split; [reflexivity|].
  apply (second_embedding_rejected two_embeddings_db tie_db
           (new_embedding 103%N 1%N 3%N (padded [1%Q]))
           (new_embedding 104%N 1%N 3%N (padded [0%Q; 1%Q])) H1).
  reflexivity.
Defined.

(** ** DELETE on text_chunks *)

Lemma where_idempotent {A : Type} (keep : A -> bool) (rows : list A) :
  filter keep (filter keep rows) = filter keep rows.
Proof.
  induction rows as [|r rest IH]; simpl; [reflexivity|].
  destruct (keep r) eqn:E; simpl; [rewrite E, IH; reflexivity | exact IH].
Qed.

Lemma where_commute {A : Type} (p q : A -> bool) (rows : list A) :
  filter p (filter q rows) = filter q (filter p rows).
Proof.
  induction rows as [|r rest IH]; simpl; [reflexivity|].
  destruct (p r) eqn:P, (q r) eqn:Q; simpl; rewrite ?P, ?Q, IH; reflexivity.
Qed.

Lemma delete_chunk_row_without (db : database) (row : chunk_row) :
  delete_chunk_row db row = without_chunk db (tc_id row).
Proof.
  unfold delete_chunk_row, cleanup_orphan_embeddings, without_chunk. simpl.
  rewrite where_idempotent. reflexivity.
Qed.

Lemma without_chunk_twice (db : database) (chunk : uuid) :
  without_chunk (without_chunk db chunk) chunk = without_chunk db chunk.
Proof.
  unfold without_chunk. simpl. rewrite !where_idempotent. reflexivity.
Qed.

Lemma delete_rows_of_chunk (rows : list chunk_row) (db : database) (chunk : uuid) :
  (forall row, In row rows -> tc_id row = chunk) ->
  fold_left delete_chunk_row rows (without_chunk db chunk) = without_chunk db chunk.
Proof.
  induction rows as [|row rest IH]; simpl; intros H; [reflexivity|].
  rewrite delete_chunk_row_without, (H row) by (left; reflexivity).
  rewrite without_chunk_twice. apply IH. intros r Hr. apply H. right. exact Hr.
Qed.

(** The state a DELETE by id leaves: the chunk and its embeddings are
    filtered out when the chunk has a row; nothing changes when it has
    none. *)
Lemma delete_chunk_normal (db : database) (chunk : uuid) :
  delete_chunk db chunk
  = if existsb (fun tc => N.eqb (tc_id tc) chunk) (text_chunks db)
    then without_chunk db chunk else db.
Proof.
  unfold delete_chunk, delete_chunks_where.
  destruct (filter (fun tc => N.eqb (tc_id tc) chunk) (text_chunks db))
    as [|row rest] eqn:E.
  - assert (Hex : existsb (fun tc => N.eqb (tc_id tc) chunk) (text_chunks db) = false).
    { destruct (existsb _ (text_chunks db)) eqn:X; [|reflexivity].
      apply existsb_exists in X. destruct X as (tc & Hin & Hc).
      assert (Hf : In tc (filter (fun tc => N.eqb (tc_id tc) chunk) (text_chunks db)))
        by (apply filter_In; split; assumption).
      rewrite E in Hf. contradiction. }
    rewrite Hex. reflexivity.
  - assert (Hall : forall r, In r (row :: rest) -> tc_id r = chunk).
    { intros r Hr. rewrite <- E in Hr. apply filter_In in Hr.
      apply N.eqb_eq. tauto. }
    assert (Hex : existsb (fun tc => N.eqb (tc_id tc) chunk) (text_chunks db) = true).
    { apply existsb_exists. exists row. rewrite <- (Hall row (or_introl eq_refl)).
      assert (Hin : In row (filter (fun tc => N.eqb (tc_id tc) chunk) (text_chunks db)))
        by (rewrite E; left; reflexivity).
      apply filter_In in Hin. split; [tauto | apply N.eqb_refl]. }
    rewrite Hex. simpl.
    rewrite delete_chunk_row_without, (Hall row (or_introl eq_refl)).
    apply delete_rows_of_chunk. intros r Hr. apply Hall. right. exact Hr.
Qed.

Lemma without_chunk_commute (db : database) (a b : uuid) :
  without_chunk (without_chunk db a) b = without_chunk (without_chunk db b) a.
Proof.
  unfold without_chunk. simpl. f_equal; apply where_commute.
Qed.

Lemma existsb_other_chunk (db : database) (a b : uuid) :
  a <> b ->
  existsb (fun tc => N.eqb (tc_id tc) a) (text_chunks (without_chunk db b))
  = existsb (fun tc => N.eqb (tc_id tc) a) (text_chunks db).
Proof.
  intros Hab. simpl. induction (text_chunks db) as [|tc rest IH]; simpl; [reflexivity|].
  destruct (N.eqb_spec (tc_id tc) b) as [E|E]; simpl.
  - rewrite IH. destruct (N.eqb_spec (tc_id tc) a) as [E'|E']; [congruence|reflexivity].
  - rewrite IH. reflexivity.
Qed.

(** X10. [DELETE FROM text_chunks WHERE id = chunk], with its trigger and
    cascade: when the chunk has a row, exactly that chunk and its
    embeddings go, and every other row of every table stays in place; when
    it has no row, nothing changes at all, not even embeddings that carry
    this chunk id; and deleting the same chunk again changes nothing. *)
Theorem delete_chunk_effect (db : database) (chunk : uuid) :
  ((exists tc, In tc (text_chunks db) /\ tc_id tc = chunk) ->
   delete_chunk db chunk = without_chunk db chunk) /\
  ((forall tc, In tc (text_chunks db) -> tc_id tc <> chunk) ->
   delete_chunk db chunk = db) /\
  delete_chunk (delete_chunk db chunk) chunk = delete_chunk db chunk /\
  (forall ev, In ev (embeddings_vector db) -> ev_chunk_id ev <> chunk ->
     In ev (embeddings_vector (delete_chunk db chunk))) /\
  cases (delete_chunk db chunk) = cases db /\
  documents (delete_chunk db chunk) = documents db.
Proof.
  pose proof (delete_chunk_normal db chunk) as Hn.
  destruct (existsb (fun tc => N.eqb (tc_id tc) chunk) (text_chunks db)) eqn:Hex.
  - split; [intros _; exact Hn|]. split; [|split; [|split; [|split]]].
    + intros Hnone. apply existsb_exists in Hex. destruct Hex as (tc & Hin & E).
      apply N.eqb_eq in E. exfalso. apply (Hnone tc Hin E).
    + rewrite Hn, delete_chunk_normal.
      destruct (existsb _ (text_chunks (without_chunk db chunk))) eqn:Hex'.
      * apply without_chunk_twice.
      * reflexivity.
    + intros ev Hin Hne. rewrite Hn. simpl. apply filter_In. split; [exact Hin|].
      apply negb_true_iff, N.eqb_neq, Hne.
    + rewrite Hn. reflexivity.
    + rewrite Hn. reflexivity.
  - split; [|split; [intros _; exact Hn|split; [|split; [|split]]]].
    + intros (tc & Hin & E).
      assert (T : existsb (fun tc => N.eqb (tc_id tc) chunk) (text_chunks db) = true)
        by (apply existsb_exists; exists tc; split; [exact Hin | apply N.eqb_eq, E]).
      congruence.
    + rewrite Hn. exact Hn.
    + intros ev Hin _. rewrite Hn. exact Hin.
    + rewrite Hn. reflexivity.
    + rewrite Hn. reflexivity.
Qed.

(** X11. Deletions of two chunks commute: the state after deleting [a] and
    then [b] is the state after deleting [b] and then [a]. *)
Theorem delete_chunk_commute (db : database) (a b : uuid) :
  delete_chunk (delete_chunk db a) b = delete_chunk (delete_chunk db b) a.
Proof.
  destruct (N.eq_dec a b) as [->|Hab]; [reflexivity|].
  rewrite (delete_chunk_normal db a), (delete_chunk_normal db b).
  destruct (existsb (fun tc => N.eqb (tc_id tc) a) (text_chunks db)) eqn:Ha,
           (existsb (fun tc => N.eqb (tc_id tc) b) (text_chunks db)) eqn:Hb;
    rewrite !delete_chunk_normal;
    rewrite ?existsb_other_chunk by congruence;
    rewrite ?Ha, ?Hb; try reflexivity.
  apply without_chunk_commute.
Qed.

Section FilterKeys.

Variables (A K : Type) (key : A -> K) (keep : A -> bool).

Lemma filter_keys_unique (rows : list A) :
  NoDup (map key rows) -> NoDup (map key (filter keep rows)).
Proof.
  induction rows as [|r rest IH]; simpl; intros Hnd; [constructor|].
  inversion Hnd as [|? ? Hfresh Hrest]; subst.
  destruct (keep r); simpl; [|apply IH, Hrest].
  constructor; [|apply IH, Hrest].
  intros Hin. apply Hfresh. rewrite in_map_iff in *.
  destruct Hin as (x & E & Hx). apply filter_In in Hx. exists x. tauto.
Qed.

End FilterKeys.

Arguments filter_keys_unique {A K} key keep rows.

Lemma all_distinct_where {A : Type} (key : A -> uuid) (keep : A -> bool)
  (rows : list A) :
  all_distinct (map key rows) = true ->
  all_distinct (map key (filter keep rows)) = true.
Proof.
  intros H. apply NoDup_all_distinct, filter_keys_unique, all_distinct_NoDup, H.
Qed.

Lemma forallb_where {A : Type} (test keep : A -> bool) (rows : list A) :
  forallb test rows = true -> forallb test (filter keep rows) = true.
Proof.
  rewrite !forallb_forall. intros H x Hx. apply filter_In in Hx. apply H. tauto.
Qed.

Lemma without_chunk_keeps_constraints (db : database) (chunk : uuid) :
  db_constraints db = true -> db_constraints (without_chunk db chunk) = true.
Proof.
  unfold db_constraints. simpl. rewrite !andb_true_iff.
  intros [[[[[[[H1 H2] H3] H4] H5] H6] H7] H8].
  repeat split; try assumption; try (apply all_distinct_where; assumption).
  - apply forallb_where, H7.
  - rewrite forallb_forall in *. intros ev Hev. apply filter_In in Hev.
    destruct Hev as [Hev Hne]. specialize (H8 ev Hev).
    rewrite !andb_true_iff in H8. destruct H8 as [[Hcase Htc] Hcols].
    rewrite Hcase, Hcols, andb_true_r. simpl.
    apply existsb_exists in Htc. destruct Htc as (tc & Htc & E).
    apply existsb_exists. exists tc. split; [|exact E].
    apply filter_In. split; [exact Htc|].
    apply N.eqb_eq in E. rewrite E. exact Hne.
Qed.

(** X12. Deleting a chunk keeps the key constraints: in the state the
    DELETE leaves, ids are still unique and every embedding still has its
    case and its chunk, so the deletion leaves no orphan embedding
    anywhere in the table. *)
Theorem delete_chunk_keeps_keys (db : database) (chunk : uuid) :
  db_constraints db = true ->
  db_constraints (delete_chunk db chunk) = true /\
  (forall ev, In ev (embeddings_vector (delete_chunk db chunk)) ->
     exists tc, In tc (text_chunks (delete_chunk db chunk)) /\
                tc_id tc = ev_chunk_id ev).
Proof.
  intros Hc.
  assert (Hc' : db_constraints (delete_chunk db chunk) = true).
  { rewrite delete_chunk_normal.
    destruct (existsb _ (text_chunks db));
      [apply without_chunk_keeps_constraints, Hc | exact Hc]. }
  split; [exact Hc'|].
  intros ev Hev. destruct (db_constraints_keys _ Hc') as (_ & _ & _ & _ & K5).
  apply (K5 ev Hev).
Qed.

Lemma delete_chunk_keeps_keys_witness :
  db_constraints tie_db = true /\
  db_constraints (delete_chunk tie_db 2%N) = true /\
  (forall ev, In ev (embeddings_vector (delete_chunk tie_db 2%N)) ->
     exists tc, In tc (text_chunks (delete_chunk tie_db 2%N)) /\
                tc_id tc = ev_chunk_id ev).
Proof.
  assert (H1 : db_constraints tie_db = true) by (vm_compute; reflexivity).
  split; [exact H1|].
  apply (delete_chunk_keeps_keys tie_db 2%N H1).
Defined.

(** ** Scores of hybrid_search *)

Lemma count_distinct_subset (l m : list text) :
  (forall x, In x l -> In x m) -> count_distinct l <= count_distinct m.
Proof.
  intros H. unfold count_distinct. apply Nat2Z.inj_le, NoDup_incl_length.
  - apply distinct_unique. intros a. apply text_eqb_eq. reflexivity.
  - intros x Hx. apply distinct_text_In. apply H. apply distinct_text_In, Hx.
Qed.

Lemma count_distinct_at_most (l : list text) :
  count_distinct l <= Z.of_nat (length l).
Proof.
  unfold count_distinct. apply Nat2Z.inj_le.
  induction l as [|x rest IH]; simpl; [lia|].
  pose proof (where_length (fun y => negb (text_eqb x y)) (distinct text_eqb rest)).
  lia.
Qed.

(** X15. Every keyword_score that the keyword query computes is a
    fraction in (0, 1]: at least 1 / (number of keywords), and at most
    (number of different keywords) / (number of keywords), so a keyword
    list with repeated keywords never yields the score 1. *)
Theorem keyword_score_bounds (db : database) (keywords : list text)
  (kr : keyword_result) :
  In kr (keyword_ranked db keywords) ->
  exists s,
    kr_keyword_score kr = Some s /\
    (0 < s)%Q /\
    (1 / inject_Z (Z.of_nat (length keywords)) <= s)%Q /\
    (s <= inject_Z (count_distinct keywords) / inject_Z (Z.of_nat (length keywords)))%Q /\
    (s <= 1)%Q.
Proof.
  intros H. unfold keyword_ranked in H.
  rewrite order_by_In, in_map_iff in H. destruct H as ([k l] & <- & Hg).
  apply filter_In in Hg. destruct Hg as [Hg Hpos]. simpl in Hpos.
  apply Z.ltb_lt in Hpos.
  assert (Hsub : forall x, In x l -> In x keywords).
  { unfold keyword_groups in Hg. rewrite in_map_iff in Hg.
    destruct Hg as (k' & E & _). injection E as _ <-.
    intros x Hx. rewrite in_map_iff in Hx. destruct Hx as (r & <- & Hr).
    apply filter_In in Hr. destruct Hr as [Hr _].
    apply keyword_from_In in Hr. tauto. }
  pose proof (count_distinct_subset l keywords Hsub) as Hle.
  pose proof (count_distinct_at_most keywords) as Hlen.
  simpl. destruct keywords as [|k0 ks].
  { exfalso. destruct l as [|x l']; [simpl in Hpos; unfold count_distinct in Hpos;
      simpl in Hpos; lia | apply (Hsub x); left; reflexivity]. }
  unfold array_length, div_float. simpl option_map.
  set (len := Z.of_nat (length (k0 :: ks))) in *.
  assert (Hlen0 : 0 < len) by (unfold len; simpl; lia).
  assert (Hinv : (0 < / inject_Z len)%Q).
  { apply Qinv_lt_0_compat. change 0%Q with (inject_Z 0).
    rewrite <- Zlt_Qlt. exact Hlen0. }
  eexists. split; [reflexivity|]. unfold Qdiv. repeat split.
  - apply Qmult_lt_0_compat; [|exact Hinv].
    change 0%Q with (inject_Z 0). rewrite <- Zlt_Qlt. exact Hpos.
  - apply Qmult_le_compat_r; [|apply Qlt_le_weak, Hinv].
    change 1%Q with (inject_Z 1). rewrite <- Zle_Qle. lia.
  - apply Qmult_le_compat_r; [|apply Qlt_le_weak, Hinv].
    rewrite <- Zle_Qle. exact Hle.
  - apply Qle_shift_div_r.
    + change 0%Q with (inject_Z 0). rewrite <- Zlt_Qlt. exact Hlen0.
    + rewrite Qmult_1_l, <- Zle_Qle. change (count_distinct l <= len). lia.
Qed.

Lemma keyword_score_bounds_witness :
  In {| kr_case_id := 1%N; kr_chunk_id := 1%N; kr_keyword_score := Some (1 # 3) |}
     (keyword_ranked fine_db [txt "multa"; txt "multa"; txt "juros"]) /\
  exists s,
    Some (1 # 3) = Some s /\
    (0 < s)%Q /\
    (1 / inject_Z (Z.of_nat (length [txt "multa"; txt "multa"; txt "juros"])) <= s)%Q /\
    (s <= inject_Z (count_distinct [txt "multa"; txt "multa"; txt "juros"])
          / inject_Z (Z.of_nat (length [txt "multa"; txt "multa"; txt "juros"])))%Q /\
    (s <= 1)%Q.
Proof.
  assert (H1 : In {| kr_case_id := 1%N; kr_chunk_id := 1%N;
                     kr_keyword_score := Some (1 # 3) |}
                  (keyword_ranked fine_db [txt "multa"; txt "multa"; txt "juros"]))
    by (vm_compute; left; reflexivity).
  split; [exact H1|].
  apply (keyword_score_bounds fine_db [txt "multa"; txt "multa"; txt "juros"] _ H1).
Defined.

(** X17. Every row that [hybrid_search] returns names a case and a chunk
    that have a row in their tables, and carries the number of that case
    and the text of that chunk: a candidate whose case or chunk row is
    missing is never returned. *)
Theorem hybrid_rows_are_joined (cosine_distance : vector -> vector -> Q)
  (db : database) (q : vector) (keywords : list text) (limit_count : Z) (w : Q)
  (rows : list hybrid_row) (r : hybrid_row) :
  hybrid_search cosine_distance db q keywords limit_count w = Ok rows ->
  In r rows ->
  exists c tc,
    In c (cases db) /\ In tc (text_chunks db) /\
    c_id c = h_case_id r /\ c_case_number c = h_case_number r /\
    tc_id tc = h_chunk_id r /\ tc_chunk_text tc = h_chunk_text r.
Proof.
  intros Hok Hr.
  destruct (hybrid_search_In _ _ _ _ _ _ _ _ Hok Hr) as (sr & kr & _ & _ & Hc).
  apply hybrid_candidates_In in Hc.
  destruct Hc as (j & c & tc & _ & Hc & Htc & Hjc & Hjt & ->).
  exists c, tc. simpl. rewrite Hjc, Hjt. simpl. tauto.
Qed.

Lemma hybrid_rows_are_joined_witness :
  exists rows r,
    hybrid_search dot_distance sample_db sample_query [txt "contrato"] 10 (7 # 10)
      = Ok rows /\
    In r rows /\
    exists c tc,
      In c (cases sample_db) /\ In tc (text_chunks sample_db) /\
      c_id c = h_case_id r /\ c_case_number c = h_case_number r /\
      tc_id tc = h_chunk_id r /\ tc_chunk_text tc = h_chunk_text r.
Proof.
  eexists. eexists.
  assert (H2 : hybrid_search dot_distance sample_db sample_query [txt "contrato"] 10
                 (7 # 10)
               = Ok (firstn 3 (hybrid_ranked dot_distance sample_db sample_query
                                 [txt "contrato"] 10 (7 # 10))))
    by (vm_compute; reflexivity).
  split; [exact H2|].
  assert (H3 : In (nth 0 (hybrid_ranked dot_distance sample_db sample_query
                            [txt "contrato"] 10 (7 # 10))
                     {| h_case_id := 0%N; h_case_number := []; h_chunk_id := 0%N;
                        h_chunk_text := []; h_semantic_score := 0;
                        h_keyword_score := 0; h_final_score := 0 |})
                  (firstn 3 (hybrid_ranked dot_distance sample_db sample_query
                               [txt "contrato"] 10 (7 # 10))))
    by (vm_compute; left; reflexivity).
  split; [exact H3|].
  apply (hybrid_rows_are_joined dot_distance sample_db sample_query [txt "contrato"] 10
           (7 # 10) _ _ H2 H3).
Defined.

(** ** Candidates of hybrid_search are returned once *)

Section JoinedRows.

Variable cosine_distance : vector -> vector -> Q.
Variables (db : database) (q : vector) (keywords : list text) (limit_count : Z).
Variables (sr : list semantic_result) (kr : list keyword_result).

Hypothesis keys : db_constraints db = true.
Hypothesis sr_ok : semantic_results cosine_distance db q limit_count = Ok sr.
Hypothesis kr_ok : keyword_results db keywords limit_count = Ok kr.

Lemma semantic_rows_by_chunk (s1 s2 : semantic_result) :
  In s1 sr -> In s2 sr -> sr_chunk_id s1 = sr_chunk_id s2 -> s1 = s2.
Proof.
  intros H1 H2 E.
  destruct (semantic_results_In _ _ _ _ _ _ sr_ok H1) as (e1 & He1 & ->).
  destruct (semantic_results_In _ _ _ _ _ _ sr_ok H2) as (e2 & He2 & ->).
  destruct (db_constraints_keys db keys) as (_ & _ & K3 & _).
  simpl in E. rewrite (key_determines_row ev_chunk_id _ e1 e2 K3 He1 He2 E).
  reflexivity.
Qed.

Lemma keyword_rows_by_chunk (k1 k2 : keyword_result) :
  In k1 kr -> In k2 kr -> kr_chunk_id k1 = kr_chunk_id k2 -> k1 = k2.
Proof.
  intros H1 H2 E.
  apply (key_determines_row kr_chunk_id (keyword_ranked db keywords)).
  - apply keyword_ranked_chunks_unique, keys.
  - eapply keyword_results_In; eassumption.
  - eapply keyword_results_In; eassumption.
  - exact E.
Qed.

(** Two rows of the full outer join with the same case and the same chunk
    are one row. *)
Lemma joined_rows_by_key (j1 j2 : option semantic_result * option keyword_result) :
  In j1 (full_outer_join same_candidate sr kr) ->
  In j2 (full_outer_join same_candidate sr kr) ->
  joined_case_id j1 = joined_case_id j2 ->
  joined_chunk_id j1 = joined_chunk_id j2 ->
  j1 = j2.
Proof.
  intros H1 H2 Ec Et.
  apply full_outer_join_In in H1. apply full_outer_join_In in H2.
  destruct j1 as [a1 b1], j2 as [a2 b2]. simpl in H1, H2.
  destruct H1 as [(s1 & Hs1 & -> & [[-> Hno1] | (k1 & Hk1 & -> & Hon1)])
                 | (k1 & Hk1 & -> & -> & Hno1)];
  destruct H2 as [(s2 & Hs2 & -> & [[-> Hno2] | (k2 & Hk2 & -> & Hon2)])
                 | (k2 & Hk2 & -> & -> & Hno2)];
    simpl in Ec, Et; injection Ec as Ec; injection Et as Et;
    try (pose proof (semantic_rows_by_chunk s1 s2 Hs1 Hs2 Et); subst s2).
  - reflexivity.
  - rewrite (Hno1 k2 Hk2) in Hon2. discriminate.
  - exfalso. apply (same_candidate_false s1 k2 (Hno2 s1 Hs1)). tauto.
  - rewrite (Hno2 k1 Hk1) in Hon1. discriminate.
  - apply same_candidate_true in Hon1, Hon2.
    rewrite (keyword_rows_by_chunk k1 k2 Hk1 Hk2) by (destruct Hon1, Hon2; congruence).
    reflexivity.
  - exfalso. apply (same_candidate_false s1 k2 (Hno2 s1 Hs1)). tauto.
  - exfalso. apply (same_candidate_false s2 k1 (Hno1 s2 Hs2)). split; congruence.
  - exfalso. apply (same_candidate_false s2 k1 (Hno1 s2 Hs2)). split; congruence.
  - rewrite (keyword_rows_by_chunk k1 k2 Hk1 Hk2 Et). reflexivity.
Qed.

(** When the embeddings record the case of their chunk's document, the
    chunk of a row of the full outer join determines its case. *)
Lemma joined_case_by_chunk (j1 j2 : option semantic_result * option keyword_result) :
  embedding_case_agrees db ->
  In j1 (full_outer_join same_candidate sr kr) ->
  In j2 (full_outer_join same_candidate sr kr) ->
  joined_chunk_id j1 = joined_chunk_id j2 ->
  joined_case_id j1 = joined_case_id j2.
Proof.
  intros Hag H1 H2 Et.
  assert (Hmix : forall s k, In s sr -> In k kr ->
                   sr_chunk_id s = kr_chunk_id k -> sr_case_id s = kr_case_id k).
  { intros s k Hs Hk E.
    destruct (semantic_results_In _ _ _ _ _ _ sr_ok Hs) as (ev & Hev & ->).
    apply (keyword_results_In _ _ _ _ _ kr_ok) in Hk.
    destruct (keyword_ranked_In _ _ _ Hk) as (d & tc & _ & Hd & Htc & _ & Hdoc & _ & Hc & Ht).
    simpl in *. rewrite Hc. apply (Hag ev d tc); congruence. }
  apply full_outer_join_In in H1. apply full_outer_join_In in H2.
  destruct j1 as [a1 b1], j2 as [a2 b2]. simpl in H1, H2.
  destruct H1 as [(s1 & Hs1 & -> & _) | (k1 & Hk1 & -> & -> & _)];
  destruct H2 as [(s2 & Hs2 & -> & _) | (k2 & Hk2 & -> & -> & _)];
    simpl in Et |- *; injection Et as Et; f_equal.
  - rewrite (semantic_rows_by_chunk s1 s2 Hs1 Hs2 Et). reflexivity.
  - apply Hmix; assumption.
  - symmetry. apply Hmix; [assumption|assumption|congruence].
  - rewrite (keyword_rows_by_chunk k1 k2 Hk1 Hk2 Et). reflexivity.
Qed.

Variable w : Q.

Lemma candidates_by_key (a b : hybrid_row) :
  In a (hybrid_candidates db w sr kr) -> In b (hybrid_candidates db w sr kr) ->
  candidate_key a = candidate_key b -> a = b.
Proof.
  intros Ha Hb E.
  apply hybrid_candidates_In in Ha, Hb.
  destruct Ha as (j1 & c1 & t1 & Hj1 & Hc1 & Ht1 & Ejc1 & Ejt1 & ->).
  destruct Hb as (j2 & c2 & t2 & Hj2 & Hc2 & Ht2 & Ejc2 & Ejt2 & ->).
  unfold candidate_key in E. simpl in E.
  rewrite Ejc1, Ejc2, Ejt1, Ejt2 in E. simpl in E. injection E as Ec Et.
  destruct (db_constraints_keys db keys) as (K1 & K2 & _).
  assert (j1 = j2) by (apply joined_rows_by_key; congruence). subst j2.
  rewrite (key_determines_row c_id _ c1 c2 K1 Hc1 Hc2 Ec).
  rewrite (key_determines_row tc_id _ t1 t2 K2 Ht1 Ht2 Et).
  reflexivity.
Qed.

Lemma candidates_case_by_chunk (a b : hybrid_row) :
  embedding_case_agrees db ->
  In a (hybrid_candidates db w sr kr) -> In b (hybrid_candidates db w sr kr) ->
  h_chunk_id a = h_chunk_id b -> candidate_key a = candidate_key b.
Proof.
  intros Hag Ha Hb E.
  apply hybrid_candidates_In in Ha, Hb.
  destruct Ha as (j1 & c1 & t1 & Hj1 & Hc1 & Ht1 & Ejc1 & Ejt1 & ->).
  destruct Hb as (j2 & c2 & t2 & Hj2 & Hc2 & Ht2 & Ejc2 & Ejt2 & ->).
  simpl in E. rewrite Ejt1, Ejt2 in E. simpl in E.
  assert (Ec : joined_case_id j1 = joined_case_id j2)
    by (apply joined_case_by_chunk; try assumption; congruence).
  unfold candidate_key. simpl. rewrite Ec, Ejt1, Ejt2. simpl. congruence.
Qed.

End JoinedRows.

(** X18. On tables that satisfy their key constraints, [hybrid_search]
    returns no candidate (case and chunk) twice. When, moreover, every
    embedding records the case of its chunk's document, no chunk is
    returned twice. *)
Theorem hybrid_search_no_duplicates (cosine_distance : vector -> vector -> Q)
  (db : database) (q : vector) (keywords : list text) (limit_count : Z) (w : Q)
  (rows : list hybrid_row) :
  db_constraints db = true ->
  hybrid_search cosine_distance db q keywords limit_count w = Ok rows ->
  NoDup (map candidate_key rows) /\
  (embedding_case_agrees db -> NoDup (map h_chunk_id rows)).
Proof.
  intros keys Hok. unfold hybrid_search, bind in Hok.
  destruct (semantic_results cosine_distance db q limit_count) as [sr|e] eqn:Es;
    [|discriminate].
  destruct (keyword_results db keywords limit_count) as [kr|e] eqn:Ek;
    [|discriminate].
  unfold sql_limit in Hok. destruct (limit_count <? 0); [discriminate|].
  injection Hok as <-.
  assert (Hkey : NoDup (map candidate_key (hybrid_candidates db w sr kr))).
  { apply (finer_keys_unique (fun h => h) candidate_key).
    - intros x y Hx Hy E.
      apply (candidates_by_key cosine_distance db q keywords limit_count sr kr
               keys Es Ek w); assumption.
    - rewrite map_id. apply distinct_unique, hybrid_row_eqb_refl. }
  split.
  - apply prefix_keys_unique.
    eapply Permutation_NoDup;
      [apply Permutation_map, Permutation_sym, order_by_perm|].
    exact Hkey.
  - intros Hag. apply prefix_keys_unique.
    eapply Permutation_NoDup;
      [apply Permutation_map, Permutation_sym, order_by_perm|].
    apply (finer_keys_unique candidate_key h_chunk_id); [|exact Hkey].
    intros x y Hx Hy E.
    apply (candidates_case_by_chunk cosine_distance db q keywords limit_count sr kr
             keys Es Ek w); assumption.
Qed.

Lemma hybrid_search_no_duplicates_witness :
  db_constraints sample_db = true /\
  exists rows,
    hybrid_search dot_distance sample_db sample_query [txt "contrato"] 10 (7 # 10)
      = Ok rows /\
    rows <> [] /\
    NoDup (map candidate_key rows) /\
    (embedding_case_agrees sample_db -> NoDup (map h_chunk_id rows)).
Proof.
  assert (H1 : db_constraints sample_db = true) by (vm_compute; reflexivity).
  split; [exact H1|].
  eexists.
  assert (H2 : hybrid_search dot_distance sample_db sample_query [txt "contrato"] 10
                 (7 # 10)
               = Ok (firstn 3 (hybrid_ranked dot_distance sample_db sample_query
                                 [txt "contrato"] 10 (7 # 10))))
    by (vm_compute; reflexivity).
  split; [exact H2|].
  split; [vm_compute; discriminate|].
  apply (hybrid_search_no_duplicates dot_distance sample_db sample_query
           [txt "contrato"] 10 (7 # 10) _ H1 H2).
Defined.

(** The second half of X18 needs its hypothesis: in [split_db] the keys
    hold, the embedding of chunk 1 is recorded under another case than
    the chunk's document, and [hybrid_search] returns chunk 1 twice. *)
Example hybrid_search_chunk_twice :
  db_constraints split_db = true /\
  ~ embedding_case_agrees split_db /\
  exists rows,
    hybrid_search dot_distance split_db (padded [1%Q]) [txt "multa"] 10 (7 # 10)
      = Ok rows /\
    map candidate_key rows = [(2%N, 1%N); (1%N, 1%N)] /\
    map h_chunk_id rows = [1%N; 1%N].
Proof.
  split; [vm_compute; reflexivity|]. split.
  - intros H.
    specialize (H (new_embedding 101%N 2%N 1%N (padded [1%Q]))
                  {| d_id := 10%N; d_case_id := 1%N |}
                  {| tc_id := 1%N; tc_document_id := 10%N;
                     tc_chunk_text := txt "Multa de 500 reais" |}).
    simpl in H. assert (E : 2%N = 1%N) by (apply H; auto). discriminate E.
  - eexists. split; [vm_compute; reflexivity|]. split; reflexivity.
Qed.

(** ** The trigger and the cascade *)

(** X19. The trigger function [cleanup_orphan_embeddings] deletes the
    embeddings of the row being deleted and nothing else, and lets the
    deletion go on with the same row; the cascade of the foreign key then
    finds nothing left to delete, and a deletion without the trigger
    leaves the same state. *)
Theorem trigger_and_cascade_agree (db : database) (OLD : chunk_row) :
  snd (cleanup_orphan_embeddings OLD db) = OLD /\
  cases (fst (cleanup_orphan_embeddings OLD db)) = cases db /\
  documents (fst (cleanup_orphan_embeddings OLD db)) = documents db /\
  text_chunks (fst (cleanup_orphan_embeddings OLD db)) = text_chunks db /\
  (forall ev, In ev (embeddings_vector (fst (cleanup_orphan_embeddings OLD db)))
              <-> In ev (embeddings_vector db) /\ ev_chunk_id ev <> tc_id OLD) /\
  embeddings_vector (delete_chunk_row db OLD)
  = embeddings_vector (fst (cleanup_orphan_embeddings OLD db)) /\
  delete_chunk_row db OLD = without_chunk db (tc_id OLD).
Proof.
  split; [reflexivity|]. split; [reflexivity|]. split; [reflexivity|].
  split; [reflexivity|]. split; [|split].
  - intros ev. simpl. rewrite filter_In, negb_true_iff, N.eqb_neq. reflexivity.
  - rewrite delete_chunk_row_without. reflexivity.
  - apply delete_chunk_row_without.
Qed.

